(** * File-Allocation-System: stack numbering, borrow workflow, record
      filtering / sorting / paging and user management

    A shallow embedding of the view logic of
    - [src/pages/ProcurementList.tsx] (component [ProcurementList]) and
    - the [UserManagement] component bundled in [src/contexts/DataContext.tsx],
    together with the properties the specification states about them.

    Conventions of the embedding
    - JavaScript strings are Rocq [string]s (one-byte characters); only the
      ASCII part of [toLowerCase] is modelled.
    - JavaScript numbers that the code uses as integers (stack numbers,
      epoch milliseconds, page numbers, comparator results) are [Z];
      [NaN] results are [None].
    - An optional field [f?: T] is an [option T]; [None] is [undefined].
    - [Array.prototype.sort] is a stable insertion sort driven by the
      comparator; for a comparator that is a consistent order every stable
      sort returns the same array.
    - The remote store and the toast / dialog layer are explicit state: a
      [World] threaded through a small state-and-exception monad. *)

From stdpp Require Import base tactics option list strings pretty sorting.
From Stdlib Require Import ZArith Lia Ascii.
From Stdlib Require String.

Local Open Scope string_scope.
Local Open Scope Z_scope.

(** ** JavaScript strings *)

Module JsString.

Definition isUpper (c : ascii) : bool :=
  let n := nat_of_ascii c in (65 <=? n)%nat && (n <=? 90)%nat.

Definition isDigit (c : ascii) : bool :=
  let n := nat_of_ascii c in (48 <=? n)%nat && (n <=? 57)%nat.

Definition toLowerChar (c : ascii) : ascii :=
  if isUpper c then ascii_of_nat (nat_of_ascii c + 32) else c.

(** [s.toLowerCase()] on text of ASCII characters: the letters [A] to [Z]
    are put in lower case and a character code above 127 is left as it is,
    where JavaScript also lower-cases the letters of other scripts *)
Fixpoint toLowerCase (s : string) : string :=
  match s with
  | EmptyString => EmptyString
  | String c r => String (toLowerChar c) (toLowerCase r)
  end.

(** [s.startsWith(p)] *)
Fixpoint startsWith (s p : string) : bool :=
  match p, s with
  | EmptyString, _ => true
  | String _ _, EmptyString => false
  | String a p', String b s' => bool_decide (a = b) && startsWith s' p'
  end.

(** [s.includes(sub)] *)
Fixpoint includes (s sub : string) : bool :=
  startsWith s sub ||
  match s with
  | EmptyString => false
  | String _ s' => includes s' sub
  end.

(** [s.endsWith(suf)] *)
Fixpoint endsWith (s suf : string) : bool :=
  bool_decide (s = suf) ||
  match s with
  | EmptyString => false
  | String _ s' => endsWith s' suf
  end.

(** [regex.test(s)] for a regex that is one character class *)
Fixpoint test (class : ascii → bool) (s : string) : bool :=
  match s with
  | EmptyString => false
  | String c r => class c || test class r
  end.

(** truthiness of a string: every string but the empty one *)
Definition truthy (s : string) : bool := negb (bool_decide (s = "")).

End JsString.

(** ** JavaScript arrays: [sort] and [slice] *)

Module JsArray.

Section sort.
Context {A : Type} (comparefn : A → A → option Z).

(** The sort reads a [NaN] comparator result as [+0]. *)
Definition order (a b : A) : Z := default 0 (comparefn a b).

Fixpoint insert (x : A) (l : list A) : list A :=
  match l with
  | [] => [x]
  | y :: r => if order x y <=? 0 then x :: y :: r else y :: insert x r
  end.

(** [l.sort(comparefn)] as a stable insertion sort: an element stays in
    front of the elements behind it unless the comparator is positive.
    With a comparator that is a consistent order this is the one array
    every stable sort returns; with any other comparator the standard
    leaves the order to the engine, and nothing below relies on it beyond
    the result being a rearrangement of the input. *)
Definition sort (l : list A) : list A := foldr insert [] l.
End sort.

(** [l.slice(start, end)], negative indices counting from the end. *)
Definition relIndex (len k : Z) : Z :=
  if k <? 0 then Z.max (len + k) 0 else Z.min k len.

Definition slice {A} (l : list A) (start end_ : Z) : list A :=
  let len := Z.of_nat (length l) in
  let k := relIndex len start in
  let final := relIndex len end_ in
  take (Z.to_nat (final - k)) (drop (Z.to_nat k) l).

End JsArray.

(** ** JavaScript [Map<string, V>]: keys in insertion order *)

Module JsMap.

Definition t (V : Type) : Type := list (string * V).

Definition empty {V} : t V := [].

(** [m.set(k, v)]: an existing key keeps its place and takes the new value *)
Fixpoint set {V} (k : string) (v : V) (m : t V) : t V :=
  match m with
  | [] => [(k, v)]
  | (k', v') :: r =>
      if bool_decide (k' = k) then (k', v) :: r else (k', v') :: set k v r
  end.

(** [m.get(k)] *)
Fixpoint get {V} (k : string) (m : t V) : option V :=
  match m with
  | [] => None
  | (k', v') :: r => if bool_decide (k' = k) then Some v' else get k r
  end.

(** [m.entries()] *)
Definition entries {V} (m : t V) : list (string * V) := m.

Definition keys {V} (m : t V) : list string := m.*1.

End JsMap.

(** ** Host functions the code calls but does not define *)

Class Host := {
  (** [new Date(s).getTime()]: epoch milliseconds, [None] for [NaN] *)
  Date_getTime : string → option Z;
  (** [a.localeCompare(b)] *)
  localeCompare : string → string → Z;
}.

(** ** Data model ([@/types/procurement]) *)

(** Modelled from the spec: the type [ProcurementStatus] of
    [@/types/procurement], whose declaration is not among the sources. The
    specification gives a record the status borrowed or archived; the code
    spells them ['active'] and ['archived'] ([statusOptions],
    [getStatusLabel]). *)
Inductive ProcurementStatus := active | archived.

Global Instance ProcurementStatus_eq_dec : EqDecision ProcurementStatus.
Proof. solve_decision. Defined.

(** Modelled from the spec: the type [Procurement] of [@/types/procurement],
    whose declaration is not among the sources. The fields are those of the
    specification's Record entity that the code at hand reads or writes,
    under the names the code uses. *)
Record Procurement := mkProcurement {
  id : string;
  prNumber : string;
  description : string;
  cabinetId : string;
  shelfId : string;
  folderId : string;
  status : ProcurementStatus;
  urgencyLevel : string;
  dateAdded : string;
  stackNumber : option Z;
  borrowedBy : option string;
  division : option string;
  borrowedDate : option string;
  returnDate : option string;
}.

(** truthiness of [stackNumber]: defined and not [0] *)
Definition truthyNum (n : option Z) : bool :=
  match n with
  | Some v => negb (v =? 0)
  | None => false
  end.

(** ** Stack numbering ([calculateStackNumbers]) *)

Section StackNumbers.
Context `{Host}.

(** [new Date(a.dateAdded).getTime() - new Date(b.dateAdded).getTime()] *)
Definition dateDiff (a b : Procurement) : option Z :=
  ta ← Date_getTime a.(dateAdded);
  tb ← Date_getTime b.(dateAdded);
  Some (ta - tb).

(** the comparator handed to [sort] in [calculateStackNumbers] *)
Definition stackCompare (a b : Procurement) : option Z :=
  if truthyNum a.(stackNumber) && truthyNum b.(stackNumber)
  then Some (default 0 a.(stackNumber) - default 0 b.(stackNumber))
  else dateDiff a b.

Definition availableInFolder (procurements : list Procurement)
    (folder : string) : list Procurement :=
  JsArray.sort stackCompare
    (filter (λ p, p.(folderId) = folder ∧ p.(status) = archived) procurements).

(** [availableInFolder.forEach((p, index) => stackMap.set(p.id, index + 1))],
    started at [index] *)
Fixpoint forEachSet (l : list Procurement) (index : Z)
    (stackMap : JsMap.t Z) : JsMap.t Z :=
  match l with
  | [] => stackMap
  | p :: rest => forEachSet rest (index + 1) (JsMap.set p.(id) (index + 1) stackMap)
  end.

Definition calculateStackNumbers (procurements : list Procurement)
    (folder : string) : JsMap.t Z :=
  forEachSet (availableInFolder procurements folder) 0 JsMap.empty.

End StackNumbers.

(** ** Record list: filter, sort, pages ([filteredProcurements],
       [paginatedProcurements]) *)

(** the [filters] state, with the fields of its initial value *)
Module ProcurementFilters.
Record t := mk {
  search : string;
  cabinetId : string;
  shelfId : string;
  folderId : string;
  status : string;
  monthYear : string;
  urgencyLevel : string;
}.
End ProcurementFilters.

Inductive SortField := byName | byPrNumber | byDate | byStackNumber.
Inductive SortDirection := asc | desc.

(** [x || 999] on an optional number *)
Definition orElse (n : option Z) (d : Z) : Z :=
  if truthyNum n then default 0 n else d.

Section RecordList.
Context `{Host}.

(** the predicate handed to [filter] *)
Definition matchesFilters (filters : ProcurementFilters.t)
    (statusFilters : list ProcurementStatus) (procurement : Procurement) : bool :=
  let needle := JsString.toLowerCase (ProcurementFilters.search filters) in
  let matchesSearch :=
    JsString.includes (JsString.toLowerCase procurement.(prNumber)) needle ||
    JsString.includes (JsString.toLowerCase procurement.(description)) needle in
  let matchesCabinet :=
    negb (JsString.truthy (ProcurementFilters.cabinetId filters)) ||
    bool_decide (ProcurementFilters.cabinetId filters = "all_cabinets") ||
    bool_decide (procurement.(cabinetId) = ProcurementFilters.cabinetId filters) in
  let matchesShelf :=
    negb (JsString.truthy (ProcurementFilters.shelfId filters)) ||
    bool_decide (ProcurementFilters.shelfId filters = "all_shelves") ||
    bool_decide (procurement.(shelfId) = ProcurementFilters.shelfId filters) in
  let matchesFolder :=
    negb (JsString.truthy (ProcurementFilters.folderId filters)) ||
    bool_decide (ProcurementFilters.folderId filters = "all_folders") ||
    bool_decide (procurement.(folderId) = ProcurementFilters.folderId filters) in
  let matchesStatus :=
    bool_decide (length statusFilters = 0%nat) ||
    bool_decide (procurement.(status) ∈ statusFilters) in
  let matchesUrgency :=
    negb (JsString.truthy (ProcurementFilters.urgencyLevel filters)) ||
    bool_decide (ProcurementFilters.urgencyLevel filters = "all_urgency") ||
    bool_decide (procurement.(urgencyLevel) = ProcurementFilters.urgencyLevel filters) in
  matchesSearch && matchesCabinet && matchesShelf && matchesFolder &&
  matchesStatus && matchesUrgency.

(** the comparator handed to [sort] *)
Definition compareProcurements (sortField : SortField)
    (sortDirection : SortDirection) (a b : Procurement) : option Z :=
  let comparison :=
    match sortField with
    | byName => Some (localeCompare a.(description) b.(description))
    | byPrNumber => Some (localeCompare a.(prNumber) b.(prNumber))
    | byDate => dateDiff b a
    | byStackNumber =>
        let aStack := orElse a.(stackNumber) 999 in
        let bStack := orElse b.(stackNumber) 999 in
        Some (aStack - bStack)
    end in
  match sortDirection with
  | asc => comparison
  | desc => Z.opp <$> comparison
  end.

Definition filteredProcurements (procurements : list Procurement)
    (filters : ProcurementFilters.t) (statusFilters : list ProcurementStatus)
    (sortField : SortField) (sortDirection : SortDirection) : list Procurement :=
  JsArray.sort (compareProcurements sortField sortDirection)
    (filter (λ p, matchesFilters filters statusFilters p = true) procurements).

End RecordList.

Definition itemsPerPage : Z := 20.

(** [Math.ceil(a / b)] for [0 < b] *)
Definition ceilDiv (a b : Z) : Z := - ((- a) `div` b).

Definition totalPages (filtered : list Procurement) : Z :=
  ceilDiv (Z.of_nat (length filtered)) itemsPerPage.

Definition paginatedProcurements (filtered : list Procurement)
    (currentPage : Z) : list Procurement :=
  JsArray.slice filtered ((currentPage - 1) * itemsPerPage) (currentPage * itemsPerPage).

(** the page setters of the two pager buttons, shown when [totalPages > 1] *)
Definition previousPage (prev : Z) : Z := Z.max (prev - 1) 1.
Definition nextPage (prev total : Z) : Z := Z.min (prev + 1) total.

Definition statusOptions : list ProcurementStatus := [active; archived].

(** [toggleStatusFilter], which the status menu calls with the entries of
    [statusOptions]: [statusFilters] holds nothing else *)
Definition toggleStatusFilter (st : ProcurementStatus)
    (prev : list ProcurementStatus) : list ProcurementStatus :=
  if bool_decide (st ∈ prev) then filter (λ s, s ≠ st) prev else prev ++ [st].

(** ** Users ([@/types/user]) *)

(** Modelled from the spec: the type [User] of [@/types/user], whose
    declaration is not among the sources, with the fields of the
    specification's User entity that the code at hand reads or writes. *)
Module User.
Inductive Role := admin | user.
Inductive Status := active | inactive.

Record t := mk {
  id : string;
  name : string;
  email : string;
  password : string;
  role : Role;
  status : Status;
}.

(** the fields [updateUser] may overwrite *)
Record Patch := mkPatch {
  p_name : option string;
  p_email : option string;
  p_password : option string;
  p_role : option Role;
  p_status : option Status;
}.

Definition apply (u : Patch) (x : t) : t :=
  {| id := id x;
     name := default (name x) (p_name u);
     email := default (email x) (p_email u);
     password := default (password x) (p_password u);
     role := default (role x) (p_role u);
     status := default (status x) (p_status u) |}.
End User.

(** the user form of [UserManagement] *)
Module FormData.
Record t := mk {
  name : string;
  email : string;
  password : string;
  role : User.Role;
  status : User.Status;
}.
End FormData.

(** ** The world outside the pure view logic *)

(** the [updates] object of [updateProcurement(id, updates)]; a field that
    is [None] is absent from the object, [p_stackNumber = Some None] is
    [{ stackNumber: undefined }] *)
Record ProcurementPatch := mkPatch {
  p_status : option ProcurementStatus;
  p_borrowedBy : option string;
  p_division : option string;
  p_borrowedDate : option string;
  p_returnDate : option string;
  p_stackNumber : option (option Z);
}.

Definition noPatch : ProcurementPatch := mkPatch None None None None None None.

Inductive StoreCall :=
  | call_updateProcurement (key : string) (updates : ProcurementPatch)
  | call_deleteUser (key : string)
  | call_updateUser (key : string) (updates : User.Patch).

Inductive Toast :=
  | toast_error (msg : string)
  | toast_success (msg : string).

(** the state of the borrow dialog *)
Module BorrowEdit.
Record t := mk {
  procurement : Procurement;
  borrowedBy : string;
  division : string;
}.
End BorrowEdit.

Record World := mkWorld {
  (** the remote collections *)
  store_procurements : list Procurement;
  store_users : list User.t;
  (** every call made to the store client, oldest first *)
  calls : list StoreCall;
  (** which of the coming store calls reject: [true] rejects; past the end
      of the list every call resolves *)
  faults : list bool;
  (** messages shown, oldest first *)
  toasts : list Toast;
  (** [new Date().toISOString()] *)
  clock : string;
  (** what the user answers to [confirm(...)] *)
  confirmReply : bool;
  (** React state [borrowEditModal] *)
  borrowEditModal : option BorrowEdit.t;
}.

(** *** A state monad with exceptions for the [async] handlers *)

Inductive Outcome (A : Type) :=
  | Returned (a : A)
  | Thrown.
Arguments Returned {A} a.
Arguments Thrown {A}.

Definition M (A : Type) : Type := World → Outcome A * World.

Definition ret {A} (a : A) : M A := λ w, (Returned a, w).

Definition bind {A B} (m : M A) (k : A → M B) : M B :=
  λ w, match m w with
       | (Returned a, w') => k a w'
       | (Thrown, w') => (Thrown, w')
       end.

Notation "x ←' m ; k" := (bind m (λ x, k))
  (at level 20, m at level 100, k at level 200, right associativity, only parsing).
Notation "m ;;' k" := (bind m (λ _, k))
  (at level 100, k at level 200, right associativity, only parsing).

(** [try { body } catch (error) { handler }] *)
Definition tryCatch (body handler : M unit) : M unit :=
  λ w, match body w with
       | (Returned a, w') => (Returned a, w')
       | (Thrown, w') => handler w'
       end.

(** [for (const x of l) { await body(x) }] *)
Fixpoint forOf {A} (l : list A) (body : A → M unit) : M unit :=
  match l with
  | [] => ret tt
  | x :: rest => body x ;;' forOf rest body
  end.

(** *** Primitive effects *)

Definition with_procurements (f : list Procurement → list Procurement) (w : World) : World :=
  mkWorld (f (store_procurements w)) (store_users w) (calls w) (faults w)
          (toasts w) (clock w) (confirmReply w) (borrowEditModal w).

Definition with_users (f : list User.t → list User.t) (w : World) : World :=
  mkWorld (store_procurements w) (f (store_users w)) (calls w) (faults w)
          (toasts w) (clock w) (confirmReply w) (borrowEditModal w).

(** a store call is logged and uses up one entry of [faults] *)
Definition logCall (c : StoreCall) (w : World) : World :=
  mkWorld (store_procurements w) (store_users w) (calls w ++ [c]) (tail (faults w))
          (toasts w) (clock w) (confirmReply w) (borrowEditModal w).

Definition addToast (t : Toast) (w : World) : World :=
  mkWorld (store_procurements w) (store_users w) (calls w) (faults w)
          (toasts w ++ [t]) (clock w) (confirmReply w) (borrowEditModal w).

Definition toast (t : Toast) : M unit := λ w, (Returned tt, addToast t w).

(** [confirm(message)] *)
Definition confirm (message : string) : M bool := λ w, (Returned (confirmReply w), w).

(** [new Date().toISOString()] *)
Definition nowISOString : M string := λ w, (Returned (clock w), w).

Definition getBorrowEditModal : M (option BorrowEdit.t) :=
  λ w, (Returned (borrowEditModal w), w).

Definition setBorrowEditModal (v : option BorrowEdit.t) : M unit :=
  λ w, (Returned tt,
        mkWorld (store_procurements w) (store_users w) (calls w) (faults w)
                (toasts w) (clock w) (confirmReply w) v).

(** an awaited call to the store client: it rejects (and changes nothing)
    when the next entry of [faults] says so, else [effect] takes place *)
Definition storeCall (c : StoreCall) (effect : World → World) : M unit :=
  λ w, match faults w with
       | true :: _ => (Thrown, logCall c w)
       | _ => (Returned tt, effect (logCall c w))
       end.

Definition applyPatch (u : ProcurementPatch) (p : Procurement) : Procurement :=
  {| id := p.(id);
     prNumber := p.(prNumber);
     description := p.(description);
     cabinetId := p.(cabinetId);
     shelfId := p.(shelfId);
     folderId := p.(folderId);
     status := default p.(status) u.(p_status);
     urgencyLevel := p.(urgencyLevel);
     dateAdded := p.(dateAdded);
     stackNumber := default p.(stackNumber) u.(p_stackNumber);
     borrowedBy := from_option Some p.(borrowedBy) u.(p_borrowedBy);
     division := from_option Some p.(division) u.(p_division);
     borrowedDate := from_option Some p.(borrowedDate) u.(p_borrowedDate);
     returnDate := from_option Some p.(returnDate) u.(p_returnDate) |}.

Definition patchRecord (key : string) (updates : ProcurementPatch)
    (p : Procurement) : Procurement :=
  if bool_decide (p.(id) = key) then applyPatch updates p else p.

(** Modelled from the spec: [updateProcurement] of [@/lib/storage], which is
    not part of the sources at hand. The specification describes the store
    client as "point writes (create/update/delete) by id, each asynchronous
    and independently fallible": the record with the given id takes the
    fields of [updates], every other record and field stays. *)
Definition updateProcurement (key : string) (updates : ProcurementPatch) : M unit :=
  storeCall (call_updateProcurement key updates)
    (with_procurements (fmap (patchRecord key updates))).

(** Modelled from the spec: [deleteUser] of [@/lib/storage] (a point delete
    by id). *)
Definition deleteUser (key : string) : M unit :=
  storeCall (call_deleteUser key)
    (with_users (filter (λ u, User.id u ≠ key))).

(** Modelled from the spec: [updateUser] of [@/lib/storage] (a point write
    by id). *)
Definition updateUser (key : string) (updates : User.Patch) : M unit :=
  storeCall (call_updateUser key updates)
    (with_users
       (fmap (λ u, if bool_decide (User.id u = key) then User.apply updates u else u))).

(** ** Borrow workflow ([updateStackNumbersForFolder], [saveBorrowChanges]) *)

Section Borrow.
Context `{Host}.

(** [procurements] is the React state of the render in which the handler
    was created: the closure keeps reading that array while its writes
    are awaited. *)
Definition updateStackNumbersForFolder (procurements : list Procurement)
    (folder : string) : M unit :=
  let stackMap := calculateStackNumbers procurements folder in
  forOf (JsMap.entries stackMap)
    (λ '(procId, stackNum),
       updateProcurement procId
         (mkPatch None None None None None (Some (Some stackNum)))) ;;'
  let borrowedInFolder :=
    filter (λ p, p.(folderId) = folder ∧ p.(status) = active) procurements in
  forOf borrowedInFolder
    (λ proc,
       if bool_decide (proc.(stackNumber) ≠ None)
       then updateProcurement proc.(id)
              (mkPatch None None None None None (Some None))
       else ret tt).

Definition saveBorrowChanges (procurements : list Procurement) : M unit :=
  modal ←' getBorrowEditModal;
  match modal with
  | None => ret tt
  | Some m =>
      let procurement := BorrowEdit.procurement m in
      let borrowedBy := BorrowEdit.borrowedBy m in
      let division := BorrowEdit.division m in
      if negb (JsString.truthy borrowedBy) || negb (JsString.truthy division)
      then toast (toast_error "Please fill in all required fields")
      else
        tryCatch
          (now ←' nowISOString;
           updateProcurement procurement.(id)
             (mkPatch (Some active) (Some borrowedBy) (Some division)
                      (Some now) None None) ;;'
           updateStackNumbersForFolder procurements procurement.(folderId) ;;'
           setBorrowEditModal None ;;'
           toast (toast_success "File marked as borrowed"))
          (toast (toast_error "Failed to update file status"))
  end.

End Borrow.

(** ** User management ([validateUser], [handleDeleteUser], [toggleStatus]) *)

(** the character class of the last password rule: the twenty characters
    ! @ # $ % ^ & * ( ) , . ? : { } | < > and the double quote (code 34) *)
Definition specialChars : list ascii :=
  ["!"; "@"; "#"; "$"; "%"; "^"; "&"; "*"; "("; ")"; ","; "."; "?";
   ascii_of_nat 34; ":"; "{"; "}"; "|"; "<"; ">"]%char.

Definition isSpecial (c : ascii) : bool := bool_decide (c ∈ specialChars).

Definition validateUser (data : FormData.t) : M bool :=
  if negb (JsString.truthy (FormData.name data)) ||
     negb (JsString.truthy (FormData.email data)) ||
     negb (JsString.truthy (FormData.password data))
  then toast (toast_error "Name, Email, and Password are required") ;;' ret false
  else if negb (JsString.endsWith (JsString.toLowerCase (FormData.email data)) "@gmail.com")
  then toast (toast_error "Email must be a '@gmail.com' address") ;;' ret false
  else
    let pw := FormData.password data in
    if Z.of_nat (String.length pw) <? 8
    then toast (toast_error "Password must be at least 8 characters long") ;;' ret false
    else if negb (JsString.test JsString.isUpper pw)
    then toast (toast_error "Password must contain at least one uppercase letter") ;;' ret false
    else if negb (JsString.test JsString.isDigit pw)
    then toast (toast_error "Password must contain at least one number") ;;' ret false
    else if negb (JsString.test isSpecial pw)
    then toast (toast_error "Password must contain at least one special character") ;;' ret false
    else ret true.

(** [users.find(u => u.id === id)] *)
Definition findUser (users : list User.t) (key : string) : option User.t :=
  snd <$> list_find (λ u, User.id u = key) users.

Definition handleDeleteUser (users : list User.t) (key : string) : M unit :=
  let userToDelete := findUser users key in
  if bool_decide (User.email <$> userToDelete = Some "admin@gmail.com")
  then toast (toast_error "Cannot delete the main Admin user.")
  else
    ok ←' confirm "Are you sure you want to delete this user? This cannot be undone.";
    if (ok : bool)
    then tryCatch
           (deleteUser key ;;' toast (toast_success "User deleted"))
           (toast (toast_error "Failed to delete user"))
    else ret tt.

Definition statusName (s : User.Status) : string :=
  match s with
  | User.active => "active"
  | User.inactive => "inactive"
  end.

Definition toggleStatus (user : User.t) : M unit :=
  if bool_decide (User.email user = "admin@gmail.com")
  then toast (toast_error "Cannot change status of main Admin user.")
  else
    let newStatus :=
      match User.status user with
      | User.active => User.inactive
      | User.inactive => User.active
      end in
    updateUser (User.id user) (User.mkPatch None None None None (Some newStatus)) ;;'
    toast (toast_success ("User set to " +:+ statusName newStatus)).

(** The acceptance rule of the specification: all three fields filled in,
    an address that ends with the domain once it is put in lower case, a
    password of eight characters or more with an upper-case letter, a digit
    and a character of the punctuation set. *)
Definition validForm (data : FormData.t) : Prop :=
  FormData.name data ≠ "" ∧ FormData.email data ≠ "" ∧ FormData.password data ≠ "" ∧
  (∃ pre, JsString.toLowerCase (FormData.email data) = pre +:+ "@gmail.com") ∧
  (8 ≤ String.length (FormData.password data))%nat ∧
  (∃ c, c ∈ String.list_ascii_of_string (FormData.password data) ∧ JsString.isUpper c = true) ∧
  (∃ c, c ∈ String.list_ascii_of_string (FormData.password data) ∧ JsString.isDigit c = true) ∧
  (∃ c, c ∈ String.list_ascii_of_string (FormData.password data) ∧ c ∈ specialChars).

(** the same rule with the address compared as it was typed *)
Definition validFormExactCase (data : FormData.t) : Prop :=
  FormData.name data ≠ "" ∧ FormData.email data ≠ "" ∧ FormData.password data ≠ "" ∧
  (∃ pre, FormData.email data = pre +:+ "@gmail.com") ∧
  (8 ≤ String.length (FormData.password data))%nat ∧
  (∃ c, c ∈ String.list_ascii_of_string (FormData.password data) ∧ JsString.isUpper c = true) ∧
  (∃ c, c ∈ String.list_ascii_of_string (FormData.password data) ∧ JsString.isDigit c = true) ∧
  (∃ c, c ∈ String.list_ascii_of_string (FormData.password data) ∧ c ∈ specialChars).

(** ** The store after a run of resolved writes *)

(** one resolved [updateProcurement(key, updates)] *)
Definition write (ku : string * ProcurementPatch) (w : World) : World :=
  with_procurements (fmap (patchRecord ku.1 ku.2))
    (logCall (call_updateProcurement ku.1 ku.2) w).

Definition writeAll (us : list (string * ProcurementPatch)) (w : World) : World :=
  foldl (λ w' ku, write ku w') w us.

(** what a run of writes makes of one record *)
Definition evolve (us : list (string * ProcurementPatch)) (p : Procurement) : Procurement :=
  foldl (λ q ku, patchRecord ku.1 ku.2 q) p us.

(** the object of the first write of [saveBorrowChanges] *)
Definition borrowPatch (m : BorrowEdit.t) (now : string) : ProcurementPatch :=
  mkPatch (Some active) (Some (BorrowEdit.borrowedBy m)) (Some (BorrowEdit.division m))
          (Some now) None None.

(** the object of the writes of [updateStackNumbersForFolder] *)
Definition stackPatch (n : option Z) : ProcurementPatch :=
  mkPatch None None None None None (Some n).

Section RenumberWrites.
Context `{Host}.

(** the writes [updateStackNumbersForFolder] issues, in order *)
Definition renumberWrites (procurements : list Procurement) (folder : string)
    : list (string * ProcurementPatch) :=
  omap (λ kn : string * Z, Some (kn.1, stackPatch (Some kn.2)))
       (JsMap.entries (calculateStackNumbers procurements folder))
  ++
  omap (λ proc : Procurement,
          if bool_decide (proc.(stackNumber) ≠ None)
          then Some (proc.(id), stackPatch None) else None)
       (filter (λ p, p.(folderId) = folder ∧ p.(status) = active) procurements).
End RenumberWrites.

(** a computation that only ever adds to the log of store calls *)
Definition grows {A} (m : M A) : Prop :=
  ∀ w, ∃ rest, calls (m w).2 = (calls w ++ rest)%list.

(** ** A concrete host for closed examples

    Dates are written as decimal epoch milliseconds and strings are compared
    by character code. *)

Fixpoint parseDigits (s : string) (acc : Z) : option Z :=
  match s with
  | EmptyString => Some acc
  | String c r =>
      if JsString.isDigit c
      then parseDigits r (10 * acc + (Z.of_nat (nat_of_ascii c) - 48))
      else None
  end.

Definition parseMillis (s : string) : option Z :=
  match s with
  | EmptyString => None
  | _ => parseDigits s 0
  end.

Definition compareCodes (a b : string) : Z :=
  match String.compare a b with
  | Lt => -1
  | Eq => 0
  | Gt => 1
  end.

Definition plainHost : Host :=
  {| Date_getTime := parseMillis; localeCompare := compareCodes |}.

(** ** Sample data for closed examples *)

Definition sampleRecord (key folder : string) (st : ProcurementStatus)
    (added : string) (stack : option Z) : Procurement :=
  {| id := key;
     prNumber := "PR-" +:+ key;
     description := "File " +:+ key;
     cabinetId := "C1";
     shelfId := "S1";
     folderId := folder;
     status := st;
     urgencyLevel := "low";
     dateAdded := added;
     stackNumber := stack;
     borrowedBy := None;
     division := None;
     borrowedDate := None;
     returnDate := None |}.

(** folder X with two archived records added on day 1 and day 2 *)
Definition day1Record : Procurement := sampleRecord "r1" "X" archived "86400000" None.
Definition day2Record : Procurement := sampleRecord "r2" "X" archived "172800000" None.

Definition noFilters : ProcurementFilters.t :=
  ProcurementFilters.mk "" "" "" "" "" "" "".

(** [n] archived records of folder X with ids [f0], [f1], ... *)
Definition sampleRecords (n : nat) : list Procurement :=
  (λ i : nat, sampleRecord ("f" +:+ pretty i) "X" archived "86400000" (Some (Z.of_nat i + 1)))
    <$> seq 0 n.

(** a borrowed record, which has no stack number, and the thousandth
    archived record of a folder *)
Definition borrowedRecord : Procurement := sampleRecord "b1" "X" active "86400000" None.
Definition thousandthRecord : Procurement :=
  sampleRecord "a1000" "X" archived "172800000" (Some 1000).

(** a session in which nothing has happened yet, on the given collections *)
Definition freshWorld (procurements : list Procurement) (users : list User.t)
    (modal : option BorrowEdit.t) : World :=
  {| store_procurements := procurements;
     store_users := users;
     calls := [];
     faults := [];
     toasts := [];
     clock := "2026-01-01T00:00:00.000Z";
     confirmReply := true;
     borrowEditModal := modal |}.

Definition sampleForm (address : string) : FormData.t :=
  FormData.mk "Valid User" address "Abc12345!" User.user User.active.

(** folder X with two numbered archived records, the first of which the
    user is about to mark as borrowed *)
Definition firstInStack : Procurement := sampleRecord "a1" "X" archived "86400000" (Some 1).
Definition secondInStack : Procurement := sampleRecord "a2" "X" archived "172800000" (Some 2).

Definition borrowingFirst : World :=
  freshWorld [firstInStack; secondInStack] []
    (Some (BorrowEdit.mk firstInStack "Ann" "Records")).

(** the primordial admin and an ordinary user *)
Definition mainAdmin : User.t :=
  User.mk "u0" "Administrator" "admin@gmail.com" "Admin123!" User.admin User.active.
Definition clerk : User.t :=
  User.mk "u1" "Clerk" "clerk@gmail.com" "Clerk123!" User.user User.active.

(** ** Record list: the state of the screen, its reset and the selection *)

(** the React state the list is computed from *)
Record ListState := mkListState {
  ls_filters : ProcurementFilters.t;
  ls_statusFilters : list ProcurementStatus;
  ls_sortField : SortField;
  ls_sortDirection : SortDirection;
  ls_currentPage : Z;
}.

(** [clearFilters] *)
Definition clearFilters (prev : ListState) : ListState :=
  {| ls_filters := ProcurementFilters.mk "" "" "" "" "" "" "";
     ls_statusFilters := [];
     ls_sortField := byDate;
     ls_sortDirection := asc;
     ls_currentPage := 1 |}.

(** the rows on screen: [paginatedProcurements] of [filteredProcurements] *)
Definition shownProcurements `{Host} (procurements : list Procurement)
    (st : ListState) : list Procurement :=
  paginatedProcurements
    (filteredProcurements procurements (ls_filters st) (ls_statusFilters st)
       (ls_sortField st) (ls_sortDirection st))
    (ls_currentPage st).

(** JavaScript [Set<string>]: members in insertion order *)
Module JsSet.
Definition add (x : string) (s : list string) : list string :=
  if bool_decide (x ∈ s) then s else s ++ [x].

(** [Array.from(new Set(l))] *)
Definition ofArray (l : list string) : list string :=
  foldl (λ s x, add x s) [] l.
End JsSet.

(** [handleSelectAll], as the update of [selectedIds] *)
Definition handleSelectAll (paginated : list Procurement) (checked : bool)
    (prev : list string) : list string :=
  if checked
  then
    let currentIds := id <$> paginated in
    JsSet.ofArray (prev ++ currentIds)
  else
    let currentIds := id <$> paginated in
    filter (λ i, i ∉ currentIds) prev.


(** the [checked] of the box in the table head *)
Definition selectAllChecked (paginated : list Procurement)
    (selectedIds : list string) : bool :=
  bool_decide (0 < length paginated)%nat &&
  forallb (λ p, bool_decide (p.(id) ∈ selectedIds)) paginated.

(** ** User list ([filteredUsers], [paginatedUsers]) *)

Global Instance UserRole_eq_dec : EqDecision User.Role.
Proof. solve_decision. Defined.
Global Instance UserStatus_eq_dec : EqDecision User.Status.
Proof. solve_decision. Defined.

(** [roleFilter] and [statusFilter] are ['all'] ([None]) or one value *)
Definition matchesUser (searchQuery : string) (roleFilter : option User.Role)
    (statusFilter : option User.Status) (u : User.t) : bool :=
  let matchesSearch :=
    JsString.includes (JsString.toLowerCase (User.name u)) (JsString.toLowerCase searchQuery) ||
    JsString.includes (JsString.toLowerCase (User.email u)) (JsString.toLowerCase searchQuery) in
  let matchesRole :=
    bool_decide (roleFilter = None) || bool_decide (Some (User.role u) = roleFilter) in
  let matchesStatus :=
    bool_decide (statusFilter = None) || bool_decide (Some (User.status u) = statusFilter) in
  matchesSearch && matchesRole && matchesStatus.

Definition filteredUsers (users : list User.t) (searchQuery : string)
    (roleFilter : option User.Role) (statusFilter : option User.Status) : list User.t :=
  filter (λ u, matchesUser searchQuery roleFilter statusFilter u = true) users.

Definition userItemsPerPage : Z := 10.

Definition totalUserPages (filtered : list User.t) : Z :=
  ceilDiv (Z.of_nat (length filtered)) userItemsPerPage.

Definition paginatedUsers (filtered : list User.t) (currentPage : Z) : list User.t :=
  JsArray.slice filtered ((currentPage - 1) * userItemsPerPage) (currentPage * userItemsPerPage).

(** ** Status change workflow ([handleStatusChange], [proceedStatusChange],
       [confirmReturnFile]) *)

(** the React state of the confirmation dialog *)
Record StatusDialog := mkStatusDialog {
  pendingStatusChange : option (Procurement * ProcurementStatus);
  isStatusConfirmOpen : bool;
}.

Definition handleStatusChange (procurement : Procurement)
    (newStatus : ProcurementStatus) (ui : StatusDialog) : StatusDialog :=
  {| pendingStatusChange := Some (procurement, newStatus);
     isStatusConfirmOpen := true |}.

(** [try { body } catch (error) { handler }] around a body with a result *)
Definition tryCatchWith {A} (body handler : M A) : M A :=
  λ w, match body w with
       | (Returned a, w') => (Returned a, w')
       | (Thrown, w') => handler w'
       end.

Section StatusChange.
Context `{Host}.

(** the result is the state of the confirmation dialog afterwards *)
Definition confirmReturnFile (procurements : list Procurement)
    (procurement : Procurement) (ui : StatusDialog) : M StatusDialog :=
  tryCatchWith
    (now ←' nowISOString;
     updateProcurement procurement.(id)
       (mkPatch (Some archived) None None None (Some now) None) ;;'
     updateStackNumbersForFolder procurements procurement.(folderId) ;;'
     toast (toast_success "File returned and marked as archived") ;;'
     ret {| pendingStatusChange := None; isStatusConfirmOpen := false |})
    (toast (toast_error "Failed to return file") ;;' ret ui).

Definition proceedStatusChange (procurements : list Procurement)
    (ui : StatusDialog) : M StatusDialog :=
  match pendingStatusChange ui with
  | None => ret ui
  | Some (procurement, newStatus) =>
      match newStatus with
      | active =>
          setBorrowEditModal
            (Some (BorrowEdit.mk procurement
                     (default "" procurement.(borrowedBy))
                     (default "" procurement.(division)))) ;;'
          ret {| pendingStatusChange := None; isStatusConfirmOpen := false |}
      | archived => confirmReturnFile procurements procurement ui
      end
  end.

End StatusChange.

(** the object of the first write of [confirmReturnFile] *)
Definition returnPatch (now : string) : ProcurementPatch :=
  mkPatch (Some archived) None None None (Some now) None.

(** ** Deleting records ([handleDeleteConfirm], [handleBulkDelete]) *)

(** the list screen: the world, the log of [deleteProcurement] calls and the
    React state of the selection and of the delete dialogs *)
Record ListScreen := mkListScreen {
  world : World;
  (** the id of every [deleteProcurement(id)] call, oldest first *)
  deleteCalls : list string;
  selectedIds : list string;
  deleteId : option string;
  isBulkDeleteDialogOpen : bool;
}.

Definition popFault (w : World) : World :=
  mkWorld (store_procurements w) (store_users w) (calls w) (tail (faults w))
          (toasts w) (clock w) (confirmReply w) (borrowEditModal w).

Definition onWorld (f : World → World) (s : ListScreen) : ListScreen :=
  mkListScreen (f (world s)) (deleteCalls s) (selectedIds s) (deleteId s)
               (isBulkDeleteDialogOpen s).

(** Modelled from the spec: [deleteProcurement] of [@/lib/storage], which is
    not part of the sources at hand: a point delete by id, "asynchronous and
    independently fallible". The result tells whether the request resolved;
    a request that rejects changes nothing in the store. *)
Definition deleteProcurement (key : string) (s : ListScreen) : bool * ListScreen :=
  let logged :=
    mkListScreen (popFault (world s)) (deleteCalls s ++ [key]) (selectedIds s)
                 (deleteId s) (isBulkDeleteDialogOpen s) in
  match faults (world s) with
  | true :: _ => (false, logged)
  | _ => (true, onWorld (with_procurements (filter (λ p, p.(id) ≠ key))) logged)
  end.

Definition handleDeleteConfirm (s : ListScreen) : ListScreen :=
  match deleteId s with
  | None => s
  | Some key =>
      if negb (JsString.truthy key) then s
      else
        match deleteProcurement key s with
        | (true, s1) =>
            let s2 := onWorld (addToast (toast_success "Record deleted successfully")) s1 in
            mkListScreen (world s2) (deleteCalls s2)
              (if bool_decide (key ∈ selectedIds s)
               then filter (λ i, i ≠ key) (selectedIds s2) else selectedIds s2)
              None (isBulkDeleteDialogOpen s2)
        | (false, s1) => onWorld (addToast (toast_error "Failed to delete record")) s1
        end
  end.

(** [Promise.all(ids.map(id => deleteProcurement(id)))]: [map] starts the
    requests in the order of the array, each settles on its own, and the
    promise resolves when all have resolved. Deletes of different records
    do not interfere, so the store after all have settled does not depend
    on the order in which they settle. *)
Fixpoint deleteEach (ids : list string) (s : ListScreen) : bool * ListScreen :=
  match ids with
  | [] => (true, s)
  | key :: rest =>
      let '(ok, s1) := deleteProcurement key s in
      let '(oks, s2) := deleteEach rest s1 in
      (ok && oks, s2)
  end.

Definition handleBulkDelete (s : ListScreen) : ListScreen :=
  if bool_decide (length (selectedIds s) = 0%nat) then s
  else
    match deleteEach (selectedIds s) s with
    | (true, s1) =>
        let s2 :=
          onWorld (addToast (toast_success
                     (pretty (length (selectedIds s)) +:+ " records deleted successfully")))
                  s1 in
        mkListScreen (world s2) (deleteCalls s2) [] (deleteId s2) false
    | (false, s1) => onWorld (addToast (toast_error "Failed to delete some records")) s1
    end.

(** ** Editing a user ([openEdit], [resetForm], [handleEditUser]) *)

(** the React state of the edit dialog of [UserManagement] *)
Record UserDialog := mkUserDialog {
  isEditOpen : bool;
  selectedUser : option User.t;
  formData : FormData.t;
}.

Definition resetForm (ui : UserDialog) : UserDialog :=
  {| isEditOpen := isEditOpen ui;
     selectedUser := None;
     formData := FormData.mk "" "" "" User.user User.active |}.

Definition openEdit (user : User.t) (ui : UserDialog) : UserDialog :=
  {| isEditOpen := true;
     selectedUser := Some user;
     formData := FormData.mk (User.name user) (User.email user) (User.password user)
                   (User.role user) (User.status user) |}.

(** the four controls of the edit dialog: the inputs for name, address and
    password and the role menu; the dialog has none for the status *)
Inductive FormControl :=
  | nameInput (value : string)
  | emailInput (value : string)
  | passwordInput (value : string)
  | roleSelect (value : User.Role).

(** [setFormData({ ...formData, field: value })], the handler of each
    control *)
Definition onFormChange (c : FormControl) (ui : UserDialog) : UserDialog :=
  let data := formData ui in
  {| isEditOpen := isEditOpen ui;
     selectedUser := selectedUser ui;
     formData :=
       match c with
       | nameInput v =>
           FormData.mk v (FormData.email data) (FormData.password data)
                       (FormData.role data) (FormData.status data)
       | emailInput v =>
           FormData.mk (FormData.name data) v (FormData.password data)
                       (FormData.role data) (FormData.status data)
       | passwordInput v =>
           FormData.mk (FormData.name data) (FormData.email data) v
                       (FormData.role data) (FormData.status data)
       | roleSelect v =>
           FormData.mk (FormData.name data) (FormData.email data)
                       (FormData.password data) v (FormData.status data)
       end |}.

(** the dialog after the edit button of a row and a run of changes in its
    controls *)
Definition editSession (user : User.t) (changes : list FormControl)
    (ui : UserDialog) : UserDialog :=
  foldl (λ u c, onFormChange c u) (openEdit user ui) changes.

(** the object [handleEditUser] hands to [updateUser] *)
Definition formPatch (data : FormData.t) : User.Patch :=
  User.mkPatch (Some (FormData.name data)) (Some (FormData.email data))
               (Some (FormData.password data)) (Some (FormData.role data))
               (Some (FormData.status data)).

(** the result is the state of the dialog afterwards *)
Definition handleEditUser (ui : UserDialog) : M UserDialog :=
  match selectedUser ui with
  | None => ret ui
  | Some sel =>
      ok ←' validateUser (formData ui);
      if (ok : bool)
      then
        tryCatchWith
          (updateUser (User.id sel) (formPatch (formData ui)) ;;'
           toast (toast_success "User updated successfully") ;;'
           ret (resetForm (mkUserDialog false (selectedUser ui) (formData ui))))
          (toast (toast_error "Failed to update user") ;;' ret ui)
      else ret ui
  end.

(** ** Adding a record ([AddProcurement]: stack number preview, [handleSubmit]) *)

(** the form state of the first [AddProcurement] screen; [date] is the
    chosen day as [date.toISOString()], [None] when no day is chosen *)
Module AddForm.
Record t := mk {
  prNumber : string;
  description : string;
  shelfId : string;
  cabinetId : string;
  folderId : string;
  status : ProcurementStatus;
  date : option string;
}.
End AddForm.

(** the object [procurementData] handed to [addProcurement] (its [tags] are
    always the empty array) *)
Record ProcurementData := mkProcurementData {
  d_prNumber : string;
  d_description : string;
  d_cabinetId : string;
  d_shelfId : string;
  d_folderId : string;
  d_status : ProcurementStatus;
  d_urgencyLevel : string;
  d_dateAdded : string;
}.

(** the add screen: the world, the log of [addProcurement] calls, what the
    store answers ([newId]: the id it gives the next record;
    [rejectionMessage]: the [message] of the error of a rejected call),
    the signed-in user and the React state *)
Record AddScreen := mkAddScreen {
  a_world : World;
  addCalls : list (ProcurementData * string * string);
  newId : string;
  rejectionMessage : string;
  currentUser : option User.t;
  isLoading : bool;
  navigatedTo : option string;
}.

Definition onAddWorld (f : World → World) (s : AddScreen) : AddScreen :=
  mkAddScreen (f (a_world s)) (addCalls s) (newId s) (rejectionMessage s)
              (currentUser s) (isLoading s) (navigatedTo s).

Definition setIsLoading (b : bool) (s : AddScreen) : AddScreen :=
  mkAddScreen (a_world s) (addCalls s) (newId s) (rejectionMessage s)
              (currentUser s) b (navigatedTo s).

Definition navigate (path : string) (s : AddScreen) : AddScreen :=
  mkAddScreen (a_world s) (addCalls s) (newId s) (rejectionMessage s)
              (currentUser s) (isLoading s) (Some path).

Definition createdRecord (key : string) (data : ProcurementData) : Procurement :=
  {| id := key;
     prNumber := d_prNumber data;
     description := d_description data;
     cabinetId := d_cabinetId data;
     shelfId := d_shelfId data;
     folderId := d_folderId data;
     status := d_status data;
     urgencyLevel := d_urgencyLevel data;
     dateAdded := d_dateAdded data;
     stackNumber := None;
     borrowedBy := None;
     division := None;
     borrowedDate := None;
     returnDate := None |}.

(** Modelled from the spec: [addProcurement] of [@/lib/storage], which is
    not part of the sources at hand: a point create, "asynchronous and
    independently fallible", that answers with the stored record, the
    fields of [data] under a new id. *)
Definition addProcurement (data : ProcurementData) (createdBy createdByName : string)
    (s : AddScreen) : option Procurement * AddScreen :=
  let logged :=
    mkAddScreen (popFault (a_world s)) (addCalls s ++ [(data, createdBy, createdByName)])
                (newId s) (rejectionMessage s) (currentUser s) (isLoading s)
                (navigatedTo s) in
  match faults (a_world s) with
  | true :: _ => (None, logged)
  | _ =>
      let created := createdRecord (newId s) data in
      (Some created, onAddWorld (with_procurements (λ l, (l ++ [created])%list)) logged)
  end.

(** [x || fallback] on strings *)
Definition orString (x fallback : string) : string :=
  if JsString.truthy x then x else fallback.

Section AddProcurement.
Context `{Host}.

(** the effect that keeps [previewStackNumber] up to date *)
Definition previewStackNumber (procurements : list Procurement)
    (folder : string) (st : ProcurementStatus) : option Z :=
  if JsString.truthy folder && bool_decide (st = archived)
  then
    let archivedInFolder :=
      filter (λ p, p.(folderId) = folder ∧ p.(status) = archived) procurements in
    Some (Z.of_nat (length archivedInFolder) + 1)
  else None.

(** [catch (error) { toast.error(error.message || ...) } finally { ... }] *)
Definition submitFailed (s : AddScreen) : AddScreen :=
  setIsLoading false
    (onAddWorld
       (addToast (toast_error (orString (rejectionMessage s) "Failed to add file record")))
       s).

Definition submitDone (s : AddScreen) : AddScreen :=
  setIsLoading false
    (navigate "/dashboard"
       (onAddWorld (addToast (toast_success "File record added successfully")) s)).

(** [procurements] is the array the data provider handed to the render *)
Definition handleSubmit (procurements : list Procurement) (form : AddForm.t)
    (s : AddScreen) : AddScreen :=
  if negb (JsString.truthy (AddForm.prNumber form)) ||
     negb (JsString.truthy (AddForm.description form)) ||
     negb (JsString.truthy (AddForm.shelfId form)) ||
     negb (JsString.truthy (AddForm.cabinetId form)) ||
     negb (JsString.truthy (AddForm.folderId form))
  then onAddWorld (addToast (toast_error "Please fill in all required fields")) s
  else
    let s0 := setIsLoading true s in
    let procurementData :=
      {| d_prNumber := AddForm.prNumber form;
         d_description := AddForm.description form;
         d_cabinetId := AddForm.shelfId form;
         d_shelfId := AddForm.cabinetId form;
         d_folderId := AddForm.folderId form;
         d_status := AddForm.status form;
         d_urgencyLevel := "medium";
         d_dateAdded := default (clock (a_world s0)) (AddForm.date form) |} in
    match addProcurement procurementData
            (orString (from_option User.email "" (currentUser s0)) "unknown@example.com")
            (orString (from_option User.name "" (currentUser s0)) "Unknown User") s0 with
    | (None, s1) => submitFailed s1
    | (Some newProcurement, s1) =>
        match AddForm.status form with
        | archived =>
            let filesInFolder :=
              JsArray.sort dateDiff
                (filter (λ p, p.(folderId) = AddForm.folderId form ∧ p.(status) = archived)
                        procurements) in
            let stackNumber := Z.of_nat (length filesInFolder) + 1 in
            match updateProcurement newProcurement.(id) (stackPatch (Some stackNumber))
                    (a_world s1) with
            | (Returned _, w2) => submitDone (onAddWorld (λ _, w2) s1)
            | (Thrown, w2) => submitFailed (onAddWorld (λ _, w2) s1)
            end
        | active => submitDone s1
        end
    end.

End AddProcurement.

(** the record [handleSubmit] asks the store to create *)
Definition submittedData (form : AddForm.t) (now : string) : ProcurementData :=
  {| d_prNumber := AddForm.prNumber form;
     d_description := AddForm.description form;
     d_cabinetId := AddForm.shelfId form;
     d_shelfId := AddForm.cabinetId form;
     d_folderId := AddForm.folderId form;
     d_status := AddForm.status form;
     d_urgencyLevel := "medium";
     d_dateAdded := default now (AddForm.date form) |}.

(** ** PR number input of the second add screen ([handlePRNumberChange]) *)

(** further JavaScript string operations *)
Module JsStringMore.

Definition isLower (c : ascii) : bool :=
  let n := nat_of_ascii c in (97 <=? n)%nat && (n <=? 122)%nat.

Definition toUpperChar (c : ascii) : ascii :=
  if isLower c then ascii_of_nat (nat_of_ascii c - 32) else c.

(** [s.toUpperCase()] on text of ASCII characters. The two characters
    outside ASCII whose upper case is an ASCII letter (the long s and the
    dotless i) are not modelled: a byte above 127 is left as it is. *)
Fixpoint toUpperCase (s : string) : string :=
  match s with
  | EmptyString => EmptyString
  | String c r => String (toUpperChar c) (toUpperCase r)
  end.

(** [s.replace(/[class]/g, '')] for a regex that is one character class *)
Fixpoint removeAll (class : ascii → bool) (s : string) : string :=
  match s with
  | EmptyString => EmptyString
  | String c r => if class c then removeAll class r else String c (removeAll class r)
  end.

(** [s.substring(a, b)] *)
Definition substring (s : string) (a b : nat) : string :=
  let lo := Nat.min a b in
  let hi := Nat.max a b in
  String.string_of_list_ascii (take (hi - lo) (drop lo (String.list_ascii_of_string s))).

(** text of ASCII characters, on which [JsString.toLowerCase] and
    [toUpperCase] are the functions of JavaScript *)
Fixpoint isAscii (s : string) : bool :=
  match s with
  | EmptyString => true
  | String c r => (nat_of_ascii c <? 128)%nat && isAscii r
  end.

End JsStringMore.

(** the characters the input keeps: [[A-Z0-9-]] *)
Definition prAllowed (c : ascii) : bool :=
  JsString.isUpper c || JsString.isDigit c || bool_decide (c = "-"%char).

(** the new value of [prNumber] for the text in the input field *)
Definition handlePRNumberChange (typed : string) : string :=
  let value :=
    JsStringMore.removeAll (λ c, negb (prAllowed c)) (JsStringMore.toUpperCase typed) in
  let rawValue := JsStringMore.removeAll (λ c, bool_decide (c = "-"%char)) value in
  let formattedValue := "" in
  let formattedValue :=
    if (0 <? String.length rawValue)%nat
    then JsStringMore.substring rawValue 0 3 else formattedValue in
  let formattedValue :=
    if (3 <? String.length rawValue)%nat
    then formattedValue +:+ "-" +:+ JsStringMore.substring rawValue 3 6
    else formattedValue in
  let formattedValue :=
    if (6 <? String.length rawValue)%nat
    then formattedValue +:+ "-" +:+ JsStringMore.substring rawValue 6 8
    else formattedValue in
  let formattedValue :=
    if (8 <? String.length rawValue)%nat
    then formattedValue +:+ "-" +:+ JsStringMore.substring rawValue 8 11
    else formattedValue in
  let formattedValue :=
    if (14 <? String.length formattedValue)%nat
    then JsStringMore.substring formattedValue 0 14 else formattedValue in
  formattedValue.

(** the letters and digits of the typed text, upper case, hyphens left out:
    [rawValue] *)
Definition prRawValue (typed : string) : string :=
  JsStringMore.removeAll (λ c, bool_decide (c = "-"%char))
    (JsStringMore.removeAll (λ c, negb (prAllowed c)) (JsStringMore.toUpperCase typed)).

(** the groups of the PR number pattern, on the characters of [rawValue] *)
Definition prGroups (r : list ascii) : list ascii :=
  take 3 r
  ++ (if (3 <? length r)%nat then "-"%char :: take 3 (drop 3 r) else [])
  ++ (if (6 <? length r)%nat then "-"%char :: take 2 (drop 6 r) else [])
  ++ (if (8 <? length r)%nat then "-"%char :: take 3 (drop 8 r) else []).

(** * Visual allocation screen ([VisualAllocation.tsx]) *)

(** Modelled from the spec: the types [Cabinet], [Shelf] and [Folder] of
    [@/types/procurement], whose declarations are not among the sources, with
    the fields of the specification's hierarchy entities that this screen
    reads, under the names the code uses. The screen casts the [shelves] of
    the data context to [Cabinet[]] and its [cabinets] to [Shelf[]]: a [Shelf]
    names the unit above it in [cabinetId], a [Folder] in [shelfId]. *)
Module Cabinet.
Record t := mk { id : string; code : string; name : string }.
End Cabinet.

Module Shelf.
Record t := mk { id : string; cabinetId : string; code : string; name : string }.
End Shelf.

Module Folder.
Record t := mk { id : string; shelfId : string; code : string; name : string }.
End Folder.

(** what [useData()] hands to the screen *)
Module AllocationData.
Record t := mk {
  shelves : list Cabinet.t;
  cabinets : list Shelf.t;
  folders : list Folder.t;
  procurements : list Procurement;
}.
End AllocationData.

Module ViewMode.
Inductive t := shelves | cabinets | folders | files.
End ViewMode.

Global Instance ViewMode_eq_dec : EqDecision ViewMode.t.
Proof. solve_decision. Defined.

(** the view state of the component; [null] is [None] *)
Record NavState := mkNavState {
  viewMode : ViewMode.t;
  selectedShelfId : option string;
  selectedCabinetId : option string;
  selectedFolderId : option string;
  selectedFile : option Procurement;
}.

(** the initial values of the five [useState] calls *)
Definition initialNav : NavState := mkNavState ViewMode.shelves None None None None.

(** [getCabinetsForShelf], [getFoldersForCabinet], [getFilesForFolder]. The
    views call them with [selectedShelfId!] and the like, which is the state
    as it is, [null] included; [===] of a string and [null] is false. *)
Definition getCabinetsForShelf (data : AllocationData.t) (shelfId : option string)
  : list Shelf.t :=
  filter (λ c, Some (Shelf.cabinetId c) = shelfId) (AllocationData.cabinets data).

Definition getFoldersForCabinet (data : AllocationData.t) (cabinetId : option string)
  : list Folder.t :=
  filter (λ f, Some (Folder.shelfId f) = cabinetId) (AllocationData.folders data).

Definition getFilesForFolder (data : AllocationData.t) (folder : option string)
  : list Procurement :=
  filter (λ p, Some (folderId p) = folder) (AllocationData.procurements data).

(** [currentShelf], [currentCabinet], [currentFolder]: [find] gives the first
    entry with the selected id, or [undefined] *)
Definition currentShelf (data : AllocationData.t) (n : NavState) : option Cabinet.t :=
  find (λ s, bool_decide (Some (Cabinet.id s) = selectedShelfId n))
       (AllocationData.shelves data).

Definition currentCabinet (data : AllocationData.t) (n : NavState) : option Shelf.t :=
  find (λ c, bool_decide (Some (Shelf.id c) = selectedCabinetId n))
       (AllocationData.cabinets data).

Definition currentFolder (data : AllocationData.t) (n : NavState) : option Folder.t :=
  find (λ f, bool_decide (Some (Folder.id f) = selectedFolderId n))
       (AllocationData.folders data).

Definition handleSelectShelf (shelfId : string) (n : NavState) : NavState :=
  {| viewMode := ViewMode.cabinets;
     selectedShelfId := Some shelfId;
     selectedCabinetId := selectedCabinetId n;
     selectedFolderId := selectedFolderId n;
     selectedFile := selectedFile n |}.

Definition handleSelectCabinet (cabinetId : string) (n : NavState) : NavState :=
  {| viewMode := ViewMode.folders;
     selectedShelfId := selectedShelfId n;
     selectedCabinetId := Some cabinetId;
     selectedFolderId := selectedFolderId n;
     selectedFile := selectedFile n |}.

Definition handleSelectFolder (folderId : string) (n : NavState) : NavState :=
  {| viewMode := ViewMode.files;
     selectedShelfId := selectedShelfId n;
     selectedCabinetId := selectedCabinetId n;
     selectedFolderId := Some folderId;
     selectedFile := selectedFile n |}.

Definition handleSelectFile (file : Procurement) (n : NavState) : NavState :=
  {| viewMode := viewMode n;
     selectedShelfId := selectedShelfId n;
     selectedCabinetId := selectedCabinetId n;
     selectedFolderId := selectedFolderId n;
     selectedFile := Some file |}.

Definition goBack (n : NavState) : NavState :=
  match viewMode n with
  | ViewMode.files =>
      {| viewMode := ViewMode.folders;
         selectedShelfId := selectedShelfId n;
         selectedCabinetId := selectedCabinetId n;
         selectedFolderId := None;
         selectedFile := selectedFile n |}
  | ViewMode.folders =>
      {| viewMode := ViewMode.cabinets;
         selectedShelfId := selectedShelfId n;
         selectedCabinetId := None;
         selectedFolderId := selectedFolderId n;
         selectedFile := selectedFile n |}
  | ViewMode.cabinets =>
      {| viewMode := ViewMode.shelves;
         selectedShelfId := None;
         selectedCabinetId := selectedCabinetId n;
         selectedFolderId := selectedFolderId n;
         selectedFile := selectedFile n |}
  | ViewMode.shelves => n
  end.

(** the controls of the screen that carry a handler *)
Inductive Click :=
  | shelfCard (shelf : Cabinet.t)
  | cabinetCard (cabinet : Shelf.t)
  | folderCard (folder : Folder.t)
  | fileCard (file : Procurement)
  | upOneLevel
  | storageCrumb
  | shelfCrumb
  | cabinetCrumb
  | dialogClose.

(** the handler of each control: the named handlers, and the arrow functions
    written in place at the three breadcrumb buttons and at the dialog's
    [onOpenChange] *)
Definition onClick (c : Click) (n : NavState) : NavState :=
  match c with
  | shelfCard shelf => handleSelectShelf (Cabinet.id shelf) n
  | cabinetCard cabinet => handleSelectCabinet (Shelf.id cabinet) n
  | folderCard folder => handleSelectFolder (Folder.id folder) n
  | fileCard file => handleSelectFile file n
  | upOneLevel => goBack n
  | storageCrumb =>
      {| viewMode := ViewMode.shelves;
         selectedShelfId := None;
         selectedCabinetId := None;
         selectedFolderId := None;
         selectedFile := selectedFile n |}
  | shelfCrumb =>
      {| viewMode := ViewMode.cabinets;
         selectedShelfId := selectedShelfId n;
         selectedCabinetId := None;
         selectedFolderId := None;
         selectedFile := selectedFile n |}
  | cabinetCrumb =>
      {| viewMode := ViewMode.folders;
         selectedShelfId := selectedShelfId n;
         selectedCabinetId := selectedCabinetId n;
         selectedFolderId := None;
         selectedFile := selectedFile n |}
  | dialogClose =>
      {| viewMode := viewMode n;
         selectedShelfId := selectedShelfId n;
         selectedCabinetId := selectedCabinetId n;
         selectedFolderId := selectedFolderId n;
         selectedFile := None |}
  end.

(** truthiness of a selected id: set and not the empty string *)
Definition truthyId (o : option string) : bool :=
  match o with
  | Some s => JsString.truthy s
  | None => false
  end.

(** the controls the JSX puts on the screen in a state: the cards of the
    block of the current [viewMode], the button Up One Level outside the
    shelves view, the STORAGE crumb always, the two other crumb buttons when
    the id they stand for is truthy *)
Definition rendered (data : AllocationData.t) (n : NavState) (c : Click) : Prop :=
  match c with
  | shelfCard shelf =>
      viewMode n = ViewMode.shelves ∧ shelf ∈ AllocationData.shelves data
  | cabinetCard cabinet =>
      viewMode n = ViewMode.cabinets
      ∧ cabinet ∈ getCabinetsForShelf data (selectedShelfId n)
  | folderCard folder =>
      viewMode n = ViewMode.folders
      ∧ folder ∈ getFoldersForCabinet data (selectedCabinetId n)
  | fileCard file =>
      viewMode n = ViewMode.files
      ∧ file ∈ getFilesForFolder data (selectedFolderId n)
  | upOneLevel => viewMode n ≠ ViewMode.shelves
  | storageCrumb => True
  | shelfCrumb => truthyId (selectedShelfId n) = true
  | cabinetCrumb => truthyId (selectedCabinetId n) = true
  | dialogClose => True
  end.

(** the states the screen gets into: from the initial state by clicks on
    controls that are on the screen. The collections may be replaced between
    two clicks by any snapshot that [source] admits. *)
Inductive reachable (source : AllocationData.t → Prop) : NavState → Prop :=
  | reachable_initial : reachable source initialNav
  | reachable_click data n c :
      source data → reachable source n → rendered data n c →
      reachable source (onClick c n).

(** the selections that are set are those above the current view *)
Definition levelsMatch (n : NavState) : Prop :=
  match viewMode n with
  | ViewMode.shelves =>
      selectedShelfId n = None ∧ selectedCabinetId n = None ∧ selectedFolderId n = None
  | ViewMode.cabinets =>
      is_Some (selectedShelfId n) ∧ selectedCabinetId n = None
      ∧ selectedFolderId n = None
  | ViewMode.folders =>
      is_Some (selectedShelfId n) ∧ is_Some (selectedCabinetId n)
      ∧ selectedFolderId n = None
  | ViewMode.files =>
      is_Some (selectedShelfId n) ∧ is_Some (selectedCabinetId n)
      ∧ is_Some (selectedFolderId n)
  end.

(** a shelf with one cabinet, which has one folder with the two sample
    records *)
Definition sampleAllocation : AllocationData.t :=
  AllocationData.mk
    [Cabinet.mk "S1" "S1" "Shelf 1"]
    [Shelf.mk "C1" "S1" "C1" "Cabinet 1"]
    [Folder.mk "X" "C1" "F1" "Folder 1"]
    [day1Record; day2Record].

(** the other status, as [toggleStatus] picks it *)
Definition otherStatus (s : User.Status) : User.Status :=
  match s with
  | User.active => User.inactive
  | User.inactive => User.active
  end.

(** a user with the status replaced *)
Definition withStatus (s : User.Status) (u : User.t) : User.t :=
  User.mk (User.id u) (User.name u) (User.email u) (User.password u) (User.role u) s.

(** * Properties *)

(** ** Facts about the JavaScript library model *)

Module JsArrayFacts.
Import JsArray.

Section sort.
Context {A : Type} (comparefn : A → A → option Z).

Lemma insert_perm (x : A) (l : list A) : insert comparefn x l ≡ₚ x :: l.
Proof.
  induction l as [|y r IH]; simpl; [done|].
  destruct (order comparefn x y <=? 0); [done|].
  rewrite IH. apply Permutation_swap.
Qed.

Lemma sort_perm (l : list A) : sort comparefn l ≡ₚ l.
Proof.
  induction l as [|x l IH]; simpl; [done|].
  rewrite insert_perm. by f_equiv.
Qed.

Lemma sort_elem_of (l : list A) (x : A) : x ∈ sort comparefn l ↔ x ∈ l.
Proof. by rewrite sort_perm. Qed.

Lemma sort_length (l : list A) : length (sort comparefn l) = length l.
Proof. by rewrite sort_perm. Qed.

(** When the comparator is the difference of an integer key on the
    elements at hand, the result is ordered by that key. *)
Section keyed.
Context (key : A → Z).

Lemma insert_sorted (x : A) (l : list A) :
  (∀ y, y ∈ l → order comparefn x y = key x - key y) →
  StronglySorted (λ a b, key a ≤ key b) l →
  StronglySorted (λ a b, key a ≤ key b) (insert comparefn x l).
Proof.
  induction l as [|y r IH]; intros Hk Hs; simpl.
  - repeat constructor.
  - apply StronglySorted_inv in Hs as [Hr Hy].
    assert (order comparefn x y = key x - key y) as Hxy
      by (apply Hk; left).
    destruct (Z.leb_spec (order comparefn x y) 0) as [Hle|Hgt].
    + constructor; [by constructor|].
      constructor; [lia|].
      eapply Forall_impl; [exact Hy|]. simpl. intros; lia.
    + constructor.
      * apply IH; [|done]. intros z Hz. apply Hk. by right.
      * rewrite insert_perm. constructor; [lia|done].
Qed.

Lemma sort_sorted (l : list A) :
  (∀ x y, x ∈ l → y ∈ l → order comparefn x y = key x - key y) →
  StronglySorted (λ a b, key a ≤ key b) (sort comparefn l).
Proof.
  induction l as [|x l IH]; intros Hk; simpl.
  - constructor.
  - apply insert_sorted.
    + intros y Hy. rewrite sort_elem_of in Hy.
      apply Hk; [left | by right].
    + apply IH. intros a b Ha Hb. apply Hk; by right.
Qed.
End keyed.
End sort.

(** In a list ordered by a key, an element with a strictly smaller key
    stands at a smaller index. *)
Lemma sorted_lookup_lt {A} (key : A → Z) (l : list A) (i j : nat) (a b : A) :
  StronglySorted (λ x y, key x ≤ key y) l →
  l !! i = Some a → l !! j = Some b → key a < key b → (i < j)%nat.
Proof.
  intros Hs. revert i j. induction Hs as [|x l Hs IH Hall]; intros i j Hi Hj Hlt.
  - by rewrite lookup_nil in Hi.
  - destruct i as [|i], j as [|j]; simpl in *.
    + simplify_eq. lia.
    + lia.
    + simplify_eq.
      rewrite Forall_forall in Hall.
      assert (key b ≤ key a) by (apply Hall; by eapply list_elem_of_lookup_2).
      lia.
    + apply ->Nat.succ_lt_mono. by eapply IH.
Qed.

Lemma slice_past_end {A} (l : list A) (start end_ : Z) :
  Z.of_nat (length l) ≤ start → slice l start end_ = [].
Proof.
  intros Hs. unfold slice, relIndex. cbv zeta.
  destruct (Z.ltb_spec start 0) as [?|_]; [lia|].
  rewrite (Z.min_r start) by lia.
  rewrite drop_ge by lia. by rewrite take_nil.
Qed.

Lemma slice_in_range {A} (l : list A) (start end_ : Z) :
  0 ≤ start ≤ end_ →
  slice l start end_ = take (Z.to_nat (end_ - start)) (drop (Z.to_nat start) l).
Proof.
  intros Hr. unfold slice, relIndex. cbv zeta.
  destruct (Z.ltb_spec start 0) as [?|_]; [lia|].
  destruct (Z.ltb_spec end_ 0) as [?|_]; [lia|].
  destruct (Z.le_gt_cases start (Z.of_nat (length l))) as [Hle|Hgt].
  - rewrite (Z.min_l start) by done.
    destruct (Z.le_gt_cases end_ (Z.of_nat (length l))) as [Hle'|Hgt'].
    + by rewrite Z.min_l.
    + rewrite Z.min_r by lia.
      rewrite !take_ge; [done| |]; rewrite length_drop; lia.
  - rewrite !Z.min_r by lia.
    rewrite !drop_ge by lia. by rewrite !take_nil.
Qed.
End JsArrayFacts.

Module JsMapFacts.
Import JsMap.

Lemma get_set_eq {V} (k : string) (v : V) (m : t V) : get k (set k v m) = Some v.
Proof.
  induction m as [|[k' v'] r IH]; simpl.
  - by rewrite bool_decide_eq_true_2.
  - destruct (decide (k' = k)) as [->|Hne].
    + rewrite bool_decide_eq_true_2 by done. simpl.
      by rewrite bool_decide_eq_true_2.
    + rewrite bool_decide_eq_false_2 by done. simpl.
      by rewrite bool_decide_eq_false_2.
Qed.

Lemma get_set_ne {V} (k k0 : string) (v : V) (m : t V) :
  k ≠ k0 → get k0 (set k v m) = get k0 m.
Proof.
  intros Hne. induction m as [|[k' v'] r IH]; simpl.
  - by rewrite bool_decide_eq_false_2.
  - destruct (decide (k' = k)) as [->|Hne'].
    + rewrite bool_decide_eq_true_2 by done. simpl.
      by rewrite bool_decide_eq_false_2.
    + rewrite bool_decide_eq_false_2 by done. simpl.
      by rewrite IH.
Qed.

Lemma get_is_Some {V} (k : string) (m : t V) : is_Some (get k m) ↔ k ∈ keys m.
Proof.
  unfold keys. induction m as [|[k' v'] r IH]; simpl.
  - rewrite elem_of_nil. split; [by intros [? ?]|done].
  - rewrite elem_of_cons. destruct (decide (k' = k)) as [->|Hne].
    + rewrite bool_decide_eq_true_2 by done. split; [by left|by eexists].
    + rewrite bool_decide_eq_false_2 by done. rewrite IH.
      split; [by right | by intros [->|?]].
Qed.

Lemma keys_set {V} (k k0 : string) (v : V) (m : t V) :
  k0 ∈ keys (set k v m) ↔ k0 = k ∨ k0 ∈ keys m.
Proof.
  rewrite <-!get_is_Some. destruct (decide (k = k0)) as [->|Hne].
  - rewrite get_set_eq. split; [by left|by eexists].
  - rewrite get_set_ne by done.
    split; [by right | by intros [->|?]].
Qed.

(** every key of a map built by [set] occurs once *)
Lemma keys_set_NoDup {V} (k : string) (v : V) (m : t V) :
  NoDup (keys m) → NoDup (keys (set k v m)).
Proof.
  unfold keys. induction m as [|[k' v'] r IH]; simpl; intros Hnd.
  - apply NoDup_singleton.
  - apply NoDup_cons in Hnd as [Hnotin Hnd].
    destruct (decide (k' = k)) as [->|Hne].
    + rewrite bool_decide_eq_true_2 by done. simpl. by constructor.
    + rewrite bool_decide_eq_false_2 by done. simpl. constructor; [|by apply IH].
      intros Hin. apply (keys_set k k' v r) in Hin as [->|Hin]; done.
Qed.
End JsMapFacts.

(** ** Stack numbering *)

Section StackNumberFacts.
Context `{Host}.

Lemma forEachSet_snoc (l : list Procurement) (p : Procurement) (i : Z)
    (m : JsMap.t Z) :
  forEachSet (l ++ [p]) i m =
  JsMap.set p.(id) (i + Z.of_nat (length l) + 1) (forEachSet l i m).
Proof.
  revert i m. induction l as [|x l IH]; intros i m; simpl.
  - f_equal. lia.
  - rewrite IH. f_equal. lia.
Qed.

Lemma forEachSet_keys (l : list Procurement) (k : string) :
  k ∈ JsMap.keys (forEachSet l 0 JsMap.empty) ↔ k ∈ id <$> l.
Proof.
  induction l as [|p l IH] using rev_ind.
  - simpl. by rewrite !elem_of_nil.
  - rewrite forEachSet_snoc, JsMapFacts.keys_set, IH, fmap_app, elem_of_app.
    simpl. rewrite list_elem_of_singleton. tauto.
Qed.

(** the entry of an id is the position of its last record *)
Lemma forEachSet_get (l : list Procurement) (i : nat) (p : Procurement) :
  l !! i = Some p →
  (∀ j q, (i < j)%nat → l !! j = Some q → q.(id) ≠ p.(id)) →
  JsMap.get p.(id) (forEachSet l 0 JsMap.empty) = Some (Z.of_nat i + 1).
Proof.
  revert i p. induction l as [|x l IH] using rev_ind; intros i p Hi Hlast.
  - by rewrite lookup_nil in Hi.
  - rewrite forEachSet_snoc.
    destruct (decide (i = length l)) as [->|Hne].
    + rewrite list_lookup_middle in Hi by done. simplify_eq.
      rewrite JsMapFacts.get_set_eq. f_equal; lia.
    + assert (i < length l)%nat as Hlt.
      { apply lookup_lt_Some in Hi. rewrite length_app in Hi. simpl in Hi. lia. }
      rewrite lookup_app_l in Hi by done.
      rewrite JsMapFacts.get_set_ne.
      * apply IH; [done|]. intros j q Hij Hj.
        apply (Hlast j q Hij). by apply lookup_app_l_Some.
      * apply (Hlast (length l) x Hlt). by apply list_lookup_middle.
Qed.

Lemma availableInFolder_perm (procurements : list Procurement) (folder : string) :
  availableInFolder procurements folder ≡ₚ
  filter (λ p, p.(folderId) = folder ∧ p.(status) = archived) procurements.
Proof. apply JsArrayFacts.sort_perm. Qed.

Lemma availableInFolder_NoDup (procurements : list Procurement) (folder : string) :
  NoDup (id <$> procurements) →
  NoDup (id <$> availableInFolder procurements folder).
Proof.
  intros Hnd. rewrite availableInFolder_perm.
  eapply sublist_NoDup; [exact Hnd|].
  apply fmap_sublist, sublist_filter.
Qed.

Lemma stackCompare_both (a b : Procurement) (sa sb : Z) :
  a.(stackNumber) = Some sa → b.(stackNumber) = Some sb →
  sa ≠ 0 → sb ≠ 0 → stackCompare a b = Some (sa - sb).
Proof.
  intros Ha Hb Hsa Hsb. unfold stackCompare. rewrite Ha, Hb. simpl.
  destruct (Z.eqb_spec sa 0), (Z.eqb_spec sb 0); done.
Qed.

Lemma stackCompare_date (a b : Procurement) :
  truthyNum a.(stackNumber) = false ∨ truthyNum b.(stackNumber) = false →
  stackCompare a b = dateDiff a b.
Proof.
  unfold stackCompare. by intros [-> | ->]; [|rewrite andb_false_r].
Qed.

Lemma dateDiff_valid (a b : Procurement) (ta tb : Z) :
  Date_getTime a.(dateAdded) = Some ta →
  Date_getTime b.(dateAdded) = Some tb →
  dateDiff a b = Some (ta - tb).
Proof. intros Ha Hb. unfold dateDiff. by rewrite Ha, Hb. Qed.

Lemma availableInFolder_by_stack (procurements : list Procurement) (folder : string) :
  (∀ p, p ∈ availableInFolder procurements folder →
        truthyNum p.(stackNumber) = true) →
  StronglySorted (λ a b, default 0 a.(stackNumber) ≤ default 0 b.(stackNumber))
    (availableInFolder procurements folder).
Proof.
  intros Hall. apply (JsArrayFacts.sort_sorted _ (λ p, default 0 p.(stackNumber))).
  intros a b Ha Hb.
  assert (truthyNum a.(stackNumber) = true) as Hta
    by (apply Hall; by apply JsArrayFacts.sort_elem_of).
  assert (truthyNum b.(stackNumber) = true) as Htb
    by (apply Hall; by apply JsArrayFacts.sort_elem_of).
  unfold JsArray.order.
  destruct a.(stackNumber) as [sa|] eqn:Ea; [|done].
  destruct b.(stackNumber) as [sb|] eqn:Eb; [|done].
  simpl in Hta, Htb.
  rewrite (stackCompare_both a b sa sb); try done.
  - intros ->. done.
  - intros ->. done.
Qed.

Lemma availableInFolder_by_date (procurements : list Procurement) (folder : string) :
  (∀ p, p ∈ availableInFolder procurements folder →
        truthyNum p.(stackNumber) = false ∧ is_Some (Date_getTime p.(dateAdded))) →
  StronglySorted
    (λ a b, default 0 (Date_getTime a.(dateAdded)) ≤
            default 0 (Date_getTime b.(dateAdded)))
    (availableInFolder procurements folder).
Proof.
  intros Hall.
  apply (JsArrayFacts.sort_sorted _ (λ p, default 0 (Date_getTime p.(dateAdded)))).
  intros a b Ha Hb.
  destruct (Hall a) as [Hna [ta Hta]]; [by apply JsArrayFacts.sort_elem_of|].
  destruct (Hall b) as [Hnb [tb Htb]]; [by apply JsArrayFacts.sort_elem_of|].
  unfold JsArray.order.
  rewrite stackCompare_date by (by left).
  rewrite (dateDiff_valid a b ta tb) by done.
  by rewrite Hta, Htb.
Qed.

(** two records without a stack number, the first one older *)
Lemma availableInFolder_two (procurements : list Procurement) (folder : string)
    (r1 r2 : Procurement) (t1 t2 : Z) :
  filter (λ p, p.(folderId) = folder ∧ p.(status) = archived) procurements
    ≡ₚ [r1; r2] →
  r1.(stackNumber) = None → r2.(stackNumber) = None →
  Date_getTime r1.(dateAdded) = Some t1 →
  Date_getTime r2.(dateAdded) = Some t2 →
  t1 < t2 →
  availableInFolder procurements folder = [r1; r2].
Proof.
  intros Hperm Hs1 Hs2 Ht1 Ht2 Hlt.
  assert (availableInFolder procurements folder ≡ₚ [r1; r2]) as Hp
    by (by rewrite availableInFolder_perm).
  assert (∀ p, p ∈ availableInFolder procurements folder → p = r1 ∨ p = r2) as Hin.
  { intros p Hp'. rewrite Hp, !elem_of_cons, elem_of_nil in Hp'. tauto. }
  pose proof (availableInFolder_by_date procurements folder) as Hsorted.
  symmetry in Hp. apply Permutation_length_2_inv in Hp as [Hp|Hp]; [done|].
  exfalso. rewrite Hp in Hsorted.
  assert (StronglySorted
    (λ a b, default 0 (Date_getTime a.(dateAdded)) ≤
            default 0 (Date_getTime b.(dateAdded))) [r2; r1]) as Hs.
  { apply Hsorted. intros p Hp'. rewrite Hp in Hin.
    destruct (Hin p Hp') as [->| ->].
    - rewrite Hs1, Ht1. by split; [|eexists].
    - rewrite Hs2, Ht2. by split; [|eexists]. }
  apply StronglySorted_inv in Hs as [_ Hall].
  apply Forall_cons in Hall as [Hle _].
  rewrite Ht1, Ht2 in Hle. simpl in Hle. lia.
Qed.

End StackNumberFacts.

(** C1. [calculateStackNumbers] keeps the records of the folder that are
    archived, orders them with a comparator that is the difference of the
    stack numbers when both records carry one (a number other than [0], the
    only ones JavaScript counts as present) and the difference of the
    [dateAdded] times otherwise, and maps the record at index [i] of that
    order to [i + 1]. The keys of the map are exactly the ids of the
    archived records of the folder. With every stack number present the
    order is ascending in the stack number, with none present it is
    ascending in [dateAdded]; so two archived records of a folder without
    stack numbers get [1] (the older) and [2] (the newer). *)
Theorem calculateStackNumbers_spec `{Host} (procurements : list Procurement)
    (folder : string) :
  let inFolder := filter (λ p, p.(folderId) = folder ∧ p.(status) = archived) procurements in
  let sorted := availableInFolder procurements folder in
  let stackMap := calculateStackNumbers procurements folder in
  sorted ≡ₚ inFolder
  ∧ (∀ a b sa sb,
        a.(stackNumber) = Some sa → b.(stackNumber) = Some sb → sa ≠ 0 → sb ≠ 0 →
        stackCompare a b = Some (sa - sb))
  ∧ (∀ a b,
        truthyNum a.(stackNumber) = false ∨ truthyNum b.(stackNumber) = false →
        stackCompare a b = dateDiff a b)
  ∧ ((∀ p, p ∈ sorted → truthyNum p.(stackNumber) = true) →
      StronglySorted (λ a b, default 0 a.(stackNumber) ≤ default 0 b.(stackNumber)) sorted)
  ∧ ((∀ p, p ∈ sorted →
           truthyNum p.(stackNumber) = false ∧ is_Some (Date_getTime p.(dateAdded))) →
      StronglySorted
        (λ a b, default 0 (Date_getTime a.(dateAdded)) ≤
                default 0 (Date_getTime b.(dateAdded))) sorted)
  ∧ (∀ i p,
        sorted !! i = Some p →
        (∀ j q, (i < j)%nat → sorted !! j = Some q → q.(id) ≠ p.(id)) →
        JsMap.get p.(id) stackMap = Some (Z.of_nat i + 1))
  ∧ (NoDup (id <$> procurements) →
      ∀ i p, sorted !! i = Some p → JsMap.get p.(id) stackMap = Some (Z.of_nat i + 1))
  ∧ (∀ k, is_Some (JsMap.get k stackMap) ↔
          ∃ p, p ∈ procurements ∧ p.(id) = k ∧ p.(folderId) = folder ∧ p.(status) = archived)
  ∧ (∀ r1 r2 t1 t2,
        inFolder ≡ₚ [r1; r2] →
        r1.(id) ≠ r2.(id) →
        r1.(stackNumber) = None → r2.(stackNumber) = None →
        Date_getTime r1.(dateAdded) = Some t1 →
        Date_getTime r2.(dateAdded) = Some t2 →
        t1 < t2 →
        JsMap.get r1.(id) stackMap = Some 1 ∧ JsMap.get r2.(id) stackMap = Some 2).
Proof.
  intros inFolder sorted stackMap.
  assert (∀ i p,
        sorted !! i = Some p →
        (∀ j q, (i < j)%nat → sorted !! j = Some q → q.(id) ≠ p.(id)) →
        JsMap.get p.(id) stackMap = Some (Z.of_nat i + 1)) as Hget
    by (intros i p; apply forEachSet_get).
  split_and!.
  - apply availableInFolder_perm.
  - apply stackCompare_both.
  - apply stackCompare_date.
  - apply availableInFolder_by_stack.
  - apply availableInFolder_by_date.
  - exact Hget.
  - intros Hnd i p Hi. apply Hget; [done|].
    intros j q Hij Hj Heq.
    apply (availableInFolder_NoDup _ folder) in Hnd.
    assert (i = j); [|lia].
    apply (NoDup_lookup _ i j p.(id) Hnd); rewrite list_lookup_fmap.
    + fold sorted. by rewrite Hi.
    + fold sorted. rewrite Hj. simpl. by f_equal.
  - intros k. unfold stackMap, calculateStackNumbers.
    rewrite JsMapFacts.get_is_Some, forEachSet_keys, availableInFolder_perm.
    rewrite list_elem_of_fmap. split.
    + intros (p & -> & Hp). apply list_elem_of_filter in Hp as [[Hf Hs] Hp].
      by exists p.
    + intros (p & Hp & <- & Hf & Hs). exists p. split; [done|].
      by apply list_elem_of_filter.
  - intros r1 r2 t1 t2 Hperm Hid Hs1 Hs2 Ht1 Ht2 Hlt.
    assert (sorted = [r1; r2]) as Hsorted
      by (by eapply availableInFolder_two).
    split.
    + apply (Hget 0%nat r1); [by rewrite Hsorted|].
      intros j q Hj Hq. rewrite Hsorted in Hq.
      destruct j as [|[|j]]; [lia| |done]. simpl in Hq. by simplify_eq.
    + apply (Hget 1%nat r2); [by rewrite Hsorted|].
      intros j q Hj Hq. rewrite Hsorted in Hq.
      destruct j as [|[|j]]; [lia|lia|done].
Qed.

(** the scenario of C1 at folder X, whichever way round the store delivers
    the two records *)
Lemma calculateStackNumbers_spec_witness :
  JsMap.get "r1" (calculateStackNumbers (H:=plainHost) [day2Record; day1Record] "X") = Some 1
  ∧ JsMap.get "r2" (calculateStackNumbers (H:=plainHost) [day2Record; day1Record] "X") = Some 2.
Proof.
  destruct (calculateStackNumbers_spec (H:=plainHost) [day2Record; day1Record] "X")
    as (_ & _ & _ & _ & _ & _ & _ & _ & Hscenario).
  apply (Hscenario day1Record day2Record 86400000 172800000).
  - vm_compute. apply Permutation_swap.
  - vm_compute. discriminate.
  - reflexivity.
  - reflexivity.
  - reflexivity.
  - reflexivity.
  - lia.
Defined.

(** ** Record list: filtering *)

Lemma filter_all {A} (P : A → Prop) `{∀ x, Decision (P x)} (l : list A) :
  (∀ x, x ∈ l → P x) → filter P l = l.
Proof.
  induction l as [|x l IH]; intros Hall; [done|].
  rewrite filter_cons, decide_True by (apply Hall; left).
  f_equal. apply IH. intros y Hy. apply Hall. by right.
Qed.

Lemma startsWith_spec (s p : string) :
  JsString.startsWith s p = true ↔ ∃ post, s = p +:+ post.
Proof.
  revert s. induction p as [|a p IH]; intros s; simpl.
  - split; [by exists s|by destruct s].
  - destruct s as [|b s].
    + split; [done|]. by intros [post Hpost].
    + simpl. rewrite andb_true_iff, bool_decide_eq_true, IH. split.
      * intros [-> [post ->]]. by exists post.
      * intros [post Hpost]. injection Hpost as -> ->. split; [done|by exists post].
Qed.

Lemma includes_spec (s sub : string) :
  JsString.includes s sub = true ↔ ∃ pre post, s = pre +:+ sub +:+ post.
Proof.
  induction s as [|c s IH].
  - change (JsString.includes "" sub) with (JsString.startsWith "" sub || false).
    rewrite orb_false_r, startsWith_spec. split.
    + intros [post Hpost]. by exists "", post.
    + intros (pre & post & Heq). destruct pre; [by exists post|done].
  - change (JsString.includes (String c s) sub)
      with (JsString.startsWith (String c s) sub || JsString.includes s sub).
    rewrite orb_true_iff, IH, startsWith_spec. split.
    + intros [[post Hpost]|(pre & post & ->)].
      * by exists "", post.
      * by exists (String c pre), post.
    + intros (pre & post & Heq). destruct pre as [|c' pre]; simpl in Heq.
      * left. by exists post.
      * right. injection Heq as -> ->. by exists pre, post.
Qed.

Lemma includes_empty (s : string) : JsString.includes s "" = true.
Proof. apply includes_spec. by exists "", s. Qed.

Section FilterFacts.
Context `{Host}.

Lemma filteredProcurements_ext (procurements : list Procurement)
    (f1 f2 : ProcurementFilters.t) (s1 s2 : list ProcurementStatus)
    (sortField : SortField) (sortDirection : SortDirection) :
  (∀ p, matchesFilters f1 s1 p = matchesFilters f2 s2 p) →
  filteredProcurements procurements f1 s1 sortField sortDirection =
  filteredProcurements procurements f2 s2 sortField sortDirection.
Proof.
  intros Hext. unfold filteredProcurements. f_equal.
  apply list_filter_iff. intros p. by rewrite Hext.
Qed.

Lemma matchesFilters_all_statuses (filters : ProcurementFilters.t)
    (statusFilters : list ProcurementStatus) (p : Procurement) :
  active ∈ statusFilters → archived ∈ statusFilters →
  matchesFilters filters [] p = matchesFilters filters statusFilters p.
Proof.
  intros Hact Harch. unfold matchesFilters.
  assert (bool_decide (p.(status) ∈ statusFilters) = true) as ->
    by (apply bool_decide_eq_true_2; by destruct p.(status)).
  by rewrite orb_true_r.
Qed.
Lemma matchesFilters_cleared (sf : string) (my : string) (p : Procurement) :
  matchesFilters (ProcurementFilters.mk "" "" "" "" sf my "") [] p = true.
Proof. unfold matchesFilters. cbn. by rewrite !includes_empty. Qed.

Lemma matchesFilters_own_status (filters : ProcurementFilters.t)
    (statusFilters : list ProcurementStatus) (p : Procurement) :
  p.(status) ∈ statusFilters →
  matchesFilters filters [] p = matchesFilters filters statusFilters p.
Proof.
  intros Hin. unfold matchesFilters.
  rewrite (bool_decide_eq_true_2 (p.(status) ∈ statusFilters)) by done.
  by rewrite orb_true_r.
Qed.

Lemma filteredProcurements_all (procurements : list Procurement)
    (filters : ProcurementFilters.t) (statusFilters : list ProcurementStatus)
    (sortField : SortField) (sortDirection : SortDirection) :
  (∀ p, p ∈ procurements → matchesFilters filters statusFilters p = true) →
  filteredProcurements procurements filters statusFilters sortField sortDirection
  ≡ₚ procurements.
Proof.
  intros Hall. unfold filteredProcurements.
  rewrite JsArrayFacts.sort_perm. by rewrite filter_all.
Qed.
End FilterFacts.

(** C5. With the other criteria fixed, an empty selection of statuses lets
    through the same records as a selection holding both statuses. The
    empty selection filters nothing by status: the callback answers for a
    record as it does under any selection that holds the record's status,
    and with no other criterion set every record is listed. *)
Theorem empty_status_set_is_all `{Host} (procurements : list Procurement)
    (filters : ProcurementFilters.t) (statusFilters : list ProcurementStatus)
    (sortField : SortField) (sortDirection : SortDirection) :
  active ∈ statusFilters → archived ∈ statusFilters →
  filteredProcurements procurements filters [] sortField sortDirection =
  filteredProcurements procurements filters statusFilters sortField sortDirection
  ∧ (∀ p sel, p.(status) ∈ sel →
       matchesFilters filters [] p = matchesFilters filters sel p)
  ∧ (∀ p sel, p ∈ filteredProcurements procurements filters sel sortField sortDirection →
       p ∈ filteredProcurements procurements filters [] sortField sortDirection)
  ∧ (∀ p, matchesFilters
            (ProcurementFilters.mk "" "" "" "" (ProcurementFilters.status filters)
               (ProcurementFilters.monthYear filters) "") [] p = true)
  ∧ filteredProcurements procurements
      (ProcurementFilters.mk "" "" "" "" (ProcurementFilters.status filters)
         (ProcurementFilters.monthYear filters) "") [] sortField sortDirection
    ≡ₚ procurements.
Proof.
  intros Hact Harch. split_and!.
  - apply filteredProcurements_ext. intros p. by apply matchesFilters_all_statuses.
  - intros p sel Hin. by apply matchesFilters_own_status.
  - intros p sel. unfold filteredProcurements.
    rewrite !JsArrayFacts.sort_elem_of, !list_elem_of_filter.
    intros [Hm Hp]. split; [|done].
    destruct (decide (sel = [])) as [->|Hsel]; [done|].
    rewrite (matchesFilters_own_status filters sel p); [done|].
    unfold matchesFilters in Hm. cbv zeta in Hm.
    apply andb_true_iff in Hm as [Hm _]. apply andb_true_iff in Hm as [_ Hm].
    apply orb_true_iff in Hm as [Hm|Hm].
    + apply bool_decide_eq_true in Hm. by destruct sel.
    + by apply bool_decide_eq_true in Hm.
  - intros p. apply matchesFilters_cleared.
  - apply filteredProcurements_all. intros p _. apply matchesFilters_cleared.
Qed.

(** the selection after ticking both boxes of the status menu *)
Lemma empty_status_set_is_all_witness :
  filteredProcurements (H:=plainHost) [day2Record; borrowedRecord; day1Record]
    noFilters [] byDate asc =
  filteredProcurements (H:=plainHost) [day2Record; borrowedRecord; day1Record]
    noFilters (toggleStatusFilter archived (toggleStatusFilter active [])) byDate asc.
Proof.
  refine (proj1 (empty_status_set_is_all (H:=plainHost) _ _ _ _ _ _ _)).
  - vm_compute. left.
  - vm_compute. right. left.
Defined.

(** C10. Choosing the entry [all_cabinets], [all_shelves] or [all_folders]
    in a location menu filters like leaving that menu empty: the clause of
    that menu lets every record through. The callback answers for a record
    at the entry as it does when the menu names the record's own cabinet,
    shelf or folder, and with the three entries chosen and no other
    criterion set every record is listed. *)
Theorem sentinel_location_filters `{Host} (procurements : list Procurement)
    (search cabinet shelf folder st monthYear urgency : string)
    (statusFilters : list ProcurementStatus)
    (sortField : SortField) (sortDirection : SortDirection) :
  filteredProcurements procurements
    (ProcurementFilters.mk search "all_cabinets" shelf folder st monthYear urgency)
    statusFilters sortField sortDirection =
  filteredProcurements procurements
    (ProcurementFilters.mk search "" shelf folder st monthYear urgency)
    statusFilters sortField sortDirection
  ∧
  filteredProcurements procurements
    (ProcurementFilters.mk search cabinet "all_shelves" folder st monthYear urgency)
    statusFilters sortField sortDirection =
  filteredProcurements procurements
    (ProcurementFilters.mk search cabinet "" folder st monthYear urgency)
    statusFilters sortField sortDirection
  ∧
  filteredProcurements procurements
    (ProcurementFilters.mk search cabinet shelf "all_folders" st monthYear urgency)
    statusFilters sortField sortDirection =
  filteredProcurements procurements
    (ProcurementFilters.mk search cabinet shelf "" st monthYear urgency)
    statusFilters sortField sortDirection
  ∧ (∀ p,
       matchesFilters
         (ProcurementFilters.mk search "all_cabinets" shelf folder st monthYear urgency)
         statusFilters p
       = matchesFilters
           (ProcurementFilters.mk search p.(cabinetId) shelf folder st monthYear urgency)
           statusFilters p
       ∧ matchesFilters
           (ProcurementFilters.mk search cabinet "all_shelves" folder st monthYear urgency)
           statusFilters p
         = matchesFilters
             (ProcurementFilters.mk search cabinet p.(shelfId) folder st monthYear urgency)
             statusFilters p
       ∧ matchesFilters
           (ProcurementFilters.mk search cabinet shelf "all_folders" st monthYear urgency)
           statusFilters p
         = matchesFilters
             (ProcurementFilters.mk search cabinet shelf p.(folderId) st monthYear urgency)
             statusFilters p)
  ∧ (∀ p, matchesFilters
            (ProcurementFilters.mk "" "all_cabinets" "all_shelves" "all_folders"
               st monthYear "") [] p = true)
  ∧ filteredProcurements procurements
      (ProcurementFilters.mk "" "all_cabinets" "all_shelves" "all_folders" st monthYear "")
      [] sortField sortDirection
    ≡ₚ procurements.
Proof.
  assert (∀ p, matchesFilters
                 (ProcurementFilters.mk "" "all_cabinets" "all_shelves" "all_folders"
                    st monthYear "") [] p = true) as Hall.
  { intros p. unfold matchesFilters. cbn. by rewrite !includes_empty. }
  split_and!;
    [apply filteredProcurements_ext; intros p; unfold matchesFilters; cbn;
       by rewrite ?orb_true_r..| | |].
  - intros p. unfold matchesFilters. cbn [ProcurementFilters.search
      ProcurementFilters.cabinetId ProcurementFilters.shelfId
      ProcurementFilters.folderId ProcurementFilters.urgencyLevel].
    cbv zeta.
    rewrite !(bool_decide_eq_true_2 (_ = _) eq_refl), !orb_true_r. done.
  - exact Hall.
  - apply filteredProcurements_all. intros p _. apply Hall.
Qed.

(** ** Record list: pages *)

Lemma totalPages_covers (filtered : list Procurement) :
  Z.of_nat (length filtered) ≤ totalPages filtered * itemsPerPage.
Proof.
  unfold totalPages, ceilDiv, itemsPerPage.
  pose proof (Z.div_mod (- Z.of_nat (length filtered)) 20 ltac:(lia)) as Hdm.
  pose proof (Z.mod_pos_bound (- Z.of_nat (length filtered)) 20 ltac:(lia)) as Hb.
  lia.
Qed.

Lemma totalPages_nonneg (filtered : list Procurement) : 0 ≤ totalPages filtered.
Proof.
  unfold totalPages, ceilDiv, itemsPerPage.
  pose proof (Z.div_mod (- Z.of_nat (length filtered)) 20 ltac:(lia)) as Hdm.
  pose proof (Z.mod_pos_bound (- Z.of_nat (length filtered)) 20 ltac:(lia)) as Hb.
  lia.
Qed.

(** C6, as the code has it. The page shown is the slice
    [[(p - 1) * 20, p * 20)] of the filtered list: for a page number past
    the last page it is empty. Only the two pager buttons bound the page
    number: from a page in range they lead to a page in range. *)
Theorem page_beyond_last_is_empty (filtered : list Procurement) (p : Z) :
  (1 ≤ p →
     paginatedProcurements filtered p =
     take 20 (drop (Z.to_nat ((p - 1) * 20)) filtered))
  ∧ (totalPages filtered < p → paginatedProcurements filtered p = [])
  ∧ (1 ≤ p ≤ totalPages filtered →
     1 ≤ nextPage p (totalPages filtered) ≤ totalPages filtered
     ∧ 1 ≤ previousPage p ≤ totalPages filtered).
Proof.
  split_and!.
  - intros Hp. unfold paginatedProcurements, itemsPerPage.
    rewrite JsArrayFacts.slice_in_range by lia.
    by replace (p * 20 - (p - 1) * 20) with 20 by lia.
  - intros Hp. unfold paginatedProcurements.
    apply JsArrayFacts.slice_past_end.
    pose proof (totalPages_covers filtered). unfold itemsPerPage in *. lia.
  - intros Hp. unfold nextPage, previousPage. lia.
Qed.

Lemma page_beyond_last_is_empty_witness :
  paginatedProcurements (sampleRecords 25) 3 = []
  ∧ 1 ≤ nextPage 2 (totalPages (sampleRecords 25)) ≤ totalPages (sampleRecords 25).
Proof.
  destruct (page_beyond_last_is_empty (sampleRecords 25) 3) as (_ & Hempty & _).
  destruct (page_beyond_last_is_empty (sampleRecords 25) 2) as (_ & _ & Hnav).
  split.
  - apply Hempty. vm_compute. reflexivity.
  - apply Hnav. vm_compute. split; discriminate.
Defined.

(** Twenty-five records make two pages; page 3 shows nothing while page 2,
    the last one, shows five records. *)
Lemma page_beyond_last_not_clamped :
  totalPages (sampleRecords 25) = 2
  ∧ paginatedProcurements (sampleRecords 25) 3 = []
  ∧ length (paginatedProcurements (sampleRecords 25) (totalPages (sampleRecords 25))) = 5%nat
  ∧ paginatedProcurements (sampleRecords 25) 3 ≠
    paginatedProcurements (sampleRecords 25) (totalPages (sampleRecords 25)).
Proof.
  split_and!; [reflexivity | reflexivity | reflexivity |].
  vm_compute. discriminate.
Qed.

(** ** Record list: sorting *)

Lemma StronglySorted_weaken {A} (R R' : A → A → Prop) (l : list A) :
  (∀ x y, R x y → R' x y) → StronglySorted R l → StronglySorted R' l.
Proof.
  intros Himp Hs. induction Hs as [|x l Hs IH Hall]; constructor; [done|].
  eapply Forall_impl; [exact Hall|]. intros y. apply Himp.
Qed.

Section SortFacts.
Context `{Host}.

Lemma orElse_999 (n : option Z) :
  orElse n 999 = if truthyNum n then default 0 n else 999.
Proof. reflexivity. Qed.

(** by stack number, ascending: ordered by the stack number with [999]
    standing in for a missing one *)
Lemma filteredProcurements_by_stack (procurements : list Procurement)
    (filters : ProcurementFilters.t) (statusFilters : list ProcurementStatus) :
  StronglySorted (λ a b, orElse a.(stackNumber) 999 ≤ orElse b.(stackNumber) 999)
    (filteredProcurements procurements filters statusFilters byStackNumber asc).
Proof.
  apply (JsArrayFacts.sort_sorted _ (λ p, orElse p.(stackNumber) 999)).
  intros a b _ _. reflexivity.
Qed.

(** As long as every stack number lies strictly between [0] and [999],
    records without one come after every record with one. *)
Lemma stackNumber_sort_below_sentinel (procurements : list Procurement)
    (filters : ProcurementFilters.t) (statusFilters : list ProcurementStatus)
    (i j : nat) (a b : Procurement) (n : Z) :
  let sorted := filteredProcurements procurements filters statusFilters byStackNumber asc in
  0 < n < 999 →
  sorted !! i = Some a → a.(stackNumber) = Some n →
  sorted !! j = Some b → b.(stackNumber) = None →
  (i < j)%nat.
Proof.
  intros sorted Hn Hi Ha Hj Hb.
  eapply (JsArrayFacts.sorted_lookup_lt (λ p, orElse p.(stackNumber) 999));
    [apply filteredProcurements_by_stack|exact Hi|exact Hj|].
  rewrite Ha, Hb. unfold orElse. simpl. destruct (Z.eqb_spec n 0); simpl; lia.
Qed.

Lemma compare_date_asc (a b : Procurement) (ta tb : Z) :
  Date_getTime a.(dateAdded) = Some ta →
  Date_getTime b.(dateAdded) = Some tb →
  compareProcurements byDate asc a b = Some (tb - ta).
Proof. intros Ha Hb. simpl. by apply dateDiff_valid. Qed.

Lemma compare_date_desc (a b : Procurement) (ta tb : Z) :
  Date_getTime a.(dateAdded) = Some ta →
  Date_getTime b.(dateAdded) = Some tb →
  compareProcurements byDate desc a b = Some (ta - tb).
Proof.
  intros Ha Hb. simpl. rewrite (dateDiff_valid b a tb ta) by done.
  simpl. f_equal. lia.
Qed.

Lemma filteredProcurements_elem_of (procurements : list Procurement)
    (filters : ProcurementFilters.t) (statusFilters : list ProcurementStatus)
    (sortField : SortField) (sortDirection : SortDirection) (p : Procurement) :
  p ∈ filteredProcurements procurements filters statusFilters sortField sortDirection ↔
  matchesFilters filters statusFilters p = true ∧ p ∈ procurements.
Proof.
  unfold filteredProcurements.
  by rewrite JsArrayFacts.sort_elem_of, list_elem_of_filter.
Qed.

Lemma filteredProcurements_newest_first_key (procurements : list Procurement)
    (filters : ProcurementFilters.t) (statusFilters : list ProcurementStatus) :
  (∀ p, p ∈ procurements → is_Some (Date_getTime p.(dateAdded))) →
  StronglySorted
    (λ a b, - default 0 (Date_getTime a.(dateAdded)) ≤
            - default 0 (Date_getTime b.(dateAdded)))
    (filteredProcurements procurements filters statusFilters byDate asc).
Proof.
  intros Hvalid.
  apply (JsArrayFacts.sort_sorted _ (λ p, - default 0 (Date_getTime p.(dateAdded)))).
  intros a b Ha Hb.
  apply list_elem_of_filter in Ha as [_ Ha]. apply list_elem_of_filter in Hb as [_ Hb].
  destruct (Hvalid a Ha) as [ta Hta]. destruct (Hvalid b Hb) as [tb Htb].
  unfold JsArray.order. rewrite (compare_date_asc a b ta tb) by done.
  rewrite Hta, Htb. simpl. lia.
Qed.

Lemma filteredProcurements_newest_first (procurements : list Procurement)
    (filters : ProcurementFilters.t) (statusFilters : list ProcurementStatus) :
  (∀ p, p ∈ procurements → is_Some (Date_getTime p.(dateAdded))) →
  StronglySorted
    (λ a b, default 0 (Date_getTime b.(dateAdded)) ≤
            default 0 (Date_getTime a.(dateAdded)))
    (filteredProcurements procurements filters statusFilters byDate asc).
Proof.
  intros Hvalid.
  eapply StronglySorted_weaken;
    [|by apply filteredProcurements_newest_first_key].
  simpl. intros; lia.
Qed.

Lemma filteredProcurements_oldest_first (procurements : list Procurement)
    (filters : ProcurementFilters.t) (statusFilters : list ProcurementStatus) :
  (∀ p, p ∈ procurements → is_Some (Date_getTime p.(dateAdded))) →
  StronglySorted
    (λ a b, default 0 (Date_getTime a.(dateAdded)) ≤
            default 0 (Date_getTime b.(dateAdded)))
    (filteredProcurements procurements filters statusFilters byDate desc).
Proof.
  intros Hvalid.
  apply (JsArrayFacts.sort_sorted _ (λ p, default 0 (Date_getTime p.(dateAdded)))).
  intros a b Ha Hb.
  apply list_elem_of_filter in Ha as [_ Ha]. apply list_elem_of_filter in Hb as [_ Hb].
  destruct (Hvalid a Ha) as [ta Hta]. destruct (Hvalid b Hb) as [tb Htb].
  unfold JsArray.order. rewrite (compare_date_desc a b ta tb) by done.
  by rewrite Hta, Htb.
Qed.
End SortFacts.

(** C7, at a folder with a thousand archived records. Ascending by stack
    number, the code reads a missing stack number as [999]: the borrowed
    record, which has none, is moved in front of the record with stack
    number [1000]. *)
Theorem stackNumber_sort_sentinel_overtaken :
  filteredProcurements (H:=plainHost) [thousandthRecord; borrowedRecord]
    noFilters [] byStackNumber asc
  = [borrowedRecord; thousandthRecord]
  ∧ borrowedRecord.(stackNumber) = None
  ∧ thousandthRecord.(stackNumber) = Some 1000.
Proof. split_and!; reflexivity. Qed.

(** C8. For the [dateAdded] key the comparator of the ascending direction
    is the time of the second record minus the time of the first, so in
    the ascending list a newer record stands before an older one, and in
    the descending list an older record stands before a newer one. For the
    description and [prNumber] keys the ascending comparator is
    [localeCompare] of the first record's text with the second's, the
    smaller text first. *)
Theorem date_sort_is_newest_first `{Host} (procurements : list Procurement)
    (filters : ProcurementFilters.t) (statusFilters : list ProcurementStatus) :
  (∀ a b ta tb,
      Date_getTime a.(dateAdded) = Some ta →
      Date_getTime b.(dateAdded) = Some tb →
      compareProcurements byDate asc a b = Some (tb - ta)
      ∧ compareProcurements byDate desc a b = Some (ta - tb))
  ∧ (∀ a b,
      compareProcurements byName asc a b =
        Some (localeCompare a.(description) b.(description))
      ∧ compareProcurements byPrNumber asc a b =
        Some (localeCompare a.(prNumber) b.(prNumber)))
  ∧ ((∀ p, p ∈ procurements → is_Some (Date_getTime p.(dateAdded))) →
     ∀ i j a b ta tb,
       Date_getTime a.(dateAdded) = Some ta →
       Date_getTime b.(dateAdded) = Some tb →
       tb < ta →
       (filteredProcurements procurements filters statusFilters byDate asc !! i = Some a →
        filteredProcurements procurements filters statusFilters byDate asc !! j = Some b →
        (i < j)%nat)
       ∧
       (filteredProcurements procurements filters statusFilters byDate desc !! i = Some a →
        filteredProcurements procurements filters statusFilters byDate desc !! j = Some b →
        (j < i)%nat)).
Proof.
  split_and!.
  - intros a b ta tb Ha Hb. split.
    + by apply compare_date_asc.
    + by apply compare_date_desc.
  - intros a b. by split.
  - intros Hvalid i j a b ta tb Ha Hb Hlt. split; intros Hi Hj.
    + eapply (JsArrayFacts.sorted_lookup_lt
                (λ p, - default 0 (Date_getTime p.(dateAdded))));
        [by apply filteredProcurements_newest_first_key|exact Hi|exact Hj|].
      rewrite Ha, Hb. simpl. lia.
    + eapply (JsArrayFacts.sorted_lookup_lt
                (λ p, default 0 (Date_getTime p.(dateAdded))));
        [by apply filteredProcurements_oldest_first|exact Hj|exact Hi|].
      rewrite Ha, Hb. simpl. lia.
Qed.

(** day 2 is shown before day 1 in the ascending list, after it in the
    descending one *)
Lemma date_sort_is_newest_first_witness :
  filteredProcurements (H:=plainHost) [day1Record; day2Record] noFilters [] byDate asc
    = [day2Record; day1Record]
  ∧ filteredProcurements (H:=plainHost) [day2Record; day1Record] noFilters [] byDate desc
    = [day1Record; day2Record]
  ∧ (0 < 1)%nat.
Proof.
  split_and!; [reflexivity | reflexivity |].
  destruct (date_sort_is_newest_first (H:=plainHost) [day1Record; day2Record] noFilters [])
    as (_ & _ & Horder).
  refine (proj1 (Horder _ 0%nat 1%nat day2Record day1Record 172800000 86400000 _ _ _) _ _).
  - intros p Hp. apply elem_of_cons in Hp as [->|Hp]; [by eexists|].
    apply list_elem_of_singleton in Hp as ->. by eexists.
  - reflexivity.
  - reflexivity.
  - lia.
  - reflexivity.
  - reflexivity.
Defined.

(** ** User validation *)

Module JsStringFacts.
Import JsString.

Lemma truthy_true (s : string) : truthy s = true ↔ s ≠ "".
Proof.
  unfold truthy. rewrite negb_true_iff, bool_decide_eq_false. done.
Qed.

Lemma endsWith_true (s suf : string) :
  endsWith s suf = true ↔ ∃ pre, s = pre +:+ suf.
Proof.
  induction s as [|c s IH]; simpl.
  - rewrite orb_false_r, bool_decide_eq_true. split.
    + intros <-. by exists "".
    + intros [pre Hpre]. destruct pre; simpl in Hpre; [done|discriminate].
  - rewrite orb_true_iff, bool_decide_eq_true, IH. split.
    + intros [<-|[pre ->]]; [by exists ""|by exists (String c pre)].
    + intros [pre Hpre]. destruct pre as [|c' pre]; simpl in Hpre.
      * by left.
      * right. exists pre. by injection Hpre.
Qed.

Lemma test_true (class : ascii → bool) (s : string) :
  test class s = true ↔ ∃ c, c ∈ String.list_ascii_of_string s ∧ class c = true.
Proof.
  induction s as [|c s IH]; simpl.
  - split; [done|]. intros (c & Hc & _). by apply elem_of_nil in Hc.
  - rewrite orb_true_iff, IH. split.
    + intros [Hc|(c' & Hin & Hc')].
      * exists c. split; [left|done].
      * exists c'. split; [by right|done].
    + intros (c' & Hin & Hc'). apply elem_of_cons in Hin as [->|Hin].
      * by left.
      * right. by exists c'.
Qed.
End JsStringFacts.

Lemma validateUser_cases (data : FormData.t) (w : World) :
  (validForm data ∧ validateUser data w = (Returned true, w))
  ∨ (¬ validForm data ∧
     ∃ msg, validateUser data w = (Returned false, addToast (toast_error msg) w)).
Proof.
  unfold validateUser, validForm.
  destruct (JsString.truthy (FormData.name data)) eqn:Hn; simpl;
    [apply JsStringFacts.truthy_true in Hn
    |right; split; [|by eexists];
     intros (Hv & _); by apply JsStringFacts.truthy_true in Hv; congruence].
  destruct (JsString.truthy (FormData.email data)) eqn:He; simpl;
    [apply JsStringFacts.truthy_true in He
    |right; split; [|by eexists];
     intros (_ & Hv & _); by apply JsStringFacts.truthy_true in Hv; congruence].
  destruct (JsString.truthy (FormData.password data)) eqn:Hp; simpl;
    [apply JsStringFacts.truthy_true in Hp
    |right; split; [|by eexists];
     intros (_ & _ & Hv & _); by apply JsStringFacts.truthy_true in Hv; congruence].
  destruct (JsString.endsWith _ "@gmail.com") eqn:Hd; simpl;
    [apply JsStringFacts.endsWith_true in Hd
    |right; split; [|by eexists];
     intros (_ & _ & _ & Hv & _); apply JsStringFacts.endsWith_true in Hv; congruence].
  destruct (Z.ltb_spec (Z.of_nat (String.length (FormData.password data))) 8) as [Hl|Hl];
    [right; split; [|by eexists]; intros (_ & _ & _ & _ & Hv & _); lia|].
  destruct (JsString.test JsString.isUpper _) eqn:Hu; simpl;
    [apply JsStringFacts.test_true in Hu
    |right; split; [|by eexists];
     intros (_ & _ & _ & _ & _ & Hv & _); apply JsStringFacts.test_true in Hv; congruence].
  destruct (JsString.test JsString.isDigit _) eqn:Hdg; simpl;
    [apply JsStringFacts.test_true in Hdg
    |right; split; [|by eexists];
     intros (_ & _ & _ & _ & _ & _ & Hv & _); apply JsStringFacts.test_true in Hv; congruence].
  destruct (JsString.test isSpecial _) eqn:Hs; simpl.
  - left. split; [|done]. split_and!; try done; [lia|].
    apply JsStringFacts.test_true in Hs as (c & Hin & Hc).
    exists c. split; [done|]. by apply bool_decide_eq_true in Hc.
  - right. split; [|by eexists].
    intros (_ & _ & _ & _ & _ & _ & _ & (c & Hin & Hc)).
    assert (JsString.test isSpecial (FormData.password data) = true); [|congruence].
    apply JsStringFacts.test_true. exists c. split; [done|].
    by apply bool_decide_eq_true.
Qed.

(** C9, as the code has it. [validateUser] accepts exactly the forms with
    all three fields filled in, an address that ends with [@gmail.com]
    after it is put in lower case, and a password of at least eight
    characters holding an upper-case letter, a digit and a character of the
    punctuation set. A form it rejects gets one error message and nothing
    else changes. Address [a@other.com] is rejected; address
    [Valid1!@gmail.com] with password [Abc12345!] and a name is accepted. *)
Theorem validateUser_spec (data : FormData.t) (w : World) :
  (validateUser data w = (Returned true, w) ↔ validForm data)
  ∧ (¬ validForm data →
     ∃ msg, validateUser data w = (Returned false, addToast (toast_error msg) w))
  ∧ (∀ name password role st,
       (validateUser (FormData.mk name "a@other.com" password role st) w).1
       = Returned false)
  ∧ (∀ name role st,
       name ≠ "" →
       validateUser (FormData.mk name "Valid1!@gmail.com" "Abc12345!" role st) w
       = (Returned true, w)).
Proof.
  split_and!.
  - destruct (validateUser_cases data w) as [[Hv Hr]|[Hv [msg Hr]]].
    + by split.
    + rewrite Hr. split; [discriminate|done].
  - intros Hnv. destruct (validateUser_cases data w) as [[Hv Hr]|[Hv Hr]]; done.
  - intros name password role st.
    destruct (validateUser_cases (FormData.mk name "a@other.com" password role st) w)
      as [[Hv Hr]|[Hv [msg Hr]]]; [|by rewrite Hr].
    destruct Hv as (_ & _ & _ & Hd & _). exfalso.
    apply JsStringFacts.endsWith_true in Hd. by vm_compute in Hd.
  - intros name role st Hname.
    destruct (validateUser_cases (FormData.mk name "Valid1!@gmail.com" "Abc12345!" role st) w)
      as [[Hv Hr]|[Hv Hr]]; [done|].
    exfalso. apply Hv. unfold validForm. simpl. split_and!; try done.
    + apply JsStringFacts.endsWith_true. reflexivity.
    + lia.
    + exists "A"%char. split; [left|done].
    + exists "1"%char. split; [do 3 right; left|done].
    + exists "!"%char. split; [do 8 right; left|left].
Qed.

Lemma validateUser_spec_witness :
  validateUser (sampleForm "Valid1!@gmail.com") (freshWorld [] [] None)
  = (Returned true, freshWorld [] [] None).
Proof.
  destruct (validateUser_spec (sampleForm "Valid1!@gmail.com") (freshWorld [] [] None))
    as (_ & _ & _ & Hok).
  apply (Hok "Valid User" User.user User.active). discriminate.
Defined.

(** An address in capitals passes [validateUser], which lowers the case
    before it looks at the ending, though as typed it does not end with
    [@gmail.com]. *)
Lemma validateUser_ignores_case :
  validateUser (sampleForm "USER@GMAIL.COM") (freshWorld [] [] None)
    = (Returned true, freshWorld [] [] None)
  ∧ ¬ (∃ pre, "USER@GMAIL.COM" = pre +:+ "@gmail.com")
  ∧ ¬ validFormExactCase (sampleForm "USER@GMAIL.COM").
Proof.
  assert (¬ (∃ pre, "USER@GMAIL.COM" = pre +:+ "@gmail.com")) as Hno.
  { intros Hd. apply JsStringFacts.endsWith_true in Hd. by vm_compute in Hd. }
  split_and!; [reflexivity | exact Hno |].
  intros (_ & _ & _ & Hd & _). by apply Hno.
Qed.

(** ** The handlers when every store call resolves *)

Lemma updateProcurement_run (key : string) (updates : ProcurementPatch) (w : World) :
  faults w = [] →
  updateProcurement key updates w = (Returned tt, write (key, updates) w).
Proof. intros Hf. unfold updateProcurement, storeCall. by rewrite Hf. Qed.

Lemma write_faults (ku : string * ProcurementPatch) (w : World) :
  faults w = [] → faults (write ku w) = [].
Proof. intros Hf. simpl. by rewrite Hf. Qed.

Lemma writeAll_faults (us : list (string * ProcurementPatch)) (w : World) :
  faults w = [] → faults (writeAll us w) = [].
Proof.
  revert w. induction us as [|ku us IH]; intros w Hf; [done|].
  simpl. apply IH. by apply write_faults.
Qed.

Lemma writeAll_app (us vs : list (string * ProcurementPatch)) (w : World) :
  writeAll (us ++ vs) w = writeAll vs (writeAll us w).
Proof. apply foldl_app. Qed.

Lemma forOf_run {A} (l : list A) (body : A → M unit)
    (f : A → option (string * ProcurementPatch)) :
  (∀ x w, faults w = [] →
     body x w = (Returned tt, from_option (λ ku, write ku w) w (f x))) →
  ∀ w, faults w = [] → forOf l body w = (Returned tt, writeAll (omap f l) w).
Proof.
  intros Hbody. induction l as [|x l IH]; intros w Hf; [done|].
  simpl. unfold bind. rewrite Hbody by done.
  destruct (f x) as [ku|]; simpl.
  - apply IH. by apply write_faults.
  - by apply IH.
Qed.

Lemma writeAll_store (us : list (string * ProcurementPatch)) (w : World) :
  store_procurements (writeAll us w) = evolve us <$> store_procurements w.
Proof.
  revert w. induction us as [|ku us IH]; intros w; simpl.
  - by rewrite list_fmap_id.
  - rewrite IH. simpl. rewrite <-list_fmap_compose. done.
Qed.

Lemma writeAll_calls (us : list (string * ProcurementPatch)) (w : World) :
  calls (writeAll us w) =
  (calls w ++ ((λ ku, call_updateProcurement ku.1 ku.2) <$> us))%list.
Proof.
  revert w. induction us as [|ku us IH]; intros w; simpl.
  - by rewrite app_nil_r.
  - rewrite IH. simpl. by rewrite <-app_assoc.
Qed.

Lemma writeAll_toasts (us : list (string * ProcurementPatch)) (w : World) :
  toasts (writeAll us w) = toasts w.
Proof. revert w. induction us as [|ku us IH]; intros w; simpl; [done|by rewrite IH]. Qed.

Section BorrowRuns.
Context `{Host}.

Lemma updateStackNumbersForFolder_run (procurements : list Procurement)
    (folder : string) (w : World) :
  faults w = [] →
  updateStackNumbersForFolder procurements folder w =
  (Returned tt, writeAll (renumberWrites procurements folder) w).
Proof.
  intros Hf. unfold updateStackNumbersForFolder, renumberWrites, bind.
  rewrite (forOf_run _ _ (λ kn : string * Z, Some (kn.1, stackPatch (Some kn.2)))).
  - rewrite writeAll_app.
    apply (forOf_run _ _
             (λ proc : Procurement,
                if bool_decide (proc.(stackNumber) ≠ None)
                then Some (proc.(id), stackPatch None) else None)).
    + intros proc w' Hf'. destruct (bool_decide _); [|done].
      by apply updateProcurement_run.
    + by apply writeAll_faults.
  - intros [k n] w' Hf'. by apply updateProcurement_run.
  - done.
Qed.

Lemma saveBorrowChanges_run (procurements : list Procurement)
    (m : BorrowEdit.t) (w : World) :
  borrowEditModal w = Some m →
  BorrowEdit.borrowedBy m ≠ "" → BorrowEdit.division m ≠ "" →
  faults w = [] →
  ∃ w',
    saveBorrowChanges procurements w = (Returned tt, w')
    ∧ store_procurements w' =
        evolve (((BorrowEdit.procurement m).(id), borrowPatch m (clock w))
                :: renumberWrites procurements (BorrowEdit.procurement m).(folderId))
          <$> store_procurements w
    ∧ toasts w' = (toasts w ++ [toast_success "File marked as borrowed"])%list
    ∧ borrowEditModal w' = None.
Proof.
  intros Hm Hb Hd Hf.
  apply JsStringFacts.truthy_true in Hb. apply JsStringFacts.truthy_true in Hd.
  unfold saveBorrowChanges, bind, getBorrowEditModal. rewrite Hm, Hb, Hd. simpl.
  unfold tryCatch, bind, nowISOString.
  rewrite updateProcurement_run by done.
  rewrite updateStackNumbersForFolder_run by (by apply write_faults).
  simpl. eexists. split; [done|]. simpl.
  rewrite writeAll_toasts. split_and!; [|done|done].
  rewrite writeAll_store. simpl. by rewrite <-list_fmap_compose.
Qed.
End BorrowRuns.

(** ** What a run of writes makes of one record *)

Lemma NoDup_id_inj (procurements : list Procurement) (p q : Procurement) :
  NoDup (id <$> procurements) → p ∈ procurements → q ∈ procurements →
  p.(id) = q.(id) → p = q.
Proof.
  intros Hnd Hp Hq Heq.
  apply list_elem_of_lookup_1 in Hp as [i Hi]. apply list_elem_of_lookup_1 in Hq as [j Hj].
  assert (i = j) as ->; [|congruence].
  apply (NoDup_lookup _ i j p.(id) Hnd); rewrite list_lookup_fmap.
  - by rewrite Hi.
  - rewrite Hj. simpl. by f_equal.
Qed.

Lemma patchRecord_id (key : string) (u : ProcurementPatch) (p : Procurement) :
  (patchRecord key u p).(id) = p.(id).
Proof. unfold patchRecord. by destruct (bool_decide _). Qed.

Lemma evolve_cons (ku : string * ProcurementPatch)
    (us : list (string * ProcurementPatch)) (p : Procurement) :
  evolve (ku :: us) p = evolve us (patchRecord ku.1 ku.2 p).
Proof. reflexivity. Qed.

Lemma evolve_id (us : list (string * ProcurementPatch)) (p : Procurement) :
  (evolve us p).(id) = p.(id).
Proof.
  revert p. induction us as [|ku us IH]; intros p; [done|].
  by rewrite evolve_cons, IH, patchRecord_id.
Qed.

Lemma evolve_app (us vs : list (string * ProcurementPatch)) (p : Procurement) :
  evolve (us ++ vs) p = evolve vs (evolve us p).
Proof. apply foldl_app. Qed.

(** writes to other ids leave the record alone *)
Lemma evolve_other (us : list (string * ProcurementPatch)) (p : Procurement) :
  Forall (λ ku, ku.1 ≠ p.(id)) us → evolve us p = p.
Proof.
  induction 1 as [|ku us Hne Hall IH]; [done|].
  rewrite evolve_cons. unfold patchRecord.
  rewrite bool_decide_eq_false_2 by done. exact IH.
Qed.

(** writes of the stack number alone leave the borrow fields alone *)
Lemma evolve_stackPatch (us : list (string * ProcurementPatch)) (p : Procurement) :
  Forall (λ ku, ∃ n, ku.2 = stackPatch n) us →
  (evolve us p).(status) = p.(status)
  ∧ (evolve us p).(borrowedBy) = p.(borrowedBy)
  ∧ (evolve us p).(division) = p.(division)
  ∧ (evolve us p).(borrowedDate) = p.(borrowedDate).
Proof.
  intros Hall. revert p.
  induction Hall as [|[k u] us [n Hn] Hall IH]; intros p; [done|].
  simpl in Hn. subst u. rewrite evolve_cons. cbn [fst snd].
  destruct (IH (patchRecord k (stackPatch n) p)) as (-> & -> & -> & ->).
  unfold patchRecord. simpl. by destruct (bool_decide _).
Qed.

Lemma evolve_stack_entry (entries : list (string * Z)) (q : Procurement) (n : Z) :
  NoDup entries.*1 → (q.(id), n) ∈ entries →
  (evolve ((λ kn, (kn.1, stackPatch (Some kn.2))) <$> entries) q).(stackNumber) = Some n.
Proof.
  revert q. induction entries as [|[k' n'] rest IH]; intros q Hnd Hin.
  - by apply elem_of_nil in Hin.
  - simpl in Hnd. apply NoDup_cons in Hnd as [Hfresh Hnd].
    rewrite fmap_cons, evolve_cons. cbn [fst snd]. unfold patchRecord at 1.
    apply elem_of_cons in Hin as [Heq|Hin].
    + injection Heq as <- <-.
      rewrite bool_decide_eq_true_2 by done.
      rewrite evolve_other; [done|].
      apply Forall_fmap, Forall_forall. intros [k m] Hkm. simpl.
      intros ->. apply Hfresh. by apply (list_elem_of_fmap_2 fst _ (_, m)).
    + rewrite bool_decide_eq_false_2.
      * by apply IH.
      * intros Heq. apply Hfresh. subst k'.
        by apply (list_elem_of_fmap_2 fst _ (_, n)).
Qed.

Lemma JsMap_get_elem_of {V} (k : string) (v : V) (m : JsMap.t V) :
  JsMap.get k m = Some v → (k, v) ∈ m.
Proof.
  induction m as [|[k' v'] r IH]; simpl; [done|].
  destruct (decide (k' = k)) as [->|Hne].
  - rewrite bool_decide_eq_true_2 by done. intros [= ->]. left.
  - rewrite bool_decide_eq_false_2 by done. intros Hg. right. by apply IH.
Qed.

Section RenumberFacts.
Context `{Host}.

Lemma forEachSet_keys_NoDup (l : list Procurement) (i : Z) (m : JsMap.t Z) :
  NoDup (JsMap.keys m) → NoDup (JsMap.keys (forEachSet l i m)).
Proof.
  revert i m. induction l as [|p l IH]; intros i m Hnd; simpl; [done|].
  apply IH. by apply JsMapFacts.keys_set_NoDup.
Qed.

Lemma calculateStackNumbers_keys_NoDup (procurements : list Procurement)
    (folder : string) :
  NoDup (JsMap.keys (calculateStackNumbers procurements folder)).
Proof. apply forEachSet_keys_NoDup. constructor. Qed.

Lemma renumberWrites_stackPatch (procurements : list Procurement) (folder : string) :
  Forall (λ ku, ∃ n, ku.2 = stackPatch n) (renumberWrites procurements folder).
Proof.
  unfold renumberWrites. apply Forall_app. split; apply Forall_forall.
  - intros ku Hku. apply list_elem_of_omap in Hku as ([k n] & _ & [= <-]).
    by eexists.
  - intros ku Hku. apply list_elem_of_omap in Hku as (proc & _ & Hf).
    destruct (bool_decide _); [|done]. injection Hf as <-. by eexists.
Qed.

(** A record that the rendered array holds as archived is given its
    position by the renumbering, whatever the store holds by then. *)
Lemma renumberWrites_archived (procurements : list Procurement)
    (r q : Procurement) (n : Z) :
  NoDup (id <$> procurements) → r ∈ procurements → r.(status) = archived →
  q.(id) = r.(id) →
  JsMap.get r.(id) (calculateStackNumbers procurements r.(folderId)) = Some n →
  (evolve (renumberWrites procurements r.(folderId)) q).(stackNumber) = Some n.
Proof.
  intros Hnd Hr Harch Hq Hget. unfold renumberWrites.
  rewrite evolve_app, <-list_fmap_alt.
  rewrite evolve_other.
  - apply evolve_stack_entry.
    + apply calculateStackNumbers_keys_NoDup.
    + rewrite Hq. by apply JsMap_get_elem_of.
  - apply Forall_forall. intros ku Hku.
    apply list_elem_of_omap in Hku as (proc & Hproc & Hf).
    apply list_elem_of_filter in Hproc as [[_ Hact] Hproc].
    destruct (bool_decide _); [|done]. injection Hf as <-. simpl.
    rewrite evolve_id, Hq. intros Heq.
    assert (proc = r) as -> by (by eapply NoDup_id_inj).
    congruence.
Qed.
End RenumberFacts.

(** ** The log of store calls only grows *)

Lemma grows_ret {A} (a : A) : grows (ret a).
Proof. intros w. exists []. simpl. by rewrite app_nil_r. Qed.

Lemma grows_toast (t : Toast) : grows (toast t).
Proof. intros w. exists []. simpl. by rewrite app_nil_r. Qed.

Lemma grows_setBorrowEditModal (v : option BorrowEdit.t) : grows (setBorrowEditModal v).
Proof. intros w. exists []. simpl. by rewrite app_nil_r. Qed.

Lemma grows_bind {A B} (m : M A) (k : A → M B) :
  grows m → (∀ a, grows (k a)) → grows (bind m k).
Proof.
  intros Hm Hk w. unfold bind. destruct (Hm w) as [r1 Hr1].
  destruct (m w) as [[a|] w1]; simpl in *.
  - destruct (Hk a w1) as [r2 Hr2]. exists (r1 ++ r2)%list.
    by rewrite Hr2, Hr1, app_assoc.
  - by exists r1.
Qed.

Lemma grows_tryCatch (body handler : M unit) :
  grows body → grows handler → grows (tryCatch body handler).
Proof.
  intros Hb Hh w. unfold tryCatch. destruct (Hb w) as [r1 Hr1].
  destruct (body w) as [[a|] w1]; simpl in *.
  - by exists r1.
  - destruct (Hh w1) as [r2 Hr2]. exists (r1 ++ r2)%list.
    by rewrite Hr2, Hr1, app_assoc.
Qed.

Lemma grows_forOf {A} (l : list A) (body : A → M unit) :
  (∀ x, grows (body x)) → grows (forOf l body).
Proof.
  intros Hb. induction l as [|x l IH]; simpl.
  - apply grows_ret.
  - apply grows_bind; [apply Hb|]. intros _. apply IH.
Qed.

Lemma grows_updateProcurement (key : string) (u : ProcurementPatch) :
  grows (updateProcurement key u).
Proof.
  intros w. exists [call_updateProcurement key u].
  unfold updateProcurement, storeCall. by destruct (faults w) as [|[] ?].
Qed.

Lemma grows_updateStackNumbersForFolder `{Host} (procurements : list Procurement)
    (folder : string) :
  grows (updateStackNumbersForFolder procurements folder).
Proof.
  unfold updateStackNumbersForFolder. apply grows_bind.
  - apply grows_forOf. intros [k n]. apply grows_updateProcurement.
  - intros _. apply grows_forOf. intros proc.
    destruct (bool_decide _); [apply grows_updateProcurement|apply grows_ret].
Qed.

(** ** Borrow workflow *)

Section BorrowFacts.
Context `{Host}.

Lemma calculateStackNumbers_get (procurements : list Procurement) (folder : string)
    (i : nat) (p : Procurement) :
  NoDup (id <$> procurements) →
  availableInFolder procurements folder !! i = Some p →
  JsMap.get p.(id) (calculateStackNumbers procurements folder) = Some (Z.of_nat i + 1).
Proof.
  intros Hnd Hi. apply forEachSet_get; [done|].
  intros j q Hij Hj Heq.
  apply (availableInFolder_NoDup _ folder) in Hnd.
  assert (i = j); [|lia].
  apply (NoDup_lookup _ i j p.(id) Hnd); rewrite list_lookup_fmap.
  - by rewrite Hi.
  - rewrite Hj. simpl. by f_equal.
Qed.

Lemma saveBorrowChanges_rejects (procurements : list Procurement)
    (m : BorrowEdit.t) (w : World) :
  borrowEditModal w = Some m →
  BorrowEdit.borrowedBy m = "" ∨ BorrowEdit.division m = "" →
  saveBorrowChanges procurements w =
  (Returned tt, addToast (toast_error "Please fill in all required fields") w).
Proof.
  intros Hm Hempty. unfold saveBorrowChanges, bind, getBorrowEditModal.
  rewrite Hm. by destruct Hempty as [-> | ->]; [|rewrite orb_true_r].
Qed.

Lemma saveBorrowChanges_first_call (procurements : list Procurement)
    (m : BorrowEdit.t) (w : World) :
  borrowEditModal w = Some m →
  BorrowEdit.borrowedBy m ≠ "" → BorrowEdit.division m ≠ "" →
  ∃ rest,
    calls (saveBorrowChanges procurements w).2 =
    (calls w ++
     call_updateProcurement (BorrowEdit.procurement m).(id) (borrowPatch m (clock w))
     :: rest)%list.
Proof.
  intros Hm Hb Hd.
  apply JsStringFacts.truthy_true in Hb. apply JsStringFacts.truthy_true in Hd.
  unfold saveBorrowChanges, bind at 1, getBorrowEditModal. rewrite Hm, Hb, Hd. simpl.
  unfold tryCatch, bind at 1, nowISOString, bind at 1.
  unfold updateProcurement at 1, storeCall.
  destruct (faults w) as [|[] fs] eqn:Hf.
  - match goal with |- context [bind ?m ?k ?w1] =>
      destruct (grows_bind m k) with (w := w1) as [rest Hrest] end.
    { apply grows_updateStackNumbersForFolder. }
    { intros _. apply grows_bind; [apply grows_setBorrowEditModal|].
      intros _. apply grows_toast. }
    match type of Hrest with calls (?c).2 = _ => destruct c as [[[]|] w2] end;
      simpl in *; exists rest; by rewrite Hrest, <-app_assoc.
  - simpl. by exists [].
  - match goal with |- context [bind ?m ?k ?w1] =>
      destruct (grows_bind m k) with (w := w1) as [rest Hrest] end.
    { apply grows_updateStackNumbersForFolder. }
    { intros _. apply grows_bind; [apply grows_setBorrowEditModal|].
      intros _. apply grows_toast. }
    match type of Hrest with calls (?c).2 = _ => destruct c as [[[]|] w2] end;
      simpl in *; exists rest; by rewrite Hrest, <-app_assoc.
Qed.
End BorrowFacts.

(** C3. With the borrow dialog open, [saveBorrowChanges] on an empty
    [borrowedBy] or an empty [division] shows a validation message and does
    nothing else: no store call, store and dialog as before. With both
    filled in, its first store call writes status [active], the two fields
    as supplied and [borrowedDate] at the current time; when the writes
    resolve, the stored record carries them. *)
Theorem saveBorrowChanges_validation `{Host} (procurements : list Procurement)
    (m : BorrowEdit.t) (w : World) :
  borrowEditModal w = Some m →
  (BorrowEdit.borrowedBy m = "" ∨ BorrowEdit.division m = "" →
     saveBorrowChanges procurements w =
       (Returned tt, addToast (toast_error "Please fill in all required fields") w)
     ∧ calls (saveBorrowChanges procurements w).2 = calls w
     ∧ store_procurements (saveBorrowChanges procurements w).2 = store_procurements w
     ∧ borrowEditModal (saveBorrowChanges procurements w).2 = Some m)
  ∧ (BorrowEdit.borrowedBy m ≠ "" → BorrowEdit.division m ≠ "" →
     (∃ rest,
        calls (saveBorrowChanges procurements w).2 =
        (calls w ++
         call_updateProcurement (BorrowEdit.procurement m).(id)
           (mkPatch (Some active) (Some (BorrowEdit.borrowedBy m))
                    (Some (BorrowEdit.division m)) (Some (clock w)) None None)
         :: rest)%list)
     ∧ (faults w = [] →
        ∀ p, p ∈ store_procurements w → p.(id) = (BorrowEdit.procurement m).(id) →
        ∃ p', p' ∈ store_procurements (saveBorrowChanges procurements w).2
              ∧ p'.(id) = p.(id)
              ∧ p'.(status) = active
              ∧ p'.(borrowedBy) = Some (BorrowEdit.borrowedBy m)
              ∧ p'.(division) = Some (BorrowEdit.division m)
              ∧ p'.(borrowedDate) = Some (clock w))).
Proof.
  intros Hm. split.
  - intros Hempty. rewrite (saveBorrowChanges_rejects procurements m w Hm Hempty).
    by split_and!.
  - intros Hb Hd. split.
    + by apply saveBorrowChanges_first_call.
    + intros Hf p Hp Hid.
      destruct (saveBorrowChanges_run procurements m w Hm Hb Hd Hf)
        as (w' & -> & Hstore & _ & _).
      simpl. rewrite Hstore.
      eexists. split; [by apply list_elem_of_fmap_2|].
      rewrite evolve_id, evolve_cons. cbn [fst snd].
      destruct (evolve_stackPatch
                  (renumberWrites procurements (BorrowEdit.procurement m).(folderId))
                  (patchRecord (BorrowEdit.procurement m).(id) (borrowPatch m (clock w)) p)
                  (renumberWrites_stackPatch _ _)) as (-> & -> & -> & ->).
      unfold patchRecord. by rewrite bool_decide_eq_true_2.
Qed.

Lemma saveBorrowChanges_validation_witness :
  saveBorrowChanges (H:=plainHost) [firstInStack]
    (freshWorld [firstInStack] [] (Some (BorrowEdit.mk firstInStack "Ann" "")))
  = (Returned tt,
     addToast (toast_error "Please fill in all required fields")
       (freshWorld [firstInStack] [] (Some (BorrowEdit.mk firstInStack "Ann" ""))))
  ∧ ∃ rest,
      calls (saveBorrowChanges (H:=plainHost) [firstInStack; secondInStack] borrowingFirst).2
      = call_updateProcurement "a1"
          (mkPatch (Some active) (Some "Ann") (Some "Records")
                   (Some "2026-01-01T00:00:00.000Z") None None) :: rest.
Proof.
  split.
  - refine (proj1 (proj1 (saveBorrowChanges_validation (H:=plainHost) [firstInStack]
                    (BorrowEdit.mk firstInStack "Ann" "") _ _) _)).
    + reflexivity.
    + right. reflexivity.
  - refine (proj1 (proj2 (saveBorrowChanges_validation (H:=plainHost)
                    [firstInStack; secondInStack]
                    (BorrowEdit.mk firstInStack "Ann" "Records") borrowingFirst _) _ _)).
    + reflexivity.
    + discriminate.
    + discriminate.
Defined.

(** C2, on the code. The renumbering after the first write of
    [saveBorrowChanges] still reads the array of the render in which the
    record was archived: it writes the record its position in the folder
    and does not count it among the borrowed records whose stack number it
    clears. When all writes have resolved the record is stored as borrowed
    with a stack number. *)
Theorem borrowed_record_keeps_stack_number `{Host} (procurements : list Procurement)
    (r : Procurement) (who dv : string) (w : World) :
  NoDup (id <$> procurements) → r ∈ procurements → r.(status) = archived →
  store_procurements w = procurements → faults w = [] →
  borrowEditModal w = Some (BorrowEdit.mk r who dv) → who ≠ "" → dv ≠ "" →
  ∃ w' r' i,
    saveBorrowChanges procurements w = (Returned tt, w')
    ∧ availableInFolder procurements r.(folderId) !! i = Some r
    ∧ r' ∈ store_procurements w'
    ∧ r'.(id) = r.(id)
    ∧ r'.(status) = active
    ∧ r'.(stackNumber) = Some (Z.of_nat i + 1).
Proof.
  intros Hnd Hr Harch Hstore Hf Hm Hwho Hdv.
  destruct (saveBorrowChanges_run procurements _ w Hm Hwho Hdv Hf)
    as (w' & Hrun & Hstore' & _ & _).
  simpl in Hstore'. rewrite Hstore in Hstore'.
  assert (r ∈ availableInFolder procurements r.(folderId)) as Hin.
  { rewrite availableInFolder_perm. by apply list_elem_of_filter. }
  apply list_elem_of_lookup_1 in Hin as [i Hi].
  exists w', (evolve ((r.(id), borrowPatch (BorrowEdit.mk r who dv) (clock w))
                      :: renumberWrites procurements r.(folderId)) r), i.
  split_and!; [done|done| | | |].
  - rewrite Hstore'. by apply list_elem_of_fmap_2.
  - apply evolve_id.
  - rewrite evolve_cons. cbn [fst snd].
    destruct (evolve_stackPatch (renumberWrites procurements r.(folderId))
                (patchRecord r.(id) (borrowPatch (BorrowEdit.mk r who dv) (clock w)) r)
                (renumberWrites_stackPatch _ _)) as (-> & _).
    unfold patchRecord. by rewrite bool_decide_eq_true_2.
  - rewrite evolve_cons. cbn [fst snd].
    apply renumberWrites_archived; [done|done|done|apply patchRecord_id|].
    by apply calculateStackNumbers_get.
Qed.

(** Borrowing the first of two stacked records of folder X: it stays at
    stack number 1 as a borrowed record. *)
Lemma borrowed_record_keeps_stack_number_witness :
  ∃ w' r' i,
    saveBorrowChanges (H:=plainHost) [firstInStack; secondInStack] borrowingFirst
      = (Returned tt, w')
    ∧ availableInFolder (H:=plainHost) [firstInStack; secondInStack] "X" !! i
      = Some firstInStack
    ∧ r' ∈ store_procurements w'
    ∧ r'.(id) = "a1"
    ∧ r'.(status) = active
    ∧ r'.(stackNumber) = Some (Z.of_nat i + 1).
Proof.
  apply (borrowed_record_keeps_stack_number (H:=plainHost)
           [firstInStack; secondInStack] firstInStack "Ann" "Records" borrowingFirst).
  - apply (bool_decide_unpack _). vm_compute. exact I.
  - left.
  - reflexivity.
  - reflexivity.
  - reflexivity.
  - reflexivity.
  - discriminate.
  - discriminate.
Defined.

(** the store after that run, record by record, and the writes that led
    to it: none clears a stack number *)
Lemma borrowing_first_of_stack :
  (λ p, (p.(id), p.(status), p.(stackNumber))) <$>
    store_procurements
      (saveBorrowChanges (H:=plainHost) [firstInStack; secondInStack] borrowingFirst).2
  = [("a1", active, Some 1); ("a2", archived, Some 2)]
  ∧ calls (saveBorrowChanges (H:=plainHost) [firstInStack; secondInStack] borrowingFirst).2
  = [call_updateProcurement "a1"
       (mkPatch (Some active) (Some "Ann") (Some "Records")
                (Some "2026-01-01T00:00:00.000Z") None None);
     call_updateProcurement "a1" (stackPatch (Some 1));
     call_updateProcurement "a2" (stackPatch (Some 2))].
Proof. split; reflexivity. Qed.

(** ** User management *)

Lemma findUser_unique (users : list User.t) (u : User.t) :
  NoDup (User.id <$> users) → u ∈ users → findUser users (User.id u) = Some u.
Proof.
  intros Hnd Hu. unfold findUser.
  destruct (list_find_elem_of (λ x, User.id x = User.id u) users u Hu eq_refl)
    as [[i x] Hfind].
  rewrite Hfind. simpl. f_equal.
  apply list_find_Some in Hfind as (Hi & Hid & _).
  apply list_elem_of_lookup_1 in Hu as [j Hj].
  assert (i = j) as ->; [|congruence].
  apply (NoDup_lookup _ i j (User.id u) Hnd); rewrite list_lookup_fmap.
  - rewrite Hi. simpl. by f_equal.
  - by rewrite Hj.
Qed.

(** C4. Asking [handleDeleteUser] for the id of the user with address
    [admin@gmail.com], or [toggleStatus] for that user, shows an error and
    returns before any store call: the log of store calls and the stored
    users are as before, whatever the user would answer to the confirm
    dialog and whatever status the account has. *)
Theorem primordial_admin_protected (users : list User.t) (u : User.t) (w : World) :
  User.email u = "admin@gmail.com" →
  (NoDup (User.id <$> users) → u ∈ users →
     handleDeleteUser users (User.id u) w =
       (Returned tt, addToast (toast_error "Cannot delete the main Admin user.") w)
     ∧ calls (handleDeleteUser users (User.id u) w).2 = calls w
     ∧ store_users (handleDeleteUser users (User.id u) w).2 = store_users w)
  ∧ toggleStatus u w =
      (Returned tt, addToast (toast_error "Cannot change status of main Admin user.") w)
  ∧ calls (toggleStatus u w).2 = calls w
  ∧ store_users (toggleStatus u w).2 = store_users w.
Proof.
  intros Hmail.
  assert (toggleStatus u w =
      (Returned tt, addToast (toast_error "Cannot change status of main Admin user.") w))
    as Htoggle.
  { unfold toggleStatus. by rewrite bool_decide_eq_true_2. }
  split_and!; [|done|by rewrite Htoggle..].
  intros Hnd Hu.
  assert (handleDeleteUser users (User.id u) w =
       (Returned tt, addToast (toast_error "Cannot delete the main Admin user.") w))
    as Hdelete.
  { unfold handleDeleteUser. rewrite findUser_unique by done. simpl.
    rewrite bool_decide_eq_true_2; [done|by f_equal]. }
  by rewrite Hdelete.
Qed.

Lemma primordial_admin_protected_witness :
  calls (handleDeleteUser [clerk; mainAdmin] "u0"
           (freshWorld [] [clerk; mainAdmin] None)).2 = []
  ∧ calls (toggleStatus mainAdmin (freshWorld [] [clerk; mainAdmin] None)).2 = [].
Proof.
  destruct (primordial_admin_protected [clerk; mainAdmin] mainAdmin
              (freshWorld [] [clerk; mainAdmin] None) eq_refl)
    as (Hdelete & _ & Htoggle & _).
  split; [|exact Htoggle].
  apply Hdelete.
  - apply (bool_decide_unpack _). vm_compute. exact I.
  - right. left.
Defined.

(** an ordinary user, by contrast, is deleted once the dialog is confirmed *)
Lemma handleDeleteUser_clerk :
  calls (handleDeleteUser [clerk; mainAdmin] "u1"
           (freshWorld [] [clerk; mainAdmin] None)).2 = [call_deleteUser "u1"]
  ∧ store_users (handleDeleteUser [clerk; mainAdmin] "u1"
                   (freshWorld [] [clerk; mainAdmin] None)).2 = [mainAdmin].
Proof. split; reflexivity. Qed.

(** * Further properties of the screens *)

(** ** Pages *)

Lemma ceilDiv_bounds (a b : Z) :
  0 ≤ a → 0 < b → a ≤ ceilDiv a b * b < a + b.
Proof.
  intros Ha Hb. unfold ceilDiv.
  pose proof (Z.div_mod (- a) b ltac:(lia)) as Hdm.
  pose proof (Z.mod_pos_bound (- a) b Hb) as Hm. nia.
Qed.

Lemma slice_pages {A} (l : list A) (size n : nat) :
  (0 < size)%nat →
  mjoin ((λ p : nat, JsArray.slice l ((Z.of_nat p - 1) * Z.of_nat size)
                                      (Z.of_nat p * Z.of_nat size)) <$> seq 1 n)
  = take (n * size) l.
Proof.
  intros Hsize. induction n as [|n IH]; [done|].
  rewrite seq_S, fmap_app, join_app, IH. simpl. rewrite app_nil_r.
  rewrite JsArrayFacts.slice_in_range by lia.
  replace (Z.to_nat (Z.of_nat (S n) * Z.of_nat size - (Z.of_nat (S n) - 1) * Z.of_nat size))
    with size by lia.
  replace (Z.to_nat ((Z.of_nat (S n) - 1) * Z.of_nat size)) with (n * size)%nat by lia.
  rewrite take_take_drop. f_equal. lia.
Qed.

Lemma slice_page_length {A} (l : list A) (size : nat) (p : Z) :
  (0 < size)%nat →
  1 ≤ p ≤ ceilDiv (Z.of_nat (length l)) (Z.of_nat size) →
  (0 < length (JsArray.slice l ((p - 1) * Z.of_nat size) (p * Z.of_nat size)) ≤ size)%nat.
Proof.
  intros Hsize Hp.
  pose proof (ceilDiv_bounds (Z.of_nat (length l)) (Z.of_nat size) ltac:(lia) ltac:(lia)).
  rewrite JsArrayFacts.slice_in_range by nia.
  rewrite length_take, length_drop. nia.
Qed.

(** X1. The pages [1 .. totalPages] of the record list, one after the
    other, are the filtered list: no record is left out or shown twice.
    Each of these pages holds between one and twenty records, and there is
    no page exactly when the list is empty. The user list is paged the same
    way by tens. *)
Theorem pages_cover_list (filtered : list Procurement) (users : list User.t) :
  mjoin ((λ p : nat, paginatedProcurements filtered (Z.of_nat p))
           <$> seq 1 (Z.to_nat (totalPages filtered))) = filtered
  ∧ (∀ p, 1 ≤ p ≤ totalPages filtered →
          (0 < length (paginatedProcurements filtered p) ≤ 20)%nat)
  ∧ (totalPages filtered = 0 ↔ filtered = [])
  ∧ mjoin ((λ p : nat, paginatedUsers users (Z.of_nat p))
           <$> seq 1 (Z.to_nat (totalUserPages users))) = users
  ∧ (∀ p, 1 ≤ p ≤ totalUserPages users →
          (0 < length (paginatedUsers users p) ≤ 10)%nat).
Proof.
  pose proof (ceilDiv_bounds (Z.of_nat (length filtered)) 20 ltac:(lia) ltac:(lia)) as Hf.
  pose proof (ceilDiv_bounds (Z.of_nat (length users)) 10 ltac:(lia) ltac:(lia)) as Hu.
  split_and!.
  - unfold paginatedProcurements, itemsPerPage.
    rewrite (slice_pages filtered 20) by lia.
    apply take_ge. unfold totalPages, itemsPerPage. lia.
  - intros p Hp. apply (slice_page_length filtered 20 p); [lia|done].
  - unfold totalPages, itemsPerPage. split.
    + intros H0. rewrite H0 in Hf. apply nil_length_inv. lia.
    + by intros ->.
  - unfold paginatedUsers, userItemsPerPage.
    rewrite (slice_pages users 10) by lia.
    apply take_ge. unfold totalUserPages, userItemsPerPage. lia.
  - intros p Hp. apply (slice_page_length users 10 p); [lia|done].
Qed.
(** ** Filtering, search and the status menu *)

Lemma toLowerChar_idemp (c : ascii) :
  JsString.toLowerChar (JsString.toLowerChar c) = JsString.toLowerChar c.
Proof. destruct c as [[] [] [] [] [] [] [] []]; reflexivity. Qed.

Lemma toLowerCase_idemp (s : string) :
  JsString.toLowerCase (JsString.toLowerCase s) = JsString.toLowerCase s.
Proof.
  induction s as [|c s IH]; simpl; [done|]. by rewrite toLowerChar_idemp, IH.
Qed.

Section ListFacts.
Context `{Host}.

(** X2. Filtering and sorting neither lose nor repeat a record: the list
    holds each record that passes the criteria as often as the collection
    does. After [clearFilters] that is every record, whatever the state was
    before; the screen shows the first twenty of them, the newest first. *)
Theorem clearFilters_lists_everything (procurements : list Procurement)
    (st : ListState) :
  filteredProcurements procurements (ls_filters st) (ls_statusFilters st)
    (ls_sortField st) (ls_sortDirection st)
  ≡ₚ filter (λ p, matchesFilters (ls_filters st) (ls_statusFilters st) p = true) procurements
  ∧ filteredProcurements procurements
      (ls_filters (clearFilters st)) (ls_statusFilters (clearFilters st))
      (ls_sortField (clearFilters st)) (ls_sortDirection (clearFilters st))
    ≡ₚ procurements
  ∧ shownProcurements procurements (clearFilters st)
    = take 20 (filteredProcurements procurements
                 (ProcurementFilters.mk "" "" "" "" "" "" "") [] byDate asc)
  ∧ ((∀ p, p ∈ procurements → is_Some (Date_getTime p.(dateAdded))) →
     StronglySorted
       (λ a b, default 0 (Date_getTime b.(dateAdded)) ≤
               default 0 (Date_getTime a.(dateAdded)))
       (filteredProcurements procurements
          (ProcurementFilters.mk "" "" "" "" "" "" "") [] byDate asc)).
Proof.
  split_and!.
  - apply JsArrayFacts.sort_perm.
  - unfold filteredProcurements. rewrite JsArrayFacts.sort_perm. simpl.
    rewrite filter_all; [done|]. intros p _. apply matchesFilters_cleared.
  - unfold shownProcurements, paginatedProcurements, itemsPerPage. simpl.
    rewrite JsArrayFacts.slice_in_range by lia. simpl. by rewrite drop_0.
  - apply filteredProcurements_newest_first.
Qed.

(** X3. On text of ASCII characters the search box matches by substring
    and ignores case: with no other criterion set a record is listed
    exactly when the search text, put in lower case, occurs inside its PR
    number or its description put in lower case. The empty search text
    lists every record, and with other criteria set a listed record still
    has to match the search text. *)
Theorem search_is_substring_ignoring_case (procurements : list Procurement)
    (filters : ProcurementFilters.t) (statusFilters : list ProcurementStatus)
    (sortField : SortField) (sortDirection : SortDirection)
    (text : string) (p : Procurement) :
  JsStringMore.isAscii text = true →
  (∀ q, q ∈ procurements →
        JsStringMore.isAscii q.(prNumber) = true
        ∧ JsStringMore.isAscii q.(description) = true) →
  let occursIn (field : string) :=
    ∃ pre post, JsString.toLowerCase field =
                pre +:+ JsString.toLowerCase text +:+ post in
  (p ∈ filteredProcurements procurements
         (ProcurementFilters.mk text "" "" "" "" "" "") [] sortField sortDirection
   ↔ p ∈ procurements ∧ (occursIn p.(prNumber) ∨ occursIn p.(description)))
  ∧ (ProcurementFilters.search filters = text →
     p ∈ filteredProcurements procurements filters statusFilters sortField sortDirection →
     occursIn p.(prNumber) ∨ occursIn p.(description))
  ∧ filteredProcurements procurements
      (ProcurementFilters.mk (JsString.toLowerCase text) "" "" "" "" "" "") []
      sortField sortDirection
    = filteredProcurements procurements
      (ProcurementFilters.mk text "" "" "" "" "" "") [] sortField sortDirection
  ∧ (text = "" →
     filteredProcurements procurements
       (ProcurementFilters.mk text "" "" "" "" "" "") [] sortField sortDirection
     ≡ₚ procurements).
Proof.
  intros _ _ occursIn. split_and!.
  - rewrite filteredProcurements_elem_of. unfold matchesFilters. cbn.
    rewrite !andb_true_r, orb_true_iff, !includes_spec. tauto.
  - intros <- Hin. apply filteredProcurements_elem_of in Hin as [Hm _].
    unfold matchesFilters in Hm. cbn zeta in Hm.
    repeat (apply andb_true_iff in Hm as [Hm _]).
    by rewrite orb_true_iff, !includes_spec in Hm.
  - apply filteredProcurements_ext. intros q. unfold matchesFilters. cbn.
    by rewrite toLowerCase_idemp.
  - intros ->. apply filteredProcurements_all. intros q _.
    apply matchesFilters_cleared.
Qed.
End ListFacts.

(** the search text [pr-R1] finds the record with PR number [PR-r1] *)
Lemma search_is_substring_ignoring_case_witness :
  day1Record
  ∈ filteredProcurements (H:=plainHost) [day1Record; day2Record]
      (ProcurementFilters.mk "pr-R1" "" "" "" "" "" "") [] byDate asc.
Proof.
  destruct (search_is_substring_ignoring_case (H:=plainHost) [day1Record; day2Record]
              noFilters [] byDate asc "pr-R1" day1Record) as (Hiff & _).
  - reflexivity.
  - intros q Hq.
    apply elem_of_cons in Hq as [->|Hq]; [by split|].
    apply elem_of_cons in Hq as [->|Hq]; [by split|].
    by apply elem_of_nil in Hq.
  - apply Hiff. split; [left|]. left. by exists "", "".
Defined.

Lemma toggleStatusFilter_elem_of (st s : ProcurementStatus)
    (prev : list ProcurementStatus) :
  s ∈ toggleStatusFilter st prev ↔ (if decide (s = st) then s ∉ prev else s ∈ prev).
Proof.
  unfold toggleStatusFilter. destruct (decide (st ∈ prev)) as [Hin|Hnin].
  - rewrite bool_decide_eq_true_2 by done. rewrite list_elem_of_filter.
    destruct (decide (s = st)) as [->|Hne]; [tauto|tauto].
  - rewrite bool_decide_eq_false_2 by done.
    rewrite elem_of_app, list_elem_of_singleton.
    destruct (decide (s = st)) as [->|Hne]; [tauto|tauto].
Qed.

(** X4. Ticking a status in the status menu turns its membership in the
    selection over and leaves the other status alone; a selection without
    repetition stays one. Ticking the same status twice lists the same
    records as before. *)
Theorem toggleStatusFilter_flips `{Host} (st : ProcurementStatus)
    (prev : list ProcurementStatus) (procurements : list Procurement)
    (filters : ProcurementFilters.t) (sortField : SortField)
    (sortDirection : SortDirection) :
  (st ∈ toggleStatusFilter st prev ↔ st ∉ prev)
  ∧ (∀ s, s ≠ st → (s ∈ toggleStatusFilter st prev ↔ s ∈ prev))
  ∧ (NoDup prev → NoDup (toggleStatusFilter st prev))
  ∧ filteredProcurements procurements filters
      (toggleStatusFilter st (toggleStatusFilter st prev)) sortField sortDirection
    = filteredProcurements procurements filters prev sortField sortDirection.
Proof.
  split_and!.
  - rewrite toggleStatusFilter_elem_of. by rewrite decide_True.
  - intros s Hne. rewrite toggleStatusFilter_elem_of. by rewrite decide_False.
  - intros Hnd. unfold toggleStatusFilter.
    destruct (decide (st ∈ prev)) as [Hin|Hnin].
    + rewrite bool_decide_eq_true_2 by done. by apply NoDup_filter.
    + rewrite bool_decide_eq_false_2 by done. apply NoDup_app.
      split_and!; [done| |apply NoDup_singleton].
      intros x Hx ->%list_elem_of_singleton. done.
  - apply filteredProcurements_ext. intros p. unfold matchesFilters.
    assert (∀ s, s ∈ toggleStatusFilter st (toggleStatusFilter st prev) ↔ s ∈ prev)
      as Hmem.
    { intros s. rewrite toggleStatusFilter_elem_of.
      destruct (decide (s = st)) as [Heq|Hne].
      - subst s. rewrite toggleStatusFilter_elem_of, decide_True by done.
        destruct (decide (st ∈ prev)); tauto.
      - by rewrite toggleStatusFilter_elem_of, decide_False. }
    assert (bool_decide (length (toggleStatusFilter st (toggleStatusFilter st prev)) = 0%nat)
            = bool_decide (length prev = 0%nat)) as ->.
    { apply bool_decide_ext. split; intros Hlen; apply nil_length_inv in Hlen.
      - destruct prev as [|s prev]; [done|].
        assert (s ∈ toggleStatusFilter st (toggleStatusFilter st (s :: prev))) as Hs
          by (apply Hmem; left).
        rewrite Hlen in Hs. by apply elem_of_nil in Hs.
      - rewrite Hlen. unfold toggleStatusFilter.
        rewrite (bool_decide_eq_false_2 (st ∈ [])) by apply not_elem_of_nil.
        rewrite bool_decide_eq_true_2 by (simpl; left).
        simpl. rewrite filter_cons, decide_False by (by intros ?). done. }
    assert (bool_decide (p.(status) ∈ toggleStatusFilter st (toggleStatusFilter st prev))
            = bool_decide (p.(status) ∈ prev)) as ->
      by (apply bool_decide_ext, Hmem).
    done.
Qed.
(** ** Selection of rows *)

Lemma JsSet_add_elem_of (x y : string) (s : list string) :
  y ∈ JsSet.add x s ↔ y = x ∨ y ∈ s.
Proof.
  unfold JsSet.add. destruct (decide (x ∈ s)) as [Hin|Hnin].
  - rewrite bool_decide_eq_true_2 by done. split; [by right|by intros [->|?]].
  - rewrite bool_decide_eq_false_2 by done.
    rewrite elem_of_app, list_elem_of_singleton. tauto.
Qed.

Lemma JsSet_add_NoDup (x : string) (s : list string) :
  NoDup s → NoDup (JsSet.add x s).
Proof.
  intros Hnd. unfold JsSet.add. destruct (decide (x ∈ s)) as [Hin|Hnin].
  - by rewrite bool_decide_eq_true_2.
  - rewrite bool_decide_eq_false_2 by done. apply NoDup_app.
    split_and!; [done| |apply NoDup_singleton].
    intros y Hy ->%list_elem_of_singleton. done.
Qed.

Lemma JsSet_fold_elem_of (l acc : list string) (y : string) :
  y ∈ foldl (λ s x, JsSet.add x s) acc l ↔ y ∈ acc ∨ y ∈ l.
Proof.
  revert acc. induction l as [|x l IH]; intros acc; simpl.
  - rewrite elem_of_nil. tauto.
  - rewrite IH, JsSet_add_elem_of, elem_of_cons. tauto.
Qed.

Lemma JsSet_fold_NoDup (l acc : list string) :
  NoDup acc → NoDup (foldl (λ s x, JsSet.add x s) acc l).
Proof.
  revert acc. induction l as [|x l IH]; intros acc Hnd; simpl; [done|].
  by apply IH, JsSet_add_NoDup.
Qed.

(** the members that were there stay in front, in their order *)
Lemma JsSet_fold_prefix (l acc : list string) :
  ∃ rest, foldl (λ s x, JsSet.add x s) acc l = (acc ++ rest)%list ∧ ∀ y, y ∈ rest → y ∈ l.
Proof.
  revert acc. induction l as [|x l IH]; intros acc; simpl.
  - exists []. by rewrite app_nil_r.
  - destruct (IH (JsSet.add x acc)) as (rest & -> & Hrest).
    unfold JsSet.add. destruct (bool_decide (x ∈ acc)).
    + exists rest. split; [done|]. intros y Hy. right. by apply Hrest.
    + exists (x :: rest). split; [by rewrite <-app_assoc|].
      intros y [->|Hy]%elem_of_cons; [left|right; by apply Hrest].
Qed.

Lemma JsSet_ofArray_NoDup_id (l : list string) : NoDup l → JsSet.ofArray l = l.
Proof.
  unfold JsSet.ofArray.
  assert (∀ acc, NoDup (acc ++ l)%list → foldl (λ s x, JsSet.add x s) acc l = (acc ++ l)%list)
    as Hgen.
  { induction l as [|x l IH]; intros acc Hnd; simpl; [by rewrite app_nil_r|].
    apply NoDup_app in Hnd as Hparts. destruct Hparts as (Hacc & Hdisj & Hl).
    unfold JsSet.add. rewrite bool_decide_eq_false_2.
    - rewrite IH; [by rewrite <-app_assoc|]. by rewrite <-app_assoc.
    - intros Hin. apply (Hdisj x Hin). left. }
  intros Hnd. by apply (Hgen []).
Qed.

Lemma selectAllChecked_true (paginated : list Procurement) (selectedIds : list string) :
  selectAllChecked paginated selectedIds = true ↔
  paginated ≠ [] ∧ ∀ p, p ∈ paginated → p.(id) ∈ selectedIds.
Proof.
  unfold selectAllChecked.
  rewrite andb_true_iff, bool_decide_eq_true, forallb_forall. split.
  - intros [Hlen Hall]. split; [intros ->; simpl in Hlen; lia|].
    intros p Hp. apply list_elem_of_In in Hp.
    by apply Hall, bool_decide_eq_true in Hp.
  - intros [Hne Hall]. split; [destruct paginated; simpl; [done|lia]|].
    intros p Hp. apply bool_decide_eq_true, Hall. by apply list_elem_of_In.
Qed.

(** X5. Ticking the box in the table head adds the ids of the rows on
    screen to the selection, once each and behind the ids already selected;
    unticking it removes exactly those ids. With rows on screen the box
    then reads ticked, respectively unticked, and unticking after ticking
    gives back a selection that held none of the rows and no repetition. *)
Theorem handleSelectAll_spec (paginated : list Procurement) (prev : list string) :
  (∀ k, k ∈ handleSelectAll paginated true prev ↔ k ∈ prev ∨ k ∈ id <$> paginated)
  ∧ NoDup (handleSelectAll paginated true prev)
  ∧ (∀ k, k ∈ handleSelectAll paginated false prev ↔ k ∈ prev ∧ k ∉ id <$> paginated)
  ∧ (paginated ≠ [] →
     selectAllChecked paginated (handleSelectAll paginated true prev) = true
     ∧ selectAllChecked paginated (handleSelectAll paginated false prev) = false)
  ∧ (NoDup prev → (∀ k, k ∈ prev → k ∉ id <$> paginated) →
     handleSelectAll paginated false (handleSelectAll paginated true prev) = prev).
Proof.
  assert (∀ k, k ∈ handleSelectAll paginated true prev ↔ k ∈ prev ∨ k ∈ id <$> paginated)
    as Hon.
  { intros k. unfold handleSelectAll, JsSet.ofArray.
    rewrite JsSet_fold_elem_of, elem_of_nil, elem_of_app. tauto. }
  assert (∀ k, k ∈ handleSelectAll paginated false prev ↔ k ∈ prev ∧ k ∉ id <$> paginated)
    as Hoff.
  { intros k. unfold handleSelectAll. rewrite list_elem_of_filter. tauto. }
  split_and!; [done| |done| |].
  - apply JsSet_fold_NoDup. constructor.
  - intros Hne. split.
    + apply selectAllChecked_true. split; [done|].
      intros p Hp. apply Hon. right. by apply list_elem_of_fmap_2.
    + apply not_true_is_false. intros [_ Hall]%selectAllChecked_true.
      destruct paginated as [|p rest]; [done|].
      assert (p.(id) ∈ handleSelectAll (p :: rest) false prev) as Hin
        by (apply Hall; left).
      apply Hoff in Hin as [_ Hnot]. apply Hnot. left.
  - intros Hnd Hdisj. unfold handleSelectAll at 2. unfold JsSet.ofArray.
    rewrite foldl_app.
    pose proof (JsSet_ofArray_NoDup_id prev Hnd) as Hprev.
    unfold JsSet.ofArray in Hprev. rewrite Hprev.
    destruct (JsSet_fold_prefix (id <$> paginated) prev) as (rest & -> & Hrest).
    unfold handleSelectAll. rewrite filter_app.
    rewrite (filter_all _ prev) by done.
    assert (filter (λ i, i ∉ id <$> paginated) rest = []) as ->; [|by rewrite app_nil_r].
    clear -Hrest. induction rest as [|x rest IH]; [done|].
    rewrite filter_cons, decide_False.
    + apply IH. intros y Hy. apply Hrest. by right.
    + intros Hnot. apply Hnot, Hrest. left.
Qed.

Lemma handleSelectAll_spec_witness :
  handleSelectAll (sampleRecords 2) false
    (handleSelectAll (sampleRecords 2) true ["r1"; "r2"]) = ["r1"; "r2"].
Proof.
  destruct (handleSelectAll_spec (sampleRecords 2) ["r1"; "r2"]) as (_ & _ & _ & _ & Hback).
  apply Hback.
  - apply (bool_decide_unpack _). vm_compute. exact I.
  - intros k Hk. apply (bool_decide_unpack _).
    apply elem_of_cons in Hk as [->|Hk]; [vm_compute; exact I|].
    apply list_elem_of_singleton in Hk as ->. vm_compute. exact I.
Defined.


(** ** Renumbering a folder *)

Lemma applyPatch_stackPatch_same (p : Procurement) :
  applyPatch (stackPatch p.(stackNumber)) p = p.
Proof. by destruct p. Qed.

(** writes of the stack number change nothing but the stack number *)
Lemma evolve_stackPatch_shape (us : list (string * ProcurementPatch)) (p : Procurement) :
  Forall (λ ku, ∃ n, ku.2 = stackPatch n) us →
  evolve us p = applyPatch (stackPatch (evolve us p).(stackNumber)) p.
Proof.
  intros Hall. revert p.
  induction Hall as [|[k u] us [n Hn] Hall IH]; intros p.
  - simpl. by rewrite applyPatch_stackPatch_same.
  - simpl in Hn. subst u. rewrite evolve_cons. cbn [fst snd].
    rewrite (IH (patchRecord k (stackPatch n) p)) at 1.
    unfold patchRecord at 2. by destruct (bool_decide _).
Qed.

Lemma evolve_clear (us : list (string * ProcurementPatch)) (q : Procurement) :
  Forall (λ ku, ku.2 = stackPatch None) us →
  q.(stackNumber) = None ∨ (∃ ku, ku ∈ us ∧ ku.1 = q.(id)) →
  (evolve us q).(stackNumber) = None.
Proof.
  intros Hall. revert q.
  induction Hall as [|[k u] us Hu Hall IH]; intros q Hq.
  - destruct Hq as [Hq|(ku & Hku & _)]; [done|by apply elem_of_nil in Hku].
  - simpl in Hu. subst u. rewrite evolve_cons. cbn [fst snd].
    apply IH. unfold patchRecord.
    destruct (decide (q.(id) = k)) as [Hk|Hk].
    + rewrite bool_decide_eq_true_2 by done. by left.
    + rewrite bool_decide_eq_false_2 by done.
      destruct Hq as [Hq|(ku & Hku & Hid)]; [by left|right].
      apply elem_of_cons in Hku as [->|Hku]; [done|]. by exists ku.
Qed.

Lemma fmap_fixed {A} (g : A → A) (l : list A) :
  (∀ x, x ∈ l → g x = x) → g <$> l = l.
Proof.
  induction l as [|x l IH]; intros Hg; [done|].
  rewrite fmap_cons, Hg by left. f_equal. apply IH. intros y Hy. apply Hg. by right.
Qed.

Section RenumberInvariant.
Context `{Host}.

Lemma availableInFolder_elem_of (procurements : list Procurement) (folder : string)
    (p : Procurement) :
  p ∈ availableInFolder procurements folder ↔
  p ∈ procurements ∧ p.(folderId) = folder ∧ p.(status) = archived.
Proof. rewrite availableInFolder_perm, list_elem_of_filter. tauto. Qed.

Lemma renumberWrites_keys (procurements : list Procurement) (folder : string)
    (ku : string * ProcurementPatch) :
  ku ∈ renumberWrites procurements folder →
  ∃ p, p ∈ procurements ∧ p.(id) = ku.1 ∧ p.(folderId) = folder.
Proof.
  unfold renumberWrites. rewrite elem_of_app, !list_elem_of_omap.
  intros [([k n] & Hin & [= <-])|(proc & Hin & Hf)].
  - simpl. assert (k ∈ JsMap.keys (calculateStackNumbers procurements folder)) as Hk
      by (by apply (list_elem_of_fmap_2 fst _ (k, n))).
    apply forEachSet_keys, list_elem_of_fmap in Hk as (p & -> & Hp).
    apply availableInFolder_elem_of in Hp as (? & ? & ?). by exists p.
  - apply list_elem_of_filter in Hin as [[Hfolder _] Hin].
    destruct (bool_decide _); [|done]. injection Hf as <-. by exists proc.
Qed.

(** the writes of the positions go to records the rendered array holds as
    archived *)
Lemma positionWrites_archived (procurements : list Procurement) (folder : string)
    (kn : string * Z) :
  kn ∈ JsMap.entries (calculateStackNumbers procurements folder) →
  ∃ q, q ∈ procurements ∧ q.(id) = kn.1 ∧ q.(status) = archived.
Proof.
  intros Hkn.
  assert (kn.1 ∈ JsMap.keys (calculateStackNumbers procurements folder)) as Hk
    by (by apply (list_elem_of_fmap_2 fst _ kn)).
  apply forEachSet_keys, list_elem_of_fmap in Hk as (q & Hq & Hin).
  apply availableInFolder_elem_of in Hin as (? & _ & ?). by exists q.
Qed.

(** What a renumbering whose writes resolve makes of a stored record
    [s], in terms of the record [r] with the id of [s] in the rendered
    array, whatever the store holds by then. *)
Lemma renumber_effect (procurements : list Procurement) (folder : string)
    (s : Procurement) :
  NoDup (id <$> procurements) →
  evolve (renumberWrites procurements folder) s
  = applyPatch (stackPatch (evolve (renumberWrites procurements folder) s).(stackNumber)) s
  ∧ (∀ i r, availableInFolder procurements folder !! i = Some r → r.(id) = s.(id) →
       (evolve (renumberWrites procurements folder) s).(stackNumber)
       = Some (Z.of_nat i + 1))
  ∧ (∀ r, r ∈ procurements → r.(id) = s.(id) →
       r.(folderId) = folder → r.(status) = active →
       (evolve (renumberWrites procurements folder) s).(stackNumber)
       = if bool_decide (r.(stackNumber) ≠ None) then None else s.(stackNumber))
  ∧ ((∀ r, r ∈ procurements → r.(id) = s.(id) → r.(folderId) ≠ folder) →
     evolve (renumberWrites procurements folder) s = s).
Proof.
  intros Hnd. split_and!.
  - apply evolve_stackPatch_shape, renumberWrites_stackPatch.
  - intros i r Hi Hid.
    assert (r ∈ availableInFolder procurements folder) as Hin
      by (by eapply list_elem_of_lookup_2).
    apply availableInFolder_elem_of in Hin as (Hr & Hfolder & Harch). subst folder.
    apply renumberWrites_archived; [done..|]. by apply calculateStackNumbers_get.
  - intros r Hr Hid Hfolder Hact. unfold renumberWrites. rewrite evolve_app.
    rewrite (evolve_other _ s).
    + destruct (decide (r.(stackNumber) = None)) as [Hnone|Hsome].
      * rewrite bool_decide_eq_false_2 by (by intros ?).
        rewrite evolve_other; [done|].
        apply Forall_forall. intros ku Hku Hkey.
        apply list_elem_of_omap in Hku as (proc & Hproc & Hf).
        apply list_elem_of_filter in Hproc as [_ Hproc].
        destruct (decide (proc.(stackNumber) = None)) as [Hp|Hp].
        -- by rewrite bool_decide_eq_false_2 in Hf by (by intros ?).
        -- rewrite bool_decide_eq_true_2 in Hf by done. injection Hf as <-.
           simpl in Hkey.
           assert (proc = r) as -> by (eapply NoDup_id_inj; [done..|congruence]).
           done.
      * rewrite bool_decide_eq_true_2 by done.
        apply evolve_clear.
        -- apply Forall_forall. intros ku Hku.
           apply list_elem_of_omap in Hku as (proc & _ & Hf).
           destruct (bool_decide _); [|done]. by injection Hf as <-.
        -- right. exists (r.(id), stackPatch None). split; [|done].
           apply list_elem_of_omap. exists r. split.
           ++ by apply list_elem_of_filter.
           ++ by rewrite bool_decide_eq_true_2.
    + apply Forall_forall. intros ku Hku Hkey.
      apply list_elem_of_omap in Hku as (kn & Hkn & [= <-]). simpl in Hkey.
      apply positionWrites_archived in Hkn as (q & Hq & Hqid & Harch).
      assert (q = r) as -> by (eapply NoDup_id_inj; [done..|congruence]).
      congruence.
  - intros Hother. apply evolve_other, Forall_forall. intros ku Hku Hkey.
    apply renumberWrites_keys in Hku as (q & Hq & Hqid & Hqf).
    apply (Hother q); [done|congruence|done].
Qed.

(** X7. [updateStackNumbersForFolder] reads the array of the render in
    which its handler was created (ids unique) and writes to the store as
    it is by then. When its writes resolve, no record is added or removed
    and only stack numbers change: a stored record whose id the rendered
    array holds as archived in the folder gets the place of that record in
    the order of [calculateStackNumbers], first place 1; one whose id the
    rendered array holds as borrowed in the folder loses its stack number
    if the rendered record had one and is not written otherwise; a record
    whose id the rendered array does not hold in the folder stays as it
    was. *)
Theorem renumber_gives_positions (procurements : list Procurement)
    (folder : string) (w : World) :
  NoDup (id <$> procurements) →
  faults w = [] →
  ∃ w',
    updateStackNumbersForFolder procurements folder w = (Returned tt, w')
    ∧ length (store_procurements w') = length (store_procurements w)
    ∧ (∀ j s, store_procurements w !! j = Some s →
         ∃ s', store_procurements w' !! j = Some s'
               ∧ s' = applyPatch (stackPatch s'.(stackNumber)) s
               ∧ (∀ i r, availableInFolder procurements folder !! i = Some r →
                         r.(id) = s.(id) →
                         s'.(stackNumber) = Some (Z.of_nat i + 1))
               ∧ (∀ r, r ∈ procurements → r.(id) = s.(id) →
                       r.(folderId) = folder → r.(status) = active →
                       s'.(stackNumber)
                       = if bool_decide (r.(stackNumber) ≠ None)
                         then None else s.(stackNumber))
               ∧ ((∀ r, r ∈ procurements → r.(id) = s.(id) → r.(folderId) ≠ folder) →
                  s' = s))
    ∧ toasts w' = toasts w.
Proof.
  intros Hnd Hf.
  rewrite updateStackNumbersForFolder_run by done.
  eexists. split; [done|].
  rewrite writeAll_store, writeAll_toasts, length_fmap.
  split_and!; [done| |done].
  intros j s Hj.
  exists (evolve (renumberWrites procurements folder) s).
  split; [by rewrite list_lookup_fmap, Hj|].
  by apply renumber_effect.
Qed.

(** X8. Borrowing leaves a gap in the stack. When the writes of
    [saveBorrowChanges] resolve for a record that was archived, the records
    of its folder that are still archived are the ones that were archived
    before, the borrowed one left out, and each carries the number of its
    place in the order before the borrowing: the records behind the
    borrowed one are not moved up. Nothing else about them changes, and the
    records of other folders stay as they were. *)
Theorem borrow_leaves_gap (procurements : list Procurement)
    (r : Procurement) (who dv : string) (w : World) :
  NoDup (id <$> procurements) → r ∈ procurements → r.(status) = archived →
  store_procurements w = procurements → faults w = [] →
  borrowEditModal w = Some (BorrowEdit.mk r who dv) → who ≠ "" → dv ≠ "" →
  ∃ w' k,
    saveBorrowChanges procurements w = (Returned tt, w')
    ∧ availableInFolder procurements r.(folderId) !! k = Some r
    ∧ length (store_procurements w') = length procurements
    ∧ (∀ p', p' ∈ store_procurements w' →
         p'.(folderId) = r.(folderId) → p'.(status) = archived →
         ∃ i p, availableInFolder procurements r.(folderId) !! i = Some p
                ∧ i ≠ k
                ∧ p' = applyPatch (stackPatch (Some (Z.of_nat i + 1))) p)
    ∧ (∀ i p, availableInFolder procurements r.(folderId) !! i = Some p → i ≠ k →
         applyPatch (stackPatch (Some (Z.of_nat i + 1))) p ∈ store_procurements w')
    ∧ (∀ p, p ∈ procurements → p.(folderId) ≠ r.(folderId) →
         p ∈ store_procurements w').
Proof.
  intros Hnd Hr Harch Hstore Hf Hm Hwho Hdv.
  destruct (saveBorrowChanges_run procurements _ w Hm Hwho Hdv Hf)
    as (w' & Hrun & Hstore' & _ & _).
  simpl in Hstore'. rewrite Hstore in Hstore'.
  set (first := (r.(id), borrowPatch (BorrowEdit.mk r who dv) (clock w))) in *.
  set (us := renumberWrites procurements r.(folderId)) in *.
  assert (r ∈ availableInFolder procurements r.(folderId)) as Hin
    by (by apply availableInFolder_elem_of).
  apply list_elem_of_lookup_1 in Hin as [k Hk].
  (* a record other than the borrowed one only meets the renumbering *)
  assert (∀ p, p ∈ procurements → p ≠ r → evolve (first :: us) p = evolve us p) as Hrest.
  { intros p Hp Hne. rewrite evolve_cons. unfold patchRecord, first. cbn [fst snd].
    rewrite bool_decide_eq_false_2; [done|].
    intros Hid. apply Hne. by eapply NoDup_id_inj. }
  (* the borrowed one ends as a borrowed record *)
  assert ((evolve (first :: us) r).(status) = active) as Hborrowed.
  { rewrite evolve_cons.
    destruct (evolve_stackPatch us (patchRecord first.1 first.2 r)
                (renumberWrites_stackPatch _ _)) as (-> & _).
    unfold patchRecord, first. cbn [fst snd]. by rewrite bool_decide_eq_true_2. }
  (* an archived record of the folder gets its place *)
  assert (∀ i p, availableInFolder procurements r.(folderId) !! i = Some p → i ≠ k →
                 p ∈ procurements ∧ p ≠ r
                 ∧ evolve (first :: us) p
                   = applyPatch (stackPatch (Some (Z.of_nat i + 1))) p) as Hplace.
  { intros i p Hi Hik.
    assert (p ∈ procurements) as Hp.
    { eapply availableInFolder_elem_of, list_elem_of_lookup_2, Hi. }
    assert (p ≠ r) as Hne.
    { intros ->. apply Hik.
      apply (NoDup_lookup (id <$> availableInFolder procurements r.(folderId))
               i k r.(id)).
      - by apply availableInFolder_NoDup.
      - by rewrite list_lookup_fmap, Hi.
      - by rewrite list_lookup_fmap, Hk. }
    split_and!; [done..|]. rewrite Hrest by done.
    destruct (renumber_effect procurements r.(folderId) p Hnd) as (Hshape & Hpos & _).
    fold us in Hshape, Hpos. rewrite Hshape. by rewrite (Hpos i p). }
  exists w', k. rewrite Hstore', length_fmap.
  split_and!; [done..| | |].
  - intros p' Hp' Hfolder Hst.
    apply list_elem_of_fmap in Hp' as (p & -> & Hp).
    destruct (decide (p.(id) = r.(id))) as [Hid|Hid].
    { assert (p = r) as -> by (by eapply NoDup_id_inj). congruence. }
    assert (p ≠ r) as Hne by congruence.
    rewrite Hrest in Hfolder, Hst |- * by done.
    destruct (renumber_effect procurements r.(folderId) p Hnd) as (Hshape & _).
    fold us in Hshape. rewrite Hshape in Hfolder, Hst. simpl in Hfolder, Hst.
    assert (p ∈ availableInFolder procurements r.(folderId)) as Hpin
      by (by apply availableInFolder_elem_of).
    apply list_elem_of_lookup_1 in Hpin as [i Hi].
    assert (i ≠ k) as Hik by (intros ->; congruence).
    exists i, p. split_and!; [done..|].
    destruct (Hplace i p Hi Hik) as (_ & _ & Heq). by rewrite <-Heq, Hrest.
  - intros i p Hi Hik. destruct (Hplace i p Hi Hik) as (Hp & _ & <-).
    by apply list_elem_of_fmap_2.
  - intros p Hp Hfolder.
    assert (p ≠ r) as Hne by congruence.
    apply list_elem_of_fmap. exists p. split; [|done].
    rewrite Hrest by done.
    destruct (renumber_effect procurements r.(folderId) p Hnd) as (_ & _ & _ & Hstay).
    fold us in Hstay. symmetry. apply Hstay. intros q Hq Hid.
    assert (q = p) as -> by (by eapply NoDup_id_inj). done.
Qed.
End RenumberInvariant.

(** the renumbering as [saveBorrowChanges] reaches it: the array of the
    render still holds the first of two stacked records as archived while
    the store holds it as borrowed; it is written its old place *)
Lemma renumber_gives_positions_witness :
  ∃ w',
    updateStackNumbersForFolder (H:=plainHost) [firstInStack; secondInStack] "X"
      (freshWorld
         [applyPatch
            (borrowPatch (BorrowEdit.mk firstInStack "Ann" "Records")
               "2026-01-01T00:00:00.000Z")
            firstInStack;
          secondInStack]
         [] None)
    = (Returned tt, w')
    ∧ (λ p, (p.(id), p.(status), p.(stackNumber))) <$> store_procurements w'
      = [("a1", active, Some 1); ("a2", archived, Some 2)].
Proof.
  destruct (renumber_gives_positions (H:=plainHost) [firstInStack; secondInStack] "X"
              (freshWorld
                 [applyPatch
                    (borrowPatch (BorrowEdit.mk firstInStack "Ann" "Records")
                       "2026-01-01T00:00:00.000Z")
                    firstInStack;
                  secondInStack]
                 [] None))
    as (w' & Hrun & _).
  - apply (bool_decide_unpack _). vm_compute. exact I.
  - reflexivity.
  - exists w'. split; [exact Hrun|].
    vm_compute in Hrun. injection Hrun as <-. reflexivity.
Defined.

(** borrowing the first of two stacked records of folder X: the second
    stays at number 2 *)
Lemma borrow_leaves_gap_witness :
  ∃ w' k,
    saveBorrowChanges (H:=plainHost) [firstInStack; secondInStack] borrowingFirst
    = (Returned tt, w')
    ∧ availableInFolder (H:=plainHost) [firstInStack; secondInStack] "X" !! k
      = Some firstInStack
    ∧ length (store_procurements w') = 2%nat
    ∧ (∀ p', p' ∈ store_procurements w' →
         p'.(folderId) = "X" → p'.(status) = archived →
         ∃ i p, availableInFolder (H:=plainHost) [firstInStack; secondInStack] "X" !! i
                = Some p
                ∧ i ≠ k
                ∧ p' = applyPatch (stackPatch (Some (Z.of_nat i + 1))) p)
    ∧ (∀ i p, availableInFolder (H:=plainHost) [firstInStack; secondInStack] "X" !! i
              = Some p → i ≠ k →
         applyPatch (stackPatch (Some (Z.of_nat i + 1))) p ∈ store_procurements w')
    ∧ (∀ p, p ∈ [firstInStack; secondInStack] → p.(folderId) ≠ "X" →
         p ∈ store_procurements w').
Proof.
  apply (borrow_leaves_gap (H:=plainHost)
           [firstInStack; secondInStack] firstInStack "Ann" "Records" borrowingFirst).
  - apply (bool_decide_unpack _). vm_compute. exact I.
  - left.
  - reflexivity.
  - reflexivity.
  - reflexivity.
  - reflexivity.
  - discriminate.
  - discriminate.
Defined.

(** ** Status change workflow *)

Section StatusChangeFacts.
Context `{Host}.

(** a record that the rendered array holds as borrowed ends a renumbering
    without a stack number, whatever the store holds by then *)
Lemma renumberWrites_borrowed_later (procurements : list Procurement)
    (p q : Procurement) :
  NoDup (id <$> procurements) → p ∈ procurements → p.(status) = active →
  q.(id) = p.(id) → q.(stackNumber) = p.(stackNumber) →
  (evolve (renumberWrites procurements p.(folderId)) q).(stackNumber) = None.
Proof.
  intros Hnd Hp Hact Hid Hsn. unfold renumberWrites. rewrite evolve_app.
  rewrite (evolve_other _ q).
  - apply evolve_clear.
    + apply Forall_forall. intros ku Hku.
      apply list_elem_of_omap in Hku as (proc & _ & Hf).
      destruct (bool_decide _); [|done]. by injection Hf as <-.
    + destruct (decide (p.(stackNumber) = None)) as [Hnone|Hsome];
        [left; congruence|right].
      exists (p.(id), stackPatch None). split; [|done].
      apply list_elem_of_omap. exists p. split.
      * by apply list_elem_of_filter.
      * by rewrite bool_decide_eq_true_2.
  - apply Forall_forall. intros ku Hku Hku'.
    apply list_elem_of_omap in Hku as ([k n] & Hkn & [= <-]). simpl in Hku'.
    assert (k ∈ JsMap.keys (calculateStackNumbers procurements p.(folderId))) as Hk
      by (by apply (list_elem_of_fmap_2 fst _ (k, n))).
    apply forEachSet_keys, list_elem_of_fmap in Hk as (r & -> & Hr).
    apply availableInFolder_elem_of in Hr as (Hr & _ & Harch).
    assert (r = p) as -> by (eapply NoDup_id_inj; [done..|congruence]).
    congruence.
Qed.

Lemma confirmReturnFile_run (procurements : list Procurement)
    (procurement : Procurement) (ui : StatusDialog) (w : World) :
  faults w = [] →
  confirmReturnFile procurements procurement ui w =
  (Returned {| pendingStatusChange := None; isStatusConfirmOpen := false |},
   addToast (toast_success "File returned and marked as archived")
     (writeAll ((procurement.(id), returnPatch (clock w))
                :: renumberWrites procurements procurement.(folderId)) w)).
Proof.
  intros Hf. unfold confirmReturnFile, tryCatchWith, bind, nowISOString.
  rewrite updateProcurement_run by done.
  by rewrite updateStackNumbersForFolder_run by (by apply write_faults).
Qed.

(** X9. Returning a borrowed record: when the writes resolve,
    [confirmReturnFile] leaves the record stored as archived with
    [returnDate] at the current time and without a stack number. The
    renumbering that follows the first write still reads the array of the
    render in which the record was borrowed, so it gives the record no
    position and clears a stack number the record may have had. The
    confirmation dialog is closed and a success message is shown. *)
Theorem returned_record_has_no_stack_number (procurements : list Procurement)
    (r : Procurement) (ui : StatusDialog) (w : World) :
  NoDup (id <$> procurements) → r ∈ procurements → r.(status) = active →
  store_procurements w = procurements → faults w = [] →
  ∃ w' r',
    confirmReturnFile procurements r ui w =
      (Returned {| pendingStatusChange := None; isStatusConfirmOpen := false |}, w')
    ∧ r' ∈ store_procurements w'
    ∧ r'.(id) = r.(id)
    ∧ r'.(status) = archived
    ∧ r'.(returnDate) = Some (clock w)
    ∧ r'.(stackNumber) = None
    ∧ (∀ k, JsMap.get k (calculateStackNumbers procurements r.(folderId)) ≠ None →
            k ≠ r.(id))
    ∧ toasts w' = (toasts w ++ [toast_success "File returned and marked as archived"])%list.
Proof.
  intros Hnd Hr Hact Hstore Hf.
  rewrite confirmReturnFile_run by done.
  set (us := (r.(id), returnPatch (clock w)) :: renumberWrites procurements r.(folderId)).
  exists (addToast (toast_success "File returned and marked as archived") (writeAll us w)),
         (evolve us r).
  assert (patchRecord r.(id) (returnPatch (clock w)) r = applyPatch (returnPatch (clock w)) r)
    as Hfirst by (unfold patchRecord; by rewrite bool_decide_eq_true_2).
  split_and!.
  - done.
  - change (store_procurements (addToast _ (writeAll us w)))
      with (store_procurements (writeAll us w)).
    rewrite writeAll_store, Hstore. by apply list_elem_of_fmap_2.
  - apply evolve_id.
  - unfold us. rewrite evolve_cons. cbn [fst snd].
    rewrite evolve_stackPatch_shape by apply renumberWrites_stackPatch.
    by rewrite Hfirst.
  - unfold us. rewrite evolve_cons. cbn [fst snd].
    rewrite evolve_stackPatch_shape by apply renumberWrites_stackPatch.
    by rewrite Hfirst.
  - unfold us. rewrite evolve_cons. cbn [fst snd].
    apply renumberWrites_borrowed_later; [done..| |]; by rewrite Hfirst.
  - intros k Hk ->. apply Hk. apply eq_None_not_Some.
    unfold calculateStackNumbers.
    rewrite JsMapFacts.get_is_Some, forEachSet_keys.
    intros (q & Hid & Hq)%list_elem_of_fmap.
    apply availableInFolder_elem_of in Hq as (Hq & _ & Harch).
    assert (q = r) as -> by (by eapply NoDup_id_inj).
    congruence.
  - change (toasts (addToast ?t (writeAll us w)))
      with (toasts (writeAll us w) ++ [t])%list.
    by rewrite writeAll_toasts.
Qed.

(** X10. Choosing "borrowed" for a record and confirming only opens the
    borrow dialog, filled with the borrower and division the record still
    carries (empty when it carries none); no store call is made and the
    confirmation closes. For a record without a stored borrower or division
    the save button of the untouched dialog then issues no write either.
    Confirming with nothing pending does nothing. *)
Theorem borrow_needs_dialog (procurements : list Procurement) (p : Procurement)
    (ui : StatusDialog) (w : World) :
  let opened :=
    setBorrowEditModal
      (Some (BorrowEdit.mk p (default "" p.(borrowedBy)) (default "" p.(division)))) w in
  proceedStatusChange procurements (handleStatusChange p active ui) w
  = (Returned {| pendingStatusChange := None; isStatusConfirmOpen := false |}, opened.2)
  ∧ calls opened.2 = calls w
  ∧ store_procurements opened.2 = store_procurements w
  ∧ (p.(borrowedBy) = None ∨ p.(division) = None →
     calls (saveBorrowChanges procurements opened.2).2 = calls w
     ∧ store_procurements (saveBorrowChanges procurements opened.2).2 = store_procurements w
     ∧ toasts (saveBorrowChanges procurements opened.2).2
       = (toasts w ++ [toast_error "Please fill in all required fields"])%list)
  ∧ proceedStatusChange procurements
      {| pendingStatusChange := None; isStatusConfirmOpen := isStatusConfirmOpen ui |} w
    = (Returned {| pendingStatusChange := None;
                   isStatusConfirmOpen := isStatusConfirmOpen ui |}, w).
Proof.
  intros opened. split_and!; [done..| |done].
  intros Hnone.
  rewrite (saveBorrowChanges_rejects procurements
             (BorrowEdit.mk p (default "" p.(borrowedBy)) (default "" p.(division)))
             opened.2 eq_refl); [done|].
  simpl. destruct Hnone as [-> | ->]; [by left|by right].
Qed.
End StatusChangeFacts.

Lemma returned_record_has_no_stack_number_witness :
  ∃ w' r',
    confirmReturnFile (H:=plainHost) [firstInStack; borrowedRecord] borrowedRecord
      (handleStatusChange borrowedRecord archived (mkStatusDialog None false))
      (freshWorld [firstInStack; borrowedRecord] [] None)
      = (Returned {| pendingStatusChange := None; isStatusConfirmOpen := false |}, w')
    ∧ r' ∈ store_procurements w'
    ∧ r'.(id) = "b1"
    ∧ r'.(status) = archived
    ∧ r'.(returnDate) = Some "2026-01-01T00:00:00.000Z"
    ∧ r'.(stackNumber) = None
    ∧ (∀ k, JsMap.get k (calculateStackNumbers (H:=plainHost)
                           [firstInStack; borrowedRecord] "X") ≠ None → k ≠ "b1")
    ∧ toasts w' = [toast_success "File returned and marked as archived"].
Proof.
  apply (returned_record_has_no_stack_number (H:=plainHost)
           [firstInStack; borrowedRecord] borrowedRecord).
  - apply (bool_decide_unpack _). vm_compute. exact I.
  - right. left.
  - reflexivity.
  - reflexivity.
  - reflexivity.
Defined.

(** ** Deleting records *)

Lemma deleteEach_state (ids : list string) (s : ListScreen) :
  deleteCalls (deleteEach ids s).2 = (deleteCalls s ++ ids)%list
  ∧ selectedIds (deleteEach ids s).2 = selectedIds s
  ∧ deleteId (deleteEach ids s).2 = deleteId s
  ∧ isBulkDeleteDialogOpen (deleteEach ids s).2 = isBulkDeleteDialogOpen s
  ∧ toasts (world (deleteEach ids s).2) = toasts (world s)
  ∧ faults (world (deleteEach ids s).2) = drop (length ids) (faults (world s)).
Proof.
  revert s. induction ids as [|key rest IH]; intros s.
  - simpl. by rewrite app_nil_r, drop_0.
  - simpl. destruct (deleteProcurement key s) as [ok s1] eqn:Hdel.
    specialize (IH s1). destruct (deleteEach rest s1) as [oks s2]. simpl in *.
    destruct IH as (-> & -> & -> & -> & -> & ->).
    unfold deleteProcurement in Hdel.
    destruct (faults (world s)) as [|[] fs] eqn:Hf; injection Hdel as <- <-; simpl;
      rewrite ?Hf, <-?app_assoc; simpl; by rewrite ?drop_nil.
Qed.

(** what a bulk delete leaves in the store: the records none of whose
    requests resolved *)
Lemma deleteEach_store (ids : list string) (s : ListScreen) (p : Procurement) :
  p ∈ store_procurements (world (deleteEach ids s).2) ↔
  p ∈ store_procurements (world s)
  ∧ ∀ j, ids !! j = Some p.(id) → faults (world s) !! j = Some true.
Proof.
  revert s. induction ids as [|key rest IH]; intros s.
  - simpl. split; [|tauto]. intros Hp. split; [done|]. intros j Hj.
    by rewrite lookup_nil in Hj.
  - simpl. destruct (deleteProcurement key s) as [ok s1] eqn:Hdel.
    specialize (IH s1). destruct (deleteEach rest s1) as [oks s2]. simpl in *.
    rewrite IH. unfold deleteProcurement in Hdel.
    destruct (faults (world s)) as [|[] fs] eqn:Hf; injection Hdel as <- <-; simpl;
      rewrite ?Hf; simpl.
    + rewrite list_elem_of_filter. split.
      * intros [[Hne Hp] Hall]. split; [done|]. intros [|j] Hj; simpl in Hj.
        -- injection Hj as ->. done.
        -- specialize (Hall j Hj). by rewrite lookup_nil in Hall.
      * intros [Hp Hall]. split_and!; [|done|].
        -- intros Heq. specialize (Hall 0%nat). simpl in Hall.
           rewrite Heq in Hall. by specialize (Hall eq_refl).
        -- intros j Hj. specialize (Hall (S j) Hj). by rewrite lookup_nil in Hall.
    + split.
      * intros [Hp Hall]. split; [done|]. intros [|j] Hj; simpl; [done|].
        by apply Hall.
      * intros [Hp Hall]. split; [done|]. intros j Hj. by apply (Hall (S j)).
    + rewrite list_elem_of_filter. split.
      * intros [[Hne Hp] Hall]. split; [done|]. intros [|j] Hj; simpl in Hj.
        -- injection Hj as ->. done.
        -- simpl. by apply Hall.
      * intros [Hp Hall]. split_and!; [|done|].
        -- intros Heq. specialize (Hall 0%nat). simpl in Hall.
           rewrite Heq in Hall. by specialize (Hall eq_refl).
        -- intros j Hj. by apply (Hall (S j)).
Qed.

Lemma deleteEach_ok (ids : list string) (s : ListScreen) :
  (deleteEach ids s).1 = true ↔
  ∀ j, (j < length ids)%nat → faults (world s) !! j ≠ Some true.
Proof.
  revert s. induction ids as [|key rest IH]; intros s.
  - simpl. split; [|done]. intros _ j Hj. lia.
  - simpl. destruct (deleteProcurement key s) as [ok s1] eqn:Hdel.
    specialize (IH s1). destruct (deleteEach rest s1) as [oks s2]. simpl in *.
    rewrite andb_true_iff, IH. unfold deleteProcurement in Hdel.
    destruct (faults (world s)) as [|[] fs] eqn:Hf; injection Hdel as <- <-; simpl;
      rewrite ?Hf; simpl.
    + split; [|done]. intros _ j _. by rewrite lookup_nil.
    + split; [by intros [? _]|]. intros Hall. by specialize (Hall 0%nat ltac:(lia)).
    + split.
      * intros [_ Hall] [|j] Hj; simpl; [done|]. apply Hall. lia.
      * intros Hall. split; [done|]. intros j Hj. apply (Hall (S j)). lia.
Qed.

(** X11. [handleBulkDelete] with nothing selected does nothing. Otherwise
    it sends one delete request per selected id, in the order of the
    selection, whether or not some of them reject. A record stays in the
    store exactly when none of the requests for its id resolved. When all
    resolve, the selection is emptied, the dialog closed and the message
    counts the selected ids; when one rejects, the selection and the dialog
    stay as they are and one failure message is shown, although the records
    whose requests resolved are gone. *)
Theorem handleBulkDelete_spec (s : ListScreen) :
  let s' := handleBulkDelete s in
  let allResolve :=
    ∀ j, (j < length (selectedIds s))%nat → faults (world s) !! j ≠ Some true in
  (selectedIds s = [] → s' = s)
  ∧ deleteCalls s' = (deleteCalls s ++ selectedIds s)%list
  ∧ (∀ p, p ∈ store_procurements (world s') ↔
          p ∈ store_procurements (world s)
          ∧ ∀ j, selectedIds s !! j = Some p.(id) → faults (world s) !! j = Some true)
  ∧ (selectedIds s ≠ [] → allResolve →
     selectedIds s' = [] ∧ isBulkDeleteDialogOpen s' = false
     ∧ toasts (world s') =
       (toasts (world s) ++
        [toast_success (pretty (length (selectedIds s)) +:+ " records deleted successfully")])%list)
  ∧ (selectedIds s ≠ [] → ¬ allResolve →
     selectedIds s' = selectedIds s
     ∧ isBulkDeleteDialogOpen s' = isBulkDeleteDialogOpen s
     ∧ toasts (world s') =
       (toasts (world s) ++ [toast_error "Failed to delete some records"])%list).
Proof.
  intros s' allResolve. subst s' allResolve. unfold handleBulkDelete.
  destruct (decide (selectedIds s = [])) as [Hnil|Hne].
  { rewrite bool_decide_eq_true_2 by (by rewrite Hnil).
    split_and!; [done|by rewrite Hnil, app_nil_r| |done|done].
    intros p. split; [|tauto]. intros Hp. split; [done|]. intros j Hj.
    by rewrite Hnil, lookup_nil in Hj. }
  rewrite bool_decide_eq_false_2 by (by intros ?%nil_length_inv).
  pose proof (deleteEach_state (selectedIds s) s)
    as (Hcalls & Hkeep & Hdid & Hopen & Htoasts & _).
  pose proof (deleteEach_store (selectedIds s) s) as Hstore.
  pose proof (deleteEach_ok (selectedIds s) s) as Hok.
  destruct (deleteEach (selectedIds s) s) as [[] s1]; simpl in *.
  - split_and!; [done|done|done| |].
    + intros _ _. by rewrite Htoasts.
    + intros _ Hnot. exfalso. apply Hnot. by apply Hok.
  - split_and!; [done|done|done| |].
    + intros _ Hall. apply Hok in Hall. done.
    + intros _ _. by rewrite Htoasts.
Qed.
(** X12. [handleDeleteConfirm] with no record marked for deletion does
    nothing. Otherwise it sends one delete request for the marked id. When
    the request resolves, the records with that id are gone from the store,
    the mark is cleared, every copy of the id leaves the selection and the
    other selected ids stay; when it rejects, the store, the mark and the
    selection stay as they are and a failure message is shown. *)
Theorem handleDeleteConfirm_spec (s : ListScreen) (key : string) :
  (deleteId s = None → handleDeleteConfirm s = s)
  ∧ (deleteId s = Some key → key ≠ "" →
     deleteCalls (handleDeleteConfirm s) = (deleteCalls s ++ [key])%list
     ∧ (head (faults (world s)) ≠ Some true →
        store_procurements (world (handleDeleteConfirm s))
          = filter (λ p, p.(id) ≠ key) (store_procurements (world s))
        ∧ deleteId (handleDeleteConfirm s) = None
        ∧ (key ∉ selectedIds (handleDeleteConfirm s))
        ∧ (∀ k, k ≠ key →
                (k ∈ selectedIds (handleDeleteConfirm s) ↔ k ∈ selectedIds s))
        ∧ toasts (world (handleDeleteConfirm s))
          = (toasts (world s) ++ [toast_success "Record deleted successfully"])%list)
     ∧ (head (faults (world s)) = Some true →
        store_procurements (world (handleDeleteConfirm s)) = store_procurements (world s)
        ∧ deleteId (handleDeleteConfirm s) = Some key
        ∧ selectedIds (handleDeleteConfirm s) = selectedIds s
        ∧ toasts (world (handleDeleteConfirm s))
          = (toasts (world s) ++ [toast_error "Failed to delete record"])%list)).
Proof.
  split; [intros Hnone; unfold handleDeleteConfirm; by rewrite Hnone|].
  intros Hsome Hkey. apply JsStringFacts.truthy_true in Hkey.
  unfold handleDeleteConfirm, deleteProcurement. rewrite Hsome, Hkey. simpl.
  destruct (faults (world s)) as [|[] fs] eqn:Hf; simpl.
  - split_and!; [done| |by intros [=]]. intros _. split_and!; [done|done| | |done].
    + destruct (bool_decide (key ∈ selectedIds s)) eqn:Hin.
      * rewrite list_elem_of_filter. tauto.
      * by apply bool_decide_eq_false in Hin.
    + intros k Hne. destruct (bool_decide (key ∈ selectedIds s)); [|done].
      rewrite list_elem_of_filter. tauto.
  - split_and!; [done|by intros []|]. intros _. done.
  - split_and!; [done| |by intros [=]]. intros _. split_and!; [done|done| | |done].
    + destruct (bool_decide (key ∈ selectedIds s)) eqn:Hin.
      * rewrite list_elem_of_filter. tauto.
      * by apply bool_decide_eq_false in Hin.
    + intros k Hne. destruct (bool_decide (key ∈ selectedIds s)); [|done].
      rewrite list_elem_of_filter. tauto.
Qed.

(** ** Editing a user *)

Lemma User_apply_formPatch (data : FormData.t) (u : User.t) :
  User.apply (formPatch data) u =
  User.mk (User.id u) (FormData.name data) (FormData.email data)
          (FormData.password data) (FormData.role data) (FormData.status data).
Proof. reflexivity. Qed.

Lemma editSession_form (user : User.t) (changes : list FormControl) (ui : UserDialog) :
  isEditOpen (editSession user changes ui) = true
  ∧ selectedUser (editSession user changes ui) = Some user
  ∧ FormData.status (formData (editSession user changes ui)) = User.status user.
Proof.
  unfold editSession.
  induction changes as [|c changes IH] using rev_ind; [done|].
  rewrite foldl_app. simpl. destruct IH as (IHopen & IHsel & IHstatus).
  split_and!; [done..|]. by destruct c.
Qed.

(** X13. [handleEditUser] does nothing without a selected user. With a form
    that [validateUser] rejects it shows that one message and makes no
    store call. With a valid form it makes exactly one call,
    [updateUser] with the selected user's id and the five fields of the
    form; when the call resolves, every stored user with that id carries
    the fields of the form, the dialog is closed and the form reset; when
    it rejects, nothing is stored and the dialog stays. Saving straight
    after [openEdit] stores the user as it was. The dialog has no control
    for the status: whatever is changed in its four controls after
    [openEdit], a save leaves the stored user with the status its row
    showed. *)
Theorem handleEditUser_spec (ui : UserDialog) (sel : User.t) (w : World) :
  (selectedUser ui = None → handleEditUser ui w = (Returned ui, w))
  ∧ (selectedUser ui = Some sel → ¬ validForm (formData ui) →
     ∃ msg, handleEditUser ui w = (Returned ui, addToast (toast_error msg) w))
  ∧ (selectedUser ui = Some sel → validForm (formData ui) →
     calls (handleEditUser ui w).2
       = (calls w ++ [call_updateUser (User.id sel) (formPatch (formData ui))])%list
     ∧ (head (faults w) ≠ Some true →
        (handleEditUser ui w).1
          = Returned (mkUserDialog false None (FormData.mk "" "" "" User.user User.active))
        ∧ store_users (handleEditUser ui w).2
          = (λ u, if bool_decide (User.id u = User.id sel)
                  then User.mk (User.id u) (FormData.name (formData ui))
                         (FormData.email (formData ui)) (FormData.password (formData ui))
                         (FormData.role (formData ui)) (FormData.status (formData ui))
                  else u) <$> store_users w
        ∧ toasts (handleEditUser ui w).2
          = (toasts w ++ [toast_success "User updated successfully"])%list)
     ∧ (head (faults w) = Some true →
        (handleEditUser ui w).1 = Returned ui
        ∧ store_users (handleEditUser ui w).2 = store_users w
        ∧ toasts (handleEditUser ui w).2
          = (toasts w ++ [toast_error "Failed to update user"])%list))
  ∧ (validForm (formData (openEdit sel ui)) →
     head (faults w) ≠ Some true →
     NoDup (User.id <$> store_users w) → sel ∈ store_users w →
     store_users (handleEditUser (openEdit sel ui) w).2 = store_users w)
  ∧ (∀ changes u,
       u ∈ store_users (handleEditUser (editSession sel changes ui) w).2 →
       User.id u = User.id sel →
       User.status u = User.status sel ∨ u ∈ store_users w).
Proof.
  assert (∀ ui0, selectedUser ui0 = Some sel → validForm (formData ui0) →
    head (faults w) ≠ Some true →
    store_users (handleEditUser ui0 w).2
    = (λ u, if bool_decide (User.id u = User.id sel)
            then User.apply (formPatch (formData ui0)) u else u) <$> store_users w)
    as Hresolved.
  { intros ui0 Hsel Hvalid Hok. unfold handleEditUser, bind. rewrite Hsel.
    destruct (validateUser_cases (formData ui0) w) as [[_ ->]|[Hno _]]; [|done].
    unfold tryCatchWith, bind, updateUser, storeCall.
    by destruct (faults w) as [|[] fs]. }
  split_and!.
  - intros Hnone. unfold handleEditUser. by rewrite Hnone.
  - intros Hsel Hinvalid. unfold handleEditUser, bind. rewrite Hsel.
    destruct (validateUser_cases (formData ui) w) as [[Hyes _]|[_ [msg ->]]]; [done|].
    by exists msg.
  - intros Hsel Hvalid. split_and!.
    + unfold handleEditUser, bind. rewrite Hsel.
      destruct (validateUser_cases (formData ui) w) as [[_ ->]|[Hno _]]; [|done].
      unfold tryCatchWith, bind, updateUser, storeCall.
      by destruct (faults w) as [|[] fs].
    + intros Hok. split_and!.
      * unfold handleEditUser, bind. rewrite Hsel.
        destruct (validateUser_cases (formData ui) w) as [[_ ->]|[Hno _]]; [|done].
        unfold tryCatchWith, bind, updateUser, storeCall.
        by destruct (faults w) as [|[] fs].
      * by rewrite Hresolved.
      * unfold handleEditUser, bind. rewrite Hsel.
        destruct (validateUser_cases (formData ui) w) as [[_ ->]|[Hno _]]; [|done].
        unfold tryCatchWith, bind, updateUser, storeCall.
        by destruct (faults w) as [|[] fs].
    + intros Hfail. unfold handleEditUser, bind. rewrite Hsel.
      destruct (validateUser_cases (formData ui) w) as [[_ ->]|[Hno _]]; [|done].
      unfold tryCatchWith, bind, updateUser, storeCall.
      by destruct (faults w) as [|[] fs].
  - intros Hvalid Hok Hnd Hsel. rewrite Hresolved by done.
    apply fmap_fixed. intros u Hu.
    destruct (decide (User.id u = User.id sel)) as [Hid|Hid].
    + rewrite bool_decide_eq_true_2 by done.
      assert (u = sel) as ->; [|by destruct sel].
      apply list_elem_of_lookup_1 in Hu as [i Hi].
      apply list_elem_of_lookup_1 in Hsel as [j Hj].
      assert (i = j) as ->; [|congruence].
      apply (NoDup_lookup _ i j (User.id sel) Hnd); rewrite list_lookup_fmap.
      * rewrite Hi. simpl. by f_equal.
      * by rewrite Hj.
    + by rewrite bool_decide_eq_false_2.
  - intros changes u Hu Hid.
    destruct (editSession_form sel changes ui) as (_ & Hsel & Hstatus).
    set (ui' := editSession sel changes ui) in *.
    unfold handleEditUser, bind in Hu. rewrite Hsel in Hu.
    destruct (validateUser_cases (formData ui') w) as [[_ Hyes]|[_ [msg Hno]]].
    + rewrite Hyes in Hu.
      unfold tryCatchWith, bind, updateUser, storeCall in Hu.
      destruct (faults w) as [|[] fs]; simpl in Hu; [|by right|].
      * apply list_elem_of_fmap in Hu as (u0 & -> & Hu0).
        destruct (bool_decide (User.id u0 = User.id sel)); [left|by right].
        simpl. exact Hstatus.
      * apply list_elem_of_fmap in Hu as (u0 & -> & Hu0).
        destruct (bool_decide (User.id u0 = User.id sel)); [left|by right].
        simpl. exact Hstatus.
    + rewrite Hno in Hu. by right.
Qed.

(** The row of the clerk is opened for editing and the name is changed:
    the save stores the new name, and the clerk stays active. *)
Lemma handleEditUser_spec_witness :
  store_users
    (handleEditUser (editSession clerk [nameInput "Head Clerk"]
                       (mkUserDialog false None
                          (FormData.mk "" "" "" User.user User.active)))
       (freshWorld [] [clerk; mainAdmin] None)).2
  = [User.mk "u1" "Head Clerk" "clerk@gmail.com" "Clerk123!" User.user User.active;
     mainAdmin].
Proof.
  destruct (handleEditUser_spec
              (editSession clerk [nameInput "Head Clerk"]
                 (mkUserDialog false None
                    (FormData.mk "" "" "" User.user User.active)))
              clerk (freshWorld [] [clerk; mainAdmin] None))
    as (_ & _ & Hvalid & _).
  destruct Hvalid as (_ & Hok & _).
  - reflexivity.
  - unfold validForm. simpl. split_and!; try done.
    + apply JsStringFacts.endsWith_true. reflexivity.
    + lia.
    + exists "C"%char. split; [left|done].
    + exists "1"%char. split; [do 5 right; left|done].
    + exists "!"%char. split; [do 8 right; left|left].
  - destruct Hok as (_ & -> & _); [discriminate|]. reflexivity.
Defined.

(** ** Adding a record *)

Section AddFacts.
Context `{Host}.

Lemma forEachSet_values (l : list Procurement) (i : Z) (m : JsMap.t Z)
    (k : string) (n : Z) :
  JsMap.get k (forEachSet l i m) = Some n →
  JsMap.get k m = Some n ∨ i < n ≤ i + Z.of_nat (length l).
Proof.
  revert i m. induction l as [|p l IH]; intros i m Hget; simpl in *; [by left|].
  apply IH in Hget as [Hget|Hn]; [|right; lia].
  destruct (decide (p.(id) = k)) as [<-|Hne].
  - rewrite JsMapFacts.get_set_eq in Hget. injection Hget as <-. right. lia.
  - rewrite JsMapFacts.get_set_ne in Hget by done. by left.
Qed.

(** X14. The stack number shown before a record is added is the number of
    archived records of the chosen folder plus one, and there is none while
    no folder is chosen or the record is to be borrowed. It lies one above
    every position [calculateStackNumbers] gives in that folder, and when
    the ids are unique it is exactly one more than the number of records
    [calculateStackNumbers] numbers. *)
Theorem previewStackNumber_is_next (procurements : list Procurement)
    (folder : string) (st : ProcurementStatus) :
  (folder = "" ∨ st = active → previewStackNumber procurements folder st = None)
  ∧ (folder ≠ "" →
     previewStackNumber procurements folder archived
       = Some (Z.of_nat (length (availableInFolder procurements folder)) + 1)
     ∧ (∀ k n, JsMap.get k (calculateStackNumbers procurements folder) = Some n →
               ∃ next, previewStackNumber procurements folder archived = Some next
                       ∧ 1 ≤ n < next)
     ∧ (NoDup (id <$> procurements) →
        previewStackNumber procurements folder archived
          = Some (Z.of_nat (length (JsMap.keys (calculateStackNumbers procurements folder))) + 1))).
Proof.
  split.
  - unfold previewStackNumber. intros [-> | ->]; [done|].
    by rewrite andb_false_r.
  - intros Hfolder. apply JsStringFacts.truthy_true in Hfolder.
    assert (previewStackNumber procurements folder archived
            = Some (Z.of_nat (length (availableInFolder procurements folder)) + 1)) as Hprev.
    { unfold previewStackNumber. rewrite Hfolder. simpl.
      by rewrite availableInFolder_perm. }
    split_and!; [done| |].
    + intros k n Hget. apply forEachSet_values in Hget as [Hget|Hn]; [done|].
      eexists. split; [exact Hprev|]. lia.
    + intros Hnd. rewrite Hprev. do 3 f_equal.
      assert (JsMap.keys (calculateStackNumbers procurements folder)
              ≡ₚ id <$> availableInFolder procurements folder) as Hperm.
      { apply NoDup_Permutation.
        - apply calculateStackNumbers_keys_NoDup.
        - by apply availableInFolder_NoDup.
        - intros k. apply forEachSet_keys. }
      by rewrite Hperm, length_fmap.
Qed.
End AddFacts.
Section SubmitFacts.
Context `{Host}.

Lemma handleSubmit_filled (procurements : list Procurement) (form : AddForm.t)
    (s : AddScreen) :
  AddForm.prNumber form ≠ "" → AddForm.description form ≠ "" →
  AddForm.shelfId form ≠ "" → AddForm.cabinetId form ≠ "" →
  AddForm.folderId form ≠ "" →
  handleSubmit procurements form s =
  match addProcurement (submittedData form (clock (a_world s)))
          (orString (from_option User.email "" (currentUser s)) "unknown@example.com")
          (orString (from_option User.name "" (currentUser s)) "Unknown User")
          (setIsLoading true s) with
  | (None, s1) => submitFailed s1
  | (Some newProcurement, s1) =>
      match AddForm.status form with
      | archived =>
          match updateProcurement newProcurement.(id)
                  (stackPatch
                     (Some (Z.of_nat (length (filter
                              (λ p, p.(folderId) = AddForm.folderId form ∧ p.(status) = archived)
                              procurements)) + 1)))
                  (a_world s1) with
          | (Returned _, w2) => submitDone (onAddWorld (λ _, w2) s1)
          | (Thrown, w2) => submitFailed (onAddWorld (λ _, w2) s1)
          end
      | active => submitDone s1
      end
  end.
Proof.
  intros H1 H2 H3 H4 H5.
  apply JsStringFacts.truthy_true in H1, H2, H3, H4, H5.
  unfold handleSubmit. rewrite H1, H2, H3, H4, H5. simpl.
  by rewrite JsArrayFacts.sort_length.
Qed.

(** X15. [handleSubmit] of the add screen with one of PR number,
    description, shelf, cabinet or folder empty shows a validation message
    and does nothing else. With all five filled in it asks the store once
    to create the record: the chosen shelf goes into the field [cabinetId]
    and the chosen cabinet into [shelfId], the urgency is medium and the
    date is the chosen day or else the current time. When the store
    resolves and gives a new id, an archived record is then written the
    previewed stack number, a borrowed one none, and the screen leaves for
    the dashboard. When the create rejects nothing is stored; when only the
    stack number write rejects the record stays stored without a stack
    number. Either way an error is shown and the screen stays. *)
Theorem handleSubmit_spec (procurements : list Procurement) (form : AddForm.t)
    (s : AddScreen) :
  let filled :=
    AddForm.prNumber form ≠ "" ∧ AddForm.description form ≠ "" ∧
    AddForm.shelfId form ≠ "" ∧ AddForm.cabinetId form ≠ "" ∧
    AddForm.folderId form ≠ "" in
  let created := createdRecord (newId s) (submittedData form (clock (a_world s))) in
  let s' := handleSubmit procurements form s in
  (¬ filled →
     s' = onAddWorld (addToast (toast_error "Please fill in all required fields")) s)
  ∧ (filled →
     addCalls s' =
       (addCalls s ++
        [(submittedData form (clock (a_world s)),
          orString (from_option User.email "" (currentUser s)) "unknown@example.com",
          orString (from_option User.name "" (currentUser s)) "Unknown User")])%list
     ∧ isLoading s' = false
     ∧ (faults (a_world s) = [] →
        newId s ∉ id <$> store_procurements (a_world s) →
        store_procurements (a_world s') =
          (store_procurements (a_world s) ++
           [applyPatch
              (stackPatch (previewStackNumber procurements (AddForm.folderId form)
                             (AddForm.status form)))
              created])%list
        ∧ calls (a_world s') =
          (calls (a_world s) ++
           match AddForm.status form with
           | archived =>
               [call_updateProcurement (newId s)
                  (stackPatch (previewStackNumber procurements (AddForm.folderId form)
                                 archived))]
           | active => []
           end)%list
        ∧ navigatedTo s' = Some "/dashboard"
        ∧ toasts (a_world s') =
          (toasts (a_world s) ++ [toast_success "File record added successfully"])%list)
     ∧ (head (faults (a_world s)) = Some true →
        store_procurements (a_world s') = store_procurements (a_world s)
        ∧ calls (a_world s') = calls (a_world s)
        ∧ navigatedTo s' = navigatedTo s
        ∧ toasts (a_world s') =
          (toasts (a_world s) ++
           [toast_error (orString (rejectionMessage s) "Failed to add file record")])%list)
     ∧ (AddForm.status form = archived →
        (∃ fs, faults (a_world s) = false :: true :: fs) →
        store_procurements (a_world s') = (store_procurements (a_world s) ++ [created])%list
        ∧ navigatedTo s' = navigatedTo s
        ∧ toasts (a_world s') =
          (toasts (a_world s) ++
           [toast_error (orString (rejectionMessage s) "Failed to add file record")])%list)).
Proof.
  intros filled created s'. subst filled created s'. split.
  - intros Hnot. unfold handleSubmit.
    destruct (JsString.truthy (AddForm.prNumber form)) eqn:H1; [|done].
    destruct (JsString.truthy (AddForm.description form)) eqn:H2; [|done].
    destruct (JsString.truthy (AddForm.shelfId form)) eqn:H3; [|done].
    destruct (JsString.truthy (AddForm.cabinetId form)) eqn:H4; [|done].
    destruct (JsString.truthy (AddForm.folderId form)) eqn:H5; [|done].
    exfalso. apply Hnot. by rewrite <-!JsStringFacts.truthy_true.
  - intros (H1 & H2 & H3 & H4 & H5).
    assert (JsString.truthy (AddForm.folderId form) = true) as Hfolder
      by (by apply JsStringFacts.truthy_true).
    rewrite handleSubmit_filled by done.
    unfold addProcurement, updateProcurement, storeCall, previewStackNumber.
    rewrite Hfolder.
    split_and!.
    + destruct (faults (a_world s)) as [|[] [|[] fs]] eqn:Hf;
        destruct (AddForm.status form); do 3 (simpl; rewrite ?Hf); done.
    + destruct (faults (a_world s)) as [|[] [|[] fs]] eqn:Hf;
        destruct (AddForm.status form); do 3 (simpl; rewrite ?Hf); done.
    + intros Hf Hfresh.
      destruct (AddForm.status form); do 3 (simpl; rewrite ?Hf);
        [by rewrite app_nil_r|].
      split_and!; [|done..].
      rewrite fmap_app. simpl. f_equal.
      * apply fmap_fixed. intros p Hp. unfold patchRecord.
        rewrite bool_decide_eq_false_2; [done|].
        intros Hid. apply Hfresh. rewrite <-Hid. by apply list_elem_of_fmap_2.
      * unfold patchRecord. by rewrite bool_decide_eq_true_2.
    + intros Hhead. destruct (faults (a_world s)) as [|[] fs] eqn:Hf; [done| |done].
      by do 3 (simpl; rewrite ?Hf).
    + intros Hst [fs Hf]. rewrite Hst. by do 3 (simpl; rewrite ?Hf).
Qed.
End SubmitFacts.

(** ** PR number input *)

Module PrNumberFacts.
Import JsStringMore.

Local Abbreviation chars := String.list_ascii_of_string.

Lemma chars_inj (s t : string) : chars s = chars t → s = t.
Proof.
  intros Heq.
  by rewrite <-(String.string_of_list_ascii_of_string s),
             <-(String.string_of_list_ascii_of_string t), Heq.
Qed.

Lemma chars_app (s t : string) : chars (s +:+ t) = (chars s ++ chars t)%list.
Proof. induction s as [|c s IH]; simpl; [done|by rewrite IH]. Qed.

Lemma length_chars (s : string) : String.length s = length (chars s).
Proof. induction s as [|c s IH]; simpl; [done|by rewrite IH]. Qed.

Lemma chars_removeAll (class : ascii → bool) (s : string) :
  chars (removeAll class s) = filter (λ c, class c = false) (chars s).
Proof.
  induction s as [|c s IH]; simpl; [done|].
  rewrite filter_cons. destruct (class c) eqn:Hc.
  - by rewrite decide_False.
  - rewrite decide_True by done. simpl. by rewrite IH.
Qed.

Lemma chars_substring (s : string) (a b : nat) :
  (a ≤ b)%nat → chars (substring s a b) = take (b - a) (drop a (chars s)).
Proof.
  intros Hab. unfold substring.
  rewrite String.list_ascii_of_string_of_list_ascii.
  by rewrite Nat.min_l, Nat.max_r by lia.
Qed.

Lemma chars_toUpperCase (s : string) : chars (toUpperCase s) = toUpperChar <$> chars s.
Proof. induction s as [|c s IH]; simpl; [done|by rewrite IH]. Qed.

Lemma toUpperChar_allowed (c : ascii) : prAllowed c = true → toUpperChar c = c.
Proof. destruct c as [[] [] [] [] [] [] [] []]; vm_compute; by intros. Qed.

Lemma prGroups_length (r : list ascii) : (length (prGroups r) ≤ 14)%nat.
Proof.
  do 12 (destruct r as [|? r]; [vm_compute; lia|]). cbn. lia.
Qed.

Lemma prGroups_take (r : list ascii) : prGroups (take 11 r) = prGroups r.
Proof. do 12 (destruct r as [|? r]; [reflexivity|]). reflexivity. Qed.

Lemma prGroups_strip (r : list ascii) :
  Forall (λ c, c ≠ "-"%char) r →
  filter (λ c, bool_decide (c = "-"%char) = false) (prGroups r) = take 11 r.
Proof.
  intros Hall.
  assert (∀ t, Forall (λ c, c ≠ "-"%char) t →
               filter (λ c, bool_decide (c = "-"%char) = false) t = t) as Hkeep.
  { intros t Ht. apply filter_all. intros c Hc. apply bool_decide_eq_false.
    rewrite Forall_forall in Ht. by apply Ht. }
  assert (∀ (b : bool) t, Forall (λ c, c ≠ "-"%char) t → (b = false → t = []) →
            filter (λ c, bool_decide (c = "-"%char) = false)
                   (if b then "-"%char :: t else []) = t) as Hgroup.
  { intros [] t Ht Hnil.
    - rewrite filter_cons, decide_False by (by rewrite bool_decide_eq_true_2).
      by apply Hkeep.
    - by rewrite Hnil. }
  unfold prGroups. rewrite !filter_app.
  rewrite Hkeep by (by apply Forall_take).
  rewrite !Hgroup.
  - rewrite app_assoc, take_take_drop. simpl.
    rewrite app_assoc, take_take_drop. simpl.
    by rewrite take_take_drop.
  - by apply Forall_take, Forall_drop.
  - intros Hlen%Nat.ltb_ge. rewrite drop_ge by done. apply take_nil.
  - by apply Forall_take, Forall_drop.
  - intros Hlen%Nat.ltb_ge. rewrite drop_ge by done. apply take_nil.
  - by apply Forall_take, Forall_drop.
  - intros Hlen%Nat.ltb_ge. rewrite drop_ge by done. apply take_nil.
Qed.

Lemma prGroups_elem_of (r : list ascii) (c : ascii) :
  c ∈ prGroups r → c = "-"%char ∨ c ∈ r.
Proof.
  assert (∀ n t, c ∈ take n t → c ∈ t) as Htake.
  { intros n t (i & Hi & _)%elem_of_take. by eapply list_elem_of_lookup_2. }
  assert (∀ n k t, c ∈ take n (drop k t) → c ∈ t) as Hdrop.
  { intros n k t Hin%Htake. apply list_elem_of_lookup_1 in Hin as [i Hi].
    rewrite lookup_drop in Hi. by eapply list_elem_of_lookup_2. }
  unfold prGroups. rewrite !elem_of_app.
  intros [Hin|[Hin|[Hin|Hin]]].
  - right. by eapply Htake.
  - destruct (3 <? length r)%nat; [|by apply elem_of_nil in Hin].
    apply elem_of_cons in Hin as [->|Hin]; [by left|right; by eapply Hdrop].
  - destruct (6 <? length r)%nat; [|by apply elem_of_nil in Hin].
    apply elem_of_cons in Hin as [->|Hin]; [by left|right; by eapply Hdrop].
  - destruct (8 <? length r)%nat; [|by apply elem_of_nil in Hin].
    apply elem_of_cons in Hin as [->|Hin]; [by left|right; by eapply Hdrop].
Qed.

Lemma prGroups_hyphens (r : list ascii) (i : nat) (c : ascii) :
  Forall (λ c, c ≠ "-"%char) r →
  prGroups r !! i = Some c →
  (c = "-"%char ↔ i = 3%nat ∨ i = 7%nat ∨ i = 10%nat).
Proof.
  intros Hall Hi.
  assert (c ∈ r → c ≠ "-"%char) as Hr
    by (intros Hc; rewrite Forall_forall in Hall; by apply Hall).
  revert Hi Hr. clear Hall.
  do 12 (destruct r as [|? r];
         [cbn; intros Hi Hr;
          do 15 (destruct i as [|i];
                 [simpl in Hi; try discriminate; injection Hi as <-;
                  first [ split; [intros _; lia|done]
                        | split; [intros Hc; exfalso; revert Hc; apply Hr;
                                  rewrite !elem_of_cons; tauto
                                 |intros ?; lia] ]
                 |]);
          by simpl in Hi
         |]).
  cbn. intros Hi Hr.
  do 15 (destruct i as [|i];
         [simpl in Hi; try discriminate; injection Hi as <-;
          first [ split; [intros _; lia|done]
                | split; [intros Hc; exfalso; revert Hc; apply Hr;
                          rewrite !elem_of_cons; tauto
                         |intros ?; lia] ]
         |]).
  by simpl in Hi.
Qed.

Lemma raw_chars (typed : string) :
  Forall (λ c, prAllowed c = true ∧ c ≠ "-"%char) (chars (prRawValue typed)).
Proof.
  unfold prRawValue. rewrite !chars_removeAll. apply Forall_forall.
  intros c [Hh [Ha _]%list_elem_of_filter]%list_elem_of_filter.
  split; [by apply negb_false_iff|by apply bool_decide_eq_false in Hh].
Qed.

Lemma chars_handlePRNumberChange (typed : string) :
  chars (handlePRNumberChange typed) = prGroups (chars (prRawValue typed)).
Proof.
  unfold handlePRNumberChange. fold (prRawValue typed). cbv zeta.
  set (raw := prRawValue typed).
  assert (∀ s, chars s = prGroups (chars raw) →
            chars (if (14 <? String.length s)%nat then substring s 0 14 else s)
            = prGroups (chars raw)) as Hcut.
  { intros s Hs. rewrite length_chars, Hs.
    by rewrite (proj2 (Nat.ltb_ge _ _) (prGroups_length _)). }
  apply Hcut. unfold prGroups. rewrite <-!length_chars.
  destruct (0 <? String.length raw)%nat eqn:H0.
  - destruct (3 <? String.length raw)%nat eqn:H3;
      destruct (6 <? String.length raw)%nat eqn:H6;
      destruct (8 <? String.length raw)%nat eqn:H8;
      rewrite ?chars_app, ?chars_substring by lia; simpl;
      rewrite ?app_nil_r, <-?app_assoc; simpl; by rewrite ?drop_0.
  - apply Nat.ltb_ge in H0.
    assert (chars raw = []) as Hnil
      by (apply nil_length_inv; rewrite <-length_chars; lia).
    assert (String.length raw = 0%nat) as -> by lia. simpl. by rewrite Hnil.
Qed.

End PrNumberFacts.

(** X16. The PR number field of the second add screen, for typed text of
    ASCII characters, keeps the letters and digits of what is typed, letters
    in upper case, and sets hyphens itself:
    the value has at most fourteen characters, each a capital letter, a
    digit or a hyphen, with a hyphen exactly at the fourth, eighth and
    eleventh place when the value is that long. Without the hyphens the
    value is the first eleven letters and digits typed. Running the handler
    on its own result changes nothing. *)
Theorem handlePRNumberChange_spec (typed : string) :
  (String.length (handlePRNumberChange typed) ≤ 14)%nat
  ∧ (∀ c, c ∈ String.list_ascii_of_string (handlePRNumberChange typed) →
          prAllowed c = true)
  ∧ (∀ i c, String.list_ascii_of_string (handlePRNumberChange typed) !! i = Some c →
            (c = "-"%char ↔ i = 3%nat ∨ i = 7%nat ∨ i = 10%nat))
  ∧ JsStringMore.removeAll (λ c, bool_decide (c = "-"%char)) (handlePRNumberChange typed)
    = JsStringMore.substring (prRawValue typed) 0 11
  ∧ handlePRNumberChange (handlePRNumberChange typed) = handlePRNumberChange typed.
Proof.
  pose proof (PrNumberFacts.raw_chars typed) as Hraw.
  assert (Forall (λ c, c ≠ "-"%char) (String.list_ascii_of_string (prRawValue typed)))
    as Hnohyphen by (eapply Forall_impl; [exact Hraw|]; by intros c [_ ?]).
  assert (∀ c, c ∈ String.list_ascii_of_string (handlePRNumberChange typed) →
               prAllowed c = true) as Hallowed.
  { intros c. rewrite PrNumberFacts.chars_handlePRNumberChange.
    intros [->|Hc]%PrNumberFacts.prGroups_elem_of; [done|].
    rewrite Forall_forall in Hraw. by apply Hraw. }
  assert (JsStringMore.removeAll (λ c, bool_decide (c = "-"%char))
            (handlePRNumberChange typed)
          = JsStringMore.substring (prRawValue typed) 0 11) as Hstrip.
  { apply PrNumberFacts.chars_inj.
    rewrite PrNumberFacts.chars_removeAll, PrNumberFacts.chars_handlePRNumberChange.
    rewrite PrNumberFacts.prGroups_strip by done.
    rewrite PrNumberFacts.chars_substring by lia. by rewrite drop_0. }
  split_and!.
  - rewrite PrNumberFacts.length_chars, PrNumberFacts.chars_handlePRNumberChange.
    apply PrNumberFacts.prGroups_length.
  - exact Hallowed.
  - intros i c. rewrite PrNumberFacts.chars_handlePRNumberChange.
    by apply PrNumberFacts.prGroups_hyphens.
  - exact Hstrip.
  - apply PrNumberFacts.chars_inj.
    rewrite (PrNumberFacts.chars_handlePRNumberChange (handlePRNumberChange typed)).
    rewrite PrNumberFacts.chars_handlePRNumberChange.
    assert (prRawValue (handlePRNumberChange typed)
            = JsStringMore.substring (prRawValue typed) 0 11) as ->.
    { rewrite <-Hstrip. unfold prRawValue at 1. f_equal.
      apply PrNumberFacts.chars_inj.
      rewrite PrNumberFacts.chars_removeAll, PrNumberFacts.chars_toUpperCase.
      assert (JsStringMore.toUpperChar
                <$> String.list_ascii_of_string (handlePRNumberChange typed)
              = String.list_ascii_of_string (handlePRNumberChange typed)) as ->.
      { apply fmap_fixed. intros c Hc.
        by apply PrNumberFacts.toUpperChar_allowed, Hallowed. }
      apply filter_all. intros c Hc. apply negb_false_iff. by apply Hallowed. }
    rewrite PrNumberFacts.chars_substring by lia. rewrite drop_0.
    apply PrNumberFacts.prGroups_take.
Qed.

(** ** Visual allocation screen *)

Section AllocationFacts.

Lemma find_is_Some {A} (f : A → bool) (l : list A) (x : A) :
  x ∈ l → f x = true → is_Some (find f l).
Proof.
  induction 1 as [x l|x y l Hin IH]; intros Hx; simpl.
  - rewrite Hx. by eexists.
  - destruct (f y); [by eexists|by apply IH].
Qed.

Lemma reachable_mono (P Q : AllocationData.t → Prop) (n : NavState) :
  (∀ d, P d → Q d) → reachable P n → reachable Q n.
Proof.
  intros HPQ. induction 1 as [|d n c Hd _ IH Hr]; [constructor|].
  eapply reachable_click; [by apply HPQ|done|done].
Qed.

Lemma truthyId_is_Some (o : option string) : truthyId o = true → is_Some o.
Proof. destruct o; [by eexists|done]. Qed.

Lemma reachable_levelsMatch (source : AllocationData.t → Prop) (n : NavState) :
  reachable source n → levelsMatch n.
Proof.
  induction 1 as [|d n c _ _ IH Hr]; [done|].
  destruct n as [mode shelf cabinet folder file].
  unfold levelsMatch in *. simpl in IH.
  destruct c; simpl in Hr |- *.
  - destruct Hr as [-> _]. destruct IH as (_ & -> & ->). by eauto.
  - destruct Hr as [-> _]. destruct IH as (? & _ & ->). by eauto.
  - destruct Hr as [-> _]. destruct IH as (? & ? & _). by eauto.
  - done.
  - unfold goBack. simpl.
    destruct mode; simpl; destruct IH as (Hs & Hc & Hf); by split_and!.
  - done.
  - by apply truthyId_is_Some in Hr.
  - apply truthyId_is_Some in Hr.
    destruct mode; destruct IH as (Hs & Hc & Hf); subst; split_and!;
      try done; by destruct Hr.
  - done.
Qed.

End AllocationFacts.

(** X17. On the visual allocation screen the selections that are set are
    always those above the current view, whatever the store pushes between
    two clicks: none in the shelves view, the shelf in the cabinets view,
    shelf and cabinet in the folders view, all three in the files view (so the
    lists of the views are never asked for a [null] id). Up One Level undoes a
    selection: after a click on a shelf, cabinet or folder card it gives back
    the state before the click. *)
Theorem navigation_levels (n : NavState) :
  reachable (λ _, True) n →
  levelsMatch n
  ∧ (∀ data c, rendered data n c →
       (∃ shelf, c = shelfCard shelf) ∨ (∃ cabinet, c = cabinetCard cabinet)
       ∨ (∃ folder, c = folderCard folder) →
       rendered data (onClick c n) upOneLevel
       ∧ onClick upOneLevel (onClick c n) = n).
Proof.
  intros Hlevels%reachable_levelsMatch. split; [done|].
  intros data c Hr Hc.
  destruct n as [mode shelf cabinet folder file].
  unfold levelsMatch in Hlevels. simpl in Hlevels.
  destruct Hc as [[x ->]|[[x ->]|[x ->]]]; simpl in Hr; destruct Hr as [-> _];
    simpl; (split; [done|]); unfold goBack; simpl.
  - by destruct Hlevels as (-> & _ & _).
  - by destruct Hlevels as (_ & -> & _).
  - by destruct Hlevels as (_ & _ & ->).
Qed.

(** In the folders view of the sample data, reached by a click on the shelf
    and one on its cabinet, the shelf and the cabinet are set and a click on
    the folder followed by Up One Level leads back. *)
Lemma navigation_levels_witness :
  levelsMatch (mkNavState ViewMode.folders (Some "S1") (Some "C1") None None)
  ∧ onClick upOneLevel
      (onClick (folderCard (Folder.mk "X" "C1" "F1" "Folder 1"))
         (mkNavState ViewMode.folders (Some "S1") (Some "C1") None None))
    = mkNavState ViewMode.folders (Some "S1") (Some "C1") None None.
Proof.
  destruct (navigation_levels
              (mkNavState ViewMode.folders (Some "S1") (Some "C1") None None))
    as [Hlevels Hback].
  - apply (reachable_click _ sampleAllocation
             (mkNavState ViewMode.cabinets (Some "S1") None None None)
             (cabinetCard (Shelf.mk "C1" "S1" "C1" "Cabinet 1"))); [done| |].
    + apply (reachable_click _ sampleAllocation initialNav
               (shelfCard (Cabinet.mk "S1" "S1" "Shelf 1"))); [done|constructor|].
      split; [done|]. simpl. by left.
    + split; [done|]. vm_compute. by left.
  - split; [exact Hlevels|].
    apply (Hback sampleAllocation (folderCard (Folder.mk "X" "C1" "F1" "Folder 1"))).
    + split; [done|]. vm_compute. by left.
    + right. right. by eexists.
Defined.

(** X18. While the collections stay as they are, what is selected on the
    visual allocation screen exists and is nested: the shelf, cabinet and
    folder named in the breadcrumb and the heading are found
    ([currentShelf], [currentCabinet] and [currentFolder] are defined when
    their id is set), the selected cabinet is one of the cabinets of the
    selected shelf, the selected folder one of the folders of the selected
    cabinet, and the file in the dialog is one of the records. *)
Theorem selection_is_nested (data : AllocationData.t) (n : NavState) :
  reachable (λ d, d = data) n →
  (is_Some (selectedShelfId n) → is_Some (currentShelf data n))
  ∧ (∀ cabinetId, selectedCabinetId n = Some cabinetId →
       is_Some (currentCabinet data n)
       ∧ cabinetId ∈ Shelf.id <$> getCabinetsForShelf data (selectedShelfId n))
  ∧ (∀ folderId, selectedFolderId n = Some folderId →
       is_Some (currentFolder data n)
       ∧ folderId ∈ Folder.id <$> getFoldersForCabinet data (selectedCabinetId n))
  ∧ (∀ file, selectedFile n = Some file → file ∈ AllocationData.procurements data).
Proof.
  intros Hreach.
  pose proof (reachable_levelsMatch _ _ Hreach) as Hlevels.
  induction Hreach as [|d n c -> Hreach IH Hr].
  - split_and!; [by intros []|done..].
  - specialize (IH (reachable_levelsMatch _ _ Hreach)).
    pose proof (reachable_levelsMatch _ _ Hreach) as Hbefore.
    destruct n as [mode shelf cabinet folder file].
    unfold levelsMatch in Hbefore, Hlevels.
    unfold currentShelf, currentCabinet, currentFolder in *.
    simpl in IH, Hbefore.
    destruct IH as (IHs & IHc & IHf & IHfile).
    destruct c; simpl in Hr, Hlevels |- *.
    + destruct Hr as [-> Hin]. destruct Hbefore as (_ & -> & ->).
      split_and!; [|done..].
      intros _. eapply find_is_Some; [exact Hin|by apply bool_decide_eq_true_2].
    + destruct Hr as [-> Hin]. destruct Hbefore as (_ & _ & ->).
      split_and!; [done| |done..].
      intros ? [= <-]. split.
      * apply list_elem_of_filter in Hin as [_ Hin].
        eapply find_is_Some; [exact Hin|by apply bool_decide_eq_true_2].
      * apply list_elem_of_fmap. by eexists.
    + destruct Hr as [-> Hin].
      split_and!; [done..| |done].
      intros ? [= <-]. split.
      * apply list_elem_of_filter in Hin as [_ Hin].
        eapply find_is_Some; [exact Hin|by apply bool_decide_eq_true_2].
      * apply list_elem_of_fmap. by eexists.
    + destruct Hr as [-> Hin].
      split_and!; [done..|].
      intros ? [= <-]. by apply list_elem_of_filter in Hin as [_ Hin].
    + unfold goBack in *. simpl in *.
      destruct mode; simpl in *; destruct Hbefore as (Hs & Hc & Hf); subst;
        split_and!; try done; try (by intros []); by intros ? [=].
    + split_and!; [by intros []|done..].
    + split_and!; done.
    + split_and!; done.
    + split_and!; done.
Qed.

(** After a click on the shelf of the sample data and one on its cabinet,
    breadcrumb and heading find both, and the cabinet is one of the shelf's. *)
Lemma selection_is_nested_witness :
  is_Some (currentShelf sampleAllocation
             (mkNavState ViewMode.folders (Some "S1") (Some "C1") None None))
  ∧ is_Some (currentCabinet sampleAllocation
               (mkNavState ViewMode.folders (Some "S1") (Some "C1") None None))
  ∧ "C1" ∈ Shelf.id <$> getCabinetsForShelf sampleAllocation (Some "S1").
Proof.
  destruct (selection_is_nested sampleAllocation
              (mkNavState ViewMode.folders (Some "S1") (Some "C1") None None))
    as (Hshelf & Hcabinet & _).
  - apply (reachable_click _ sampleAllocation
             (mkNavState ViewMode.cabinets (Some "S1") None None None)
             (cabinetCard (Shelf.mk "C1" "S1" "C1" "Cabinet 1"))); [done| |].
    + apply (reachable_click _ sampleAllocation initialNav
               (shelfCard (Cabinet.mk "S1" "S1" "Shelf 1"))); [done|constructor|].
      split; [done|]. simpl. by left.
    + split; [done|]. vm_compute. by left.
  - split; [apply Hshelf; by eexists|].
    destruct (Hcabinet "C1" eq_refl) as [Hcur Hin]. by split.
Defined.

(** ** Users other than the main admin *)

(** X19. [toggleStatus] for a user whose address is not that of the main
    admin makes one [updateUser] call that carries only the other status. If
    the store accepts it, every stored user with that id has the new status,
    all else is as before and a message names the new status; if the store
    rejects it, the rejection is not caught: nothing is stored and no message
    is shown. Toggling a second time, once the row shows the new status,
    restores the stored users. *)
Theorem toggleStatus_ordinary (u : User.t) (w : World) :
  User.email u ≠ "admin@gmail.com" →
  calls (toggleStatus u w).2
  = (calls w ++ [call_updateUser (User.id u)
                   (User.mkPatch None None None None
                                 (Some (otherStatus (User.status u))))])%list
  ∧ (head (faults w) = Some true →
       (toggleStatus u w).1 = Thrown
       ∧ store_users (toggleStatus u w).2 = store_users w
       ∧ toasts (toggleStatus u w).2 = toasts w)
  ∧ (head (faults w) ≠ Some true →
       (toggleStatus u w).1 = Returned tt
       ∧ store_users (toggleStatus u w).2
         = (λ x, if bool_decide (User.id x = User.id u)
                 then withStatus (otherStatus (User.status u)) x else x)
             <$> store_users w
       ∧ toasts (toggleStatus u w).2
         = (toasts w ++ [toast_success
                           ("User set to "
                            +:+ statusName (otherStatus (User.status u)))])%list)
  ∧ (faults w = [] →
     (∀ x, x ∈ store_users w → User.id x = User.id u →
           User.status x = User.status u) →
     store_users
       (toggleStatus (withStatus (otherStatus (User.status u)) u)
                     (toggleStatus u w).2).2
     = store_users w).
Proof.
  intros Hmail.
  assert (∀ s v, User.email v ≠ "admin@gmail.com" → otherStatus (User.status v) = s →
            toggleStatus v
            = (updateUser (User.id v) (User.mkPatch None None None None (Some s)) ;;'
               toast (toast_success ("User set to " +:+ statusName s)))) as Hrun.
  { intros s v Hv <-. unfold toggleStatus. rewrite bool_decide_eq_false_2 by done.
    by destruct (User.status v). }
  assert (∀ s (l : list User.t) key,
            (λ x, if bool_decide (User.id x = key)
                  then User.apply (User.mkPatch None None None None (Some s)) x else x)
              <$> l
            = (λ x, if bool_decide (User.id x = key) then withStatus s x else x) <$> l)
    as Hpatch.
  { intros s l key. apply list_fmap_ext. intros i x _. by destruct x. }
  rewrite (Hrun _ u Hmail eq_refl).
  unfold bind, updateUser, storeCall, toast.
  split_and!.
  - by destruct (faults w) as [|[] fs].
  - destruct (faults w) as [|[] fs]; by intros [=].
  - destruct (faults w) as [|[] fs]; intros Hok; try done; simpl;
      by rewrite Hpatch.
  - intros Hf Hsame. rewrite Hf. simpl.
    rewrite (Hrun (User.status u) (withStatus _ u)); [|done|by destruct (User.status u)].
    unfold bind, updateUser, storeCall, toast. simpl. rewrite Hf. simpl.
    rewrite !Hpatch, <-list_fmap_compose.
    apply fmap_fixed. intros x Hx. simpl.
    destruct (decide (User.id x = User.id u)) as [Hid|Hid].
    + rewrite !(bool_decide_eq_true_2 (User.id x = User.id u)) by done.
      rewrite <-(Hsame x Hx Hid). by destruct x.
    + by rewrite !(bool_decide_eq_false_2 (User.id x = User.id u)) by done.
Qed.

(** the clerk of the sample users is set to inactive, and a second click
    sets the account back *)
Lemma toggleStatus_ordinary_witness :
  store_users (toggleStatus clerk (freshWorld [] [clerk; mainAdmin] None)).2
  = [withStatus User.inactive clerk; mainAdmin]
  ∧ store_users
      (toggleStatus (withStatus User.inactive clerk)
         (toggleStatus clerk (freshWorld [] [clerk; mainAdmin] None)).2).2
    = [clerk; mainAdmin].
Proof.
  destruct (toggleStatus_ordinary clerk (freshWorld [] [clerk; mainAdmin] None))
    as (_ & _ & Hok & Hback).
  - done.
  - split.
    + destruct Hok as (_ & -> & _); [done|reflexivity].
    + apply Hback; [reflexivity|].
      intros x Hx Hid. simpl in Hx.
      apply elem_of_cons in Hx as [->|Hx]; [done|].
      apply elem_of_cons in Hx as [->|Hx]; [done|].
      by apply elem_of_nil in Hx.
Defined.

(** X20. [handleDeleteUser] for an id that the list at hand does not give
    the address of the main admin (an unknown id included) never throws. If
    the question is answered with no, nothing happens at all. If it is
    confirmed, one [deleteUser] call is made for the id: when the store
    accepts it, the users with that id are gone, the others stay in their
    order and a success message is shown; when it rejects, the users stay
    and the failure message is shown. *)
Theorem handleDeleteUser_ordinary (users : list User.t) (key : string) (w : World) :
  (∀ u, findUser users key = Some u → User.email u ≠ "admin@gmail.com") →
  (handleDeleteUser users key w).1 = Returned tt
  ∧ (confirmReply w = false → (handleDeleteUser users key w).2 = w)
  ∧ (confirmReply w = true →
       calls (handleDeleteUser users key w).2 = (calls w ++ [call_deleteUser key])%list
       ∧ (head (faults w) = Some true →
            store_users (handleDeleteUser users key w).2 = store_users w
            ∧ toasts (handleDeleteUser users key w).2
              = (toasts w ++ [toast_error "Failed to delete user"])%list)
       ∧ (head (faults w) ≠ Some true →
            store_users (handleDeleteUser users key w).2
            = filter (λ u, User.id u ≠ key) (store_users w)
            ∧ toasts (handleDeleteUser users key w).2
              = (toasts w ++ [toast_success "User deleted"])%list)).
Proof.
  intros Hmail. unfold handleDeleteUser.
  rewrite bool_decide_eq_false_2.
  2: { destruct (findUser users key) as [u|] eqn:Hu; [|done].
       simpl. intros [= Heq]. by apply (Hmail u). }
  unfold bind, confirm, tryCatch, deleteUser, storeCall, toast.
  destruct (confirmReply w) eqn:Hreply.
  - destruct (faults w) as [|[] fs]; simpl; split_and!; try done;
      intros _; split_and!; try done; by intros [=].
  - by split_and!.
Qed.

(** the clerk of the sample users is deleted and the main admin stays; an id
    that no user has leads to a call all the same *)
Lemma handleDeleteUser_ordinary_witness :
  store_users (handleDeleteUser [clerk; mainAdmin] "u1"
                 (freshWorld [] [clerk; mainAdmin] None)).2 = [mainAdmin]
  ∧ calls (handleDeleteUser [clerk; mainAdmin] "u9"
             (freshWorld [] [clerk; mainAdmin] None)).2 = [call_deleteUser "u9"].
Proof.
  split.
  - destruct (handleDeleteUser_ordinary [clerk; mainAdmin] "u1"
                (freshWorld [] [clerk; mainAdmin] None)) as (_ & _ & Hyes).
    + intros u [= <-]. done.
    + destruct (Hyes eq_refl) as (_ & _ & Hok).
      destruct Hok as [-> _]; [done|reflexivity].
  - destruct (handleDeleteUser_ordinary [clerk; mainAdmin] "u9"
                (freshWorld [] [clerk; mainAdmin] None)) as (_ & _ & Hyes).
    + intros u [=].
    + by destruct (Hyes eq_refl) as (-> & _).
Defined.

(** ** User list *)

Lemma matchesUser_spec (searchQuery : string) (roleFilter : option User.Role)
    (statusFilter : option User.Status) (u : User.t) :
  matchesUser searchQuery roleFilter statusFilter u = true
  ↔ ((∃ pre post, JsString.toLowerCase (User.name u)
                  = pre +:+ JsString.toLowerCase searchQuery +:+ post)
     ∨ (∃ pre post, JsString.toLowerCase (User.email u)
                    = pre +:+ JsString.toLowerCase searchQuery +:+ post))
    ∧ (∀ r, roleFilter = Some r → User.role u = r)
    ∧ (∀ s, statusFilter = Some s → User.status u = s).
Proof.
  unfold matchesUser. cbv zeta.
  rewrite !andb_true_iff, !orb_true_iff, !bool_decide_eq_true, !includes_spec.
  split.
  - intros [[Hsearch Hrole] Hstatus]. split_and!; [done| |].
    + intros r ->. by destruct Hrole as [|[= ->]].
    + intros s ->. by destruct Hstatus as [|[= ->]].
  - intros (Hsearch & Hrole & Hstatus). split_and!; [done| |].
    + destruct roleFilter as [r|]; [right|by left]. by rewrite (Hrole r).
    + destruct statusFilter as [s|]; [right|by left]. by rewrite (Hstatus s).
Qed.

(** X21. On text of ASCII characters the user list shows, in the order of
    the users, exactly those whose name or e-mail address contains the
    search text, case ignored, and who have the chosen role and the chosen
    status, where [all] asks for nothing. With an empty search text and
    both filters on [all] every user is listed, and narrowing a search
    result by role and status gives what the three criteria give together. *)
Theorem filteredUsers_spec (users : list User.t) (searchQuery : string)
    (roleFilter : option User.Role) (statusFilter : option User.Status) :
  JsStringMore.isAscii searchQuery = true →
  (∀ u, u ∈ users →
        JsStringMore.isAscii (User.name u) = true
        ∧ JsStringMore.isAscii (User.email u) = true) →
  (∀ u, u ∈ filteredUsers users searchQuery roleFilter statusFilter
        ↔ u ∈ users
          ∧ ((∃ pre post, JsString.toLowerCase (User.name u)
                          = pre +:+ JsString.toLowerCase searchQuery +:+ post)
             ∨ (∃ pre post, JsString.toLowerCase (User.email u)
                            = pre +:+ JsString.toLowerCase searchQuery +:+ post))
          ∧ (∀ r, roleFilter = Some r → User.role u = r)
          ∧ (∀ s, statusFilter = Some s → User.status u = s))
  ∧ filteredUsers users searchQuery roleFilter statusFilter `sublist_of` users
  ∧ filteredUsers users "" None None = users
  ∧ filteredUsers (filteredUsers users searchQuery None None) "" roleFilter statusFilter
    = filteredUsers users searchQuery roleFilter statusFilter.
Proof.
  intros _ _. split_and!.
  - intros u. unfold filteredUsers.
    rewrite list_elem_of_filter, matchesUser_spec. tauto.
  - apply sublist_filter.
  - apply filter_all. intros u _. apply matchesUser_spec.
    split_and!; [|done..]. left. by exists "", (JsString.toLowerCase (User.name u)).
  - unfold filteredUsers. rewrite list_filter_filter. apply list_filter_iff.
    intros u. rewrite !matchesUser_spec. split.
    + intros [(_ & Hrole & Hstatus) (Hsearch & _ & _)]. done.
    + intros (Hsearch & Hrole & Hstatus). split; split_and!; try done.
      left. by exists "", (JsString.toLowerCase (User.name u)).
Qed.

(** the search text [CLERK] with the role filter on [user] finds the clerk
    among the sample users *)
Lemma filteredUsers_spec_witness :
  clerk ∈ filteredUsers [clerk; mainAdmin] "CLERK" (Some User.user) None.
Proof.
  destruct (filteredUsers_spec [clerk; mainAdmin] "CLERK" (Some User.user) None)
    as (Hiff & _).
  - reflexivity.
  - intros u Hu.
    apply elem_of_cons in Hu as [->|Hu]; [by split|].
    apply elem_of_cons in Hu as [->|Hu]; [by split|].
    by apply elem_of_nil in Hu.
  - apply Hiff. split_and!.
    + left.
    + left. by exists "", "".
    + by intros r [= <-].
    + by intros s [=].
Defined.
